(** * htmljs: data store, binding registry and renderer

    A shallow embedding of [src/html.js] (the monolithic renderer) and of
    [src/unnamed/part_001] (its refactored copy), with the properties of the
    store, of the binding registry and of the two renderers stated over it.

    Conventions of the embedding.
    - A JavaScript value is a [val]; an object is the ordered list of its
      own enumerable properties, an array the list of its elements.
      Properties inherited from [Object.prototype] are not part of the model,
      and keys that are canonical array indices keep their insertion order.
    - A string is a sequence of code units below 256.
    - The DOM is a heap of nodes addressed by position; name validation by
      the DOM ([InvalidCharacterError]) is not modelled.
    - The JavaScript engine and the DOM library enter through the record
      [engine]: calling a function value, evaluating program text, parsing
      and serialising markup, selector queries.
    - Code runs in the monad [M]: explicit state, and [Throw] for a
      JavaScript exception.  [fuel] bounds the depth of nested [render]
      calls; exhausting it is the engine's [RangeError]. *)

From Stdlib Require Import String Ascii List ZArith Lia Bool Arith.
From Stdlib Require Import DecimalString.
Import ListNotations.
Set Warnings "-register-all".
Local Open Scope string_scope.
Local Open Scope list_scope.

(** ** Characters and strings *)

Module Str.

Definition code (c : ascii) : nat := nat_of_ascii c.

(** The class [\s] of regular expressions, also what [trim] removes. *)
Definition is_ws (c : ascii) : bool :=
  let n := code c in
  (Nat.leb 9 n && Nat.leb n 13) || Nat.eqb n 32 || Nat.eqb n 160.

Definition is_upper (c : ascii) : bool :=
  let n := code c in Nat.leb 65 n && Nat.leb n 90.

Definition is_lower (c : ascii) : bool :=
  let n := code c in Nat.leb 97 n && Nat.leb n 122.

Definition to_lower (c : ascii) : ascii :=
  if is_upper c then ascii_of_nat (code c + 32) else c.

Definition to_upper (c : ascii) : ascii :=
  if is_lower c then ascii_of_nat (code c - 32) else c.

Fixpoint map (f : ascii -> ascii) (s : string) : string :=
  match s with
  | EmptyString => EmptyString
  | String c s' => String (f c) (map f s')
  end.

Definition toLowerCase : string -> string := map to_lower.
Definition toUpperCase : string -> string := map to_upper.

Fixpoint existsb (p : ascii -> bool) (s : string) : bool :=
  match s with
  | EmptyString => false
  | String c s' => p c || existsb p s'
  end.

(** [s.includes(c)] for a one-character needle. *)
Definition includes (c : ascii) (s : string) : bool :=
  existsb (Ascii.eqb c) s.

(** [s.split(c)] for a one-character separator. *)
Fixpoint split (sep : ascii) (s : string) : list string :=
  match s with
  | EmptyString => [EmptyString]
  | String c s' =>
      if Ascii.eqb c sep then EmptyString :: split sep s'
      else match split sep s' with
           | h :: t => String c h :: t
           | [] => [String c EmptyString]
           end
  end.

(** [s.indexOf(c)]: the first position of [c], or [-1]. *)
Fixpoint indexOf (c : ascii) (s : string) : Z :=
  match s with
  | EmptyString => (-1)%Z
  | String a s' =>
      if Ascii.eqb a c then 0%Z
      else let i := indexOf c s' in
           if (i <? 0)%Z then (-1)%Z else (i + 1)%Z
  end.

(** [s.slice(from, to)]: negative positions count from the end. *)
Definition slice (s : string) (from to : Z) : string :=
  let len := Z.of_nat (String.length s) in
  let clamp i := if (i <? 0)%Z then Z.max (len + i) 0 else Z.min i len in
  let a := clamp from in
  let b := clamp to in
  if (a <? b)%Z then String.substring (Z.to_nat a) (Z.to_nat (b - a)) s
  else EmptyString.

Fixpoint dropWhile (p : ascii -> bool) (s : string) : string :=
  match s with
  | EmptyString => EmptyString
  | String c s' => if p c then dropWhile p s' else s
  end.

Fixpoint rev_onto (s acc : string) : string :=
  match s with
  | EmptyString => acc
  | String c s' => rev_onto s' (String c acc)
  end.

Definition rev (s : string) : string := rev_onto s EmptyString.

Definition trim (s : string) : string :=
  rev (dropWhile is_ws (rev (dropWhile is_ws s))).

Definition startsWith (p s : string) : bool := String.prefix p s.

(** [str.replace(/[A-Z]/g, (match) => "-" + match.toLowerCase())] *)
Fixpoint camelToHyphen (s : string) : string :=
  match s with
  | EmptyString => EmptyString
  | String c s' =>
      if is_upper c then String "-" (String (to_lower c) (camelToHyphen s'))
      else String c (camelToHyphen s')
  end.

(** [str.replace(/-([a-z])/g, (g) => g[1].toUpperCase())] *)
Fixpoint hyphenToCamelCase (s : string) : string :=
  match s with
  | EmptyString => EmptyString
  | String c s' =>
      match s' with
      | String d s'' =>
          if Ascii.eqb c "-" && is_lower d
          then String (to_upper d) (hyphenToCamelCase s'')
          else String c (hyphenToCamelCase s')
      | EmptyString => String c EmptyString
      end
  end.

(** [/[A-Z]/.test(key)] *)
Definition hasUpperCase (s : string) : bool := existsb is_upper s.

(** [/[a-z][A-Z]/.test(str)] *)
Fixpoint isCamelCase (s : string) : bool :=
  match s with
  | EmptyString => false
  | String c s' =>
      match s' with
      | String d _ => (is_lower c && is_upper d) || isCamelCase s'
      | EmptyString => false
      end
  end.

(** The position after the first [c] of [s], when there is one. *)
Fixpoint after (c : ascii) (s : string) : option string :=
  match s with
  | EmptyString => None
  | String a s' => if Ascii.eqb a c then Some s' else after c s'
  end.

(** [/^\s*(function\s*\(|\(\s*[^\)]*\)\s*=>)/.test(str)].  After the
    leading blanks either the word [function], blanks and an opening
    parenthesis; or an opening parenthesis, anything up to the first closing
    one, blanks and [=>]. *)
Definition functionPattern (s : string) : bool :=
  let s0 := dropWhile is_ws s in
  (if startsWith "function" s0
   then startsWith "(" (dropWhile is_ws (slice s0 8 (Z.of_nat (String.length s0))))
   else false)
  || match s0 with
     | String "(" rest =>
         match after ")" rest with
         | Some tail => startsWith "=>" (dropWhile is_ws tail)
         | None => false
         end
     | _ => false
     end.

End Str.

(** ** Values *)

(** A function value: the text [toString] gives for it, and the closure it
    stands for (what the engine's [call] runs). *)
Record fn := { fn_src : string; fn_id : nat }.

Inductive val :=
| VUndef
| VNull
| VBool (b : bool)
| VNum (n : Z)
| VNaN
| VStr (s : string)
| VArr (l : list val)
| VObj (o : list (string * val))
| VFun (f : fn).

Definition obj := list (string * val).

Definition nat_to_string (n : nat) : string :=
  NilZero.string_of_uint (Nat.to_uint n).

Definition Z_to_string (z : Z) : string :=
  NilZero.string_of_int (Z.to_int z).

(** [!!v] *)
Definition truthy (v : val) : bool :=
  match v with
  | VUndef | VNull | VNaN => false
  | VBool b => b
  | VNum n => negb (n =? 0)%Z
  | VStr s => negb (s =? "")
  | VArr _ | VObj _ | VFun _ => true
  end.

(** [typeof v === "object"] *)
Definition typeof_object (v : val) : bool :=
  match v with
  | VNull | VArr _ | VObj _ => true
  | _ => false
  end.

(** [v === null] *)
Definition is_null (v : val) : bool :=
  match v with VNull => true | _ => false end.

(** [v === undefined] *)
Definition is_undefined (v : val) : bool :=
  match v with VUndef => true | _ => false end.

(** [v === false] *)
Definition is_false (v : val) : bool :=
  match v with VBool false => true | _ => false end.

(** [v === 0] *)
Definition is_zero (v : val) : bool :=
  match v with VNum 0 => true | _ => false end.

(** [String(v)], the coercion the DOM and string concatenation apply. *)
Fixpoint to_string (v : val) : string :=
  match v with
  | VUndef => "undefined"
  | VNull => "null"
  | VBool true => "true"
  | VBool false => "false"
  | VNum n => Z_to_string n
  | VNaN => "NaN"
  | VStr s => s
  | VArr l =>
      (fix join (l : list val) : string :=
         match l with
         | [] => ""
         | x :: r =>
             let sx := match x with
                       | VUndef | VNull => ""
                       | _ => to_string x
                       end in
             match r with
             | [] => sx
             | _ => (sx ++ "," ++ join r)%string
             end
         end) l
  | VObj _ => "[object Object]"
  | VFun f => fn_src f
  end.

(** [depth + 1] *)
Definition plus_one (v : val) : val :=
  match v with
  | VNum n => VNum (n + 1)
  | VNull => VNum 1
  | VBool true => VNum 2
  | VBool false => VNum 1
  | VUndef | VNaN => VNaN
  | VStr _ | VArr _ | VObj _ | VFun _ => VStr (to_string v ++ "1")%string
  end.

Fixpoint chars (s : string) : list string :=
  match s with
  | EmptyString => []
  | String c s' => String c EmptyString :: chars s'
  end.

Fixpoint assoc {A : Type} (k : string) (l : list (string * A)) : option A :=
  match l with
  | [] => None
  | (k', v) :: r => if k' =? k then Some v else assoc k r
  end.

(** [o[k] = v] on a plain object: an existing key keeps its place, a new one
    goes last. *)
Fixpoint obj_set {A : Type} (o : list (string * A)) (k : string) (v : A)
  : list (string * A) :=
  match o with
  | [] => [(k, v)]
  | (k', v') :: r => if k' =? k then (k', v) :: r else (k', v') :: obj_set r k v
  end.

Definition obj_get (o : obj) (k : string) : val :=
  match assoc k o with
  | Some v => v
  | None => VUndef
  end.

Definition has_key (o : obj) (k : string) : bool :=
  match assoc k o with Some _ => true | None => false end.

Fixpoint number_from {A : Type} (i : nat) (l : list A) : list (string * A) :=
  match l with
  | [] => []
  | x :: r => (nat_to_string i, x) :: number_from (S i) r
  end.

(** The own enumerable properties of a value, in enumeration order: what
    [for (key in v)], [Object.keys(v)] and [{...v}] see. *)
Definition own_props (v : val) : obj :=
  match v with
  | VObj o => o
  | VArr l => number_from 0 l
  | VStr s => number_from 0 (List.map VStr (chars s))
  | _ => []
  end.

Definition own_keys (v : val) : list string := List.map fst (own_props v).

(** [v[k]] for a value that is neither [null] nor [undefined]. *)
Definition get_prop (v : val) (k : string) : val :=
  match v with
  | VObj o => obj_get o k
  | VArr l =>
      if k =? "length" then VNum (Z.of_nat (List.length l))
      else obj_get (number_from 0 l) k
  | VStr s =>
      if k =? "length" then VNum (Z.of_nat (String.length s))
      else obj_get (number_from 0 (List.map VStr (chars s))) k
  | _ => VUndef
  end.

(** [{ ...v }] *)
Definition spread (v : val) : obj := own_props v.

(** [l[k] = v] on an array, for [k] the text of a position up to the length
    (a later position, or a key that is no position, leaves the list as it
    is: such an array has no counterpart in [val]). *)
Fixpoint arr_set_from (i : nat) (l : list val) (k : string) (v : val)
  : list val :=
  match l with
  | [] => if nat_to_string i =? k then [v] else []
  | x :: r =>
      if nat_to_string i =? k then v :: r else x :: arr_set_from (S i) r k v
  end.

(** [t[k] = v] *)
Definition set_prop (t : val) (k : string) (v : val) : val :=
  match t with
  | VObj o => VObj (obj_set o k v)
  | VArr l => VArr (arr_set_from 0 l k v)
  | _ => t
  end.

(** [deepMerge(target, source)] of both files; the result is the mutated
    target. *)
Fixpoint deepMerge (target source : val) {struct source} : val :=
  match source with
  | VObj o =>
      (fix each (o : obj) (t : val) : val :=
         match o with
         | [] => t
         | (key, sv) :: r =>
             each r
               (if truthy sv && typeof_object sv
                then
                  let tv := get_prop t key in
                  let tv' := if negb (truthy tv) || negb (typeof_object tv)
                             then VObj [] else tv in
                  set_prop t key (deepMerge tv' sv)
                else set_prop t key sv)
         end) o target
  | VArr l =>
      (fix each (i : nat) (l : list val) (t : val) : val :=
         match l with
         | [] => t
         | sv :: r =>
             let key := nat_to_string i in
             each (S i) r
               (if truthy sv && typeof_object sv
                then
                  let tv := get_prop t key in
                  let tv' := if negb (truthy tv) || negb (typeof_object tv)
                             then VObj [] else tv in
                  set_prop t key (deepMerge tv' sv)
                else set_prop t key sv)
         end) 0 l target
  | VStr s =>
      List.fold_left (fun t kv => set_prop t (fst kv) (snd kv))
        (own_props source) target
  | _ => target
  end.

(** ** State, exceptions and the monad of the program *)

(** An entry of the registry: [{ element, func, property }]. *)
Record binding := { element : nat; func : val; property : string }.

(** Markup as the parser of the DOM library hands it back. *)
Inductive tree :=
| TText (s : string)
| TElem (ns tag : string) (attrs : list (string * string)) (kids : list tree).

(** A node of the document: a text node, or an element with its namespace,
    its name as given to [createElementNS], its attributes and the positions
    of its child nodes. *)
Inductive dnode :=
| Text (s : string)
| Elem (ns tag : string) (attrs : list (string * string)) (kids : list nat).

Definition heap := list dnode.

(** What the run leaves behind for the statements below: every call of an
    evaluator, and every [emitBinding]. *)
Inductive event :=
| Evaluated (f : val) (arg : val)
| Emitted (listenerId : string) (b : binding).

(** The [App] object and the document.  [store] is the target behind the
    proxy [data]; [bindings] maps a key to the array it holds, [arrays] are
    those array objects (an array is shared by everyone who holds its
    position: [push] changes it in place, [filter] makes a new one). *)
Record state := {
  store : obj;
  bindings : list (string * nat);
  arrays : list (list binding);
  dom : heap;
  log : list event
}.

Definition empty_state : state :=
  {| store := []; bindings := []; arrays := []; dom := []; log := [] |}.

Inductive exn :=
| TypeError (msg : string)
| ReferenceError (name : string)
| RangeError
| SyntaxError (msg : string)
| Error (msg : string)
| DOMException (name : string)
| Thrown (v : val).

Inductive result (A : Type) :=
| Ok (a : A)
| Throw (e : exn).
Arguments Ok {A} a.
Arguments Throw {A} e.

Definition M (A : Type) : Type := state -> result A * state.

Definition ret {A} (a : A) : M A := fun st => (Ok a, st).

Definition throw {A} (e : exn) : M A := fun st => (Throw e, st).

Definition bind {A B} (m : M A) (f : A -> M B) : M B :=
  fun st =>
    match m st with
    | (Ok a, st') => f a st'
    | (Throw e, st') => (Throw e, st')
    end.

Definition lift {A} (r : result A) : M A := fun st => (r, st).

Definition gets {A} (f : state -> A) : M A := fun st => (Ok (f st), st).

Definition modify (f : state -> state) : M unit := fun st => (Ok tt, f st).

Declare Scope js_scope.
Delimit Scope js_scope with js.
Notation "x <- c1 ;; c2" := (bind c1 (fun x => c2))
  (at level 61, c1 at next level, right associativity) : js_scope.
Notation "c1 ;; c2" := (bind c1 (fun _ => c2))
  (at level 61, right associativity) : js_scope.
Local Open Scope js_scope.

(** [l.forEach(f)], and the [for] loops over a list fixed beforehand. *)
Fixpoint forEach {A} (l : list A) (f : A -> M unit) : M unit :=
  match l with
  | [] => ret tt
  | x :: r => f x ;; forEach r f
  end.

(** What [render] hands back. *)
Inductive rendered :=
| RNull
| RUndefined
| RNode (n : nat)
| RHtml (s : string).

(** The engine and the DOM library.  [call f arg] is [f(arg, e, c)] for the
    element catalogue [e] and the components [c]: functions are taken to
    depend on their first argument only and to leave the program's state
    alone.  The queries take the root of the search, [None] for the
    document. *)
Record engine := {
  isServer : bool;
  call : fn -> val -> result val;
  new_Function : string -> result val;
  new_Function_data : string -> obj -> result val;
  run_callback : fn -> nat -> M unit;
  parse_html : string -> list tree;
  outerHTML : heap -> nat -> string;
  querySelector : heap -> option nat -> string -> option nat;
  querySelectorAll : heap -> option nat -> string -> list nat;
  JSON_stringify : obj -> string
}.

(** The text of the script a file injects on the server: [script_init]
    imports and starts [App]; [script_hydrate json] replays the snapshot
    [json] and scans the page for bindings (see [hydrate] below for what it
    does when it runs).  Each file has its own text. *)
Record script := {
  script_init : string;
  script_hydrate : string -> string
}.

(** ** The document *)

Module Dom.

Definition set_attr (attrs : list (string * string)) (k v : string) :=
  obj_set attrs k v.

Fixpoint del_attr (attrs : list (string * string)) (k : string) :=
  match attrs with
  | [] => []
  | (k', v) :: r => if k' =? k then del_attr r k else (k', v) :: del_attr r k
  end.

Definition xhtml : string := "http://www.w3.org/1999/xhtml".

(** In an HTML document the plain attribute methods lower-case the name on
    an element of the XHTML namespace. *)
Definition attr_name (ns k : string) : string :=
  if ns =? xhtml then Str.toLowerCase k else k.

Fixpoint update (h : heap) (i : nat) (n : dnode) : heap :=
  match h, i with
  | [], _ => []
  | _ :: r, O => n :: r
  | x :: r, S i' => x :: update r i' n
  end.

Definition alloc (n : dnode) : M nat :=
  fun st =>
    (Ok (List.length (dom st)),
     {| store := store st; bindings := bindings st; arrays := arrays st;
        dom := dom st ++ [n]; log := log st |}).

Definition set_dom (h : heap) : M unit :=
  modify (fun st =>
    {| store := store st; bindings := bindings st; arrays := arrays st;
       dom := h; log := log st |}).

Definition node (i : nat) : M dnode :=
  fun st =>
    match nth_error (dom st) i with
    | Some n => (Ok n, st)
    | None => (Throw (TypeError "not a node"), st)
    end.

(** The element at [i]: namespace, name, attributes, child nodes. *)
Definition elem (i : nat)
  : M (string * string * list (string * string) * list nat) :=
  n <- node i ;;
  match n with
  | Elem ns tag attrs kids => ret (ns, tag, attrs, kids)
  | Text _ => throw (TypeError "not an element")
  end.

Definition put (i : nat) (n : dnode) : M unit :=
  h <- gets dom ;; set_dom (update h i n).

Definition createTextNode (s : string) : M nat := alloc (Text s).

Definition createElementNS (ns tag : string) : M nat := alloc (Elem ns tag [] []).

Definition removeAttribute (i : nat) (k : string) : M unit :=
  e <- elem i ;;
  let '(ns, tag, attrs, kids) := e in
  put i (Elem ns tag (del_attr attrs (attr_name ns k)) kids).

Definition setAttribute (i : nat) (k v : string) : M unit :=
  e <- elem i ;;
  let '(ns, tag, attrs, kids) := e in
  put i (Elem ns tag (set_attr attrs (attr_name ns k) v) kids).

(** [element.setAttributeNS(null, key, value)]: the name is kept as it is. *)
Definition setAttributeNS (i : nat) (k v : string) : M unit :=
  e <- elem i ;;
  let '(ns, tag, attrs, kids) := e in
  put i (Elem ns tag (set_attr attrs k v) kids).

Definition set_kids (i : nat) (kids : list nat) : M unit :=
  e <- elem i ;;
  let '(ns, tag, attrs, _) := e in
  put i (Elem ns tag attrs kids).

Definition childNodes (i : nat) : M (list nat) :=
  e <- elem i ;;
  let '(_, _, _, kids) := e in ret kids.

Definition is_element (h : heap) (i : nat) : bool :=
  match nth_error h i with
  | Some (Elem _ _ _ _) => true
  | _ => false
  end.

(** [element.children]: the child nodes that are elements. *)
Definition children (i : nat) : M (list nat) :=
  kids <- childNodes i ;;
  h <- gets dom ;;
  ret (List.filter (is_element h) kids).

Definition without (c : nat) (kids : list nat) : list nat :=
  List.filter (fun k => negb (Nat.eqb k c)) kids.

(** A node that is inserted leaves the parent it had. *)
Definition detach (c : nat) : M unit :=
  h <- gets dom ;;
  set_dom (List.map (fun n =>
             match n with
             | Elem ns tag attrs kids => Elem ns tag attrs (without c kids)
             | Text s => Text s
             end) h).

Definition appendChild (i c : nat) : M unit :=
  detach c ;;
  kids <- childNodes i ;;
  set_kids i (kids ++ [c]).

Definition prepend (i c : nat) : M unit :=
  detach c ;;
  kids <- childNodes i ;;
  set_kids i (c :: kids).

Definition removeChild (i c : nat) : M unit :=
  kids <- childNodes i ;;
  if List.existsb (Nat.eqb c) kids then set_kids i (without c kids)
  else throw (DOMException "NotFoundError").

Fixpoint insert_before (c ref : nat) (kids : list nat) : list nat :=
  match kids with
  | [] => []
  | k :: r => if Nat.eqb k ref then c :: k :: r else k :: insert_before c ref r
  end.

Definition insertBefore (i c ref : nat) : M unit :=
  detach c ;;
  kids <- childNodes i ;;
  if List.existsb (Nat.eqb ref) kids then set_kids i (insert_before c ref kids)
  else throw (DOMException "NotFoundError").

(** The nodes of a parsed fragment, put in the document; the positions of
    its roots. *)
Fixpoint plant (t : tree) : M nat :=
  match t with
  | TText s => alloc (Text s)
  | TElem ns tag attrs kids =>
      ks <- (fix all (l : list tree) : M (list nat) :=
               match l with
               | [] => ret []
               | x :: r => k <- plant x ;; ks <- all r ;; ret (k :: ks)
               end) kids ;;
      alloc (Elem ns tag attrs ks)
  end.

Fixpoint plant_all (l : list tree) : M (list nat) :=
  match l with
  | [] => ret []
  | x :: r => k <- plant x ;; ks <- plant_all r ;; ret (k :: ks)
  end.

(** [element.tagName]: upper case for an element of the XHTML namespace. *)
Definition tagName (ns tag : string) : string :=
  if ns =? xhtml then Str.toUpperCase tag else tag.

End Dom.

(** ** The store, the registry and the renderers *)

Section Program.

Variable E : engine.

(** *** The proxy behind [data] *)

(** The loop of the [get] trap: [current] is never [undefined] here; on
    [null] the property access is the engine's [TypeError]. *)
Fixpoint walk (current : val) (keys : list string) : result val :=
  match keys with
  | [] => Ok current
  | k :: r =>
      match current with
      | VNull | VUndef => Throw (TypeError "Cannot read properties of null")
      | _ =>
          if is_undefined (get_prop current k) then Ok VNull
          else walk (get_prop current k) r
      end
  end.

(** [get(target, listenerId)] *)
Definition proxy_get (target : obj) (listenerId : string) : result val :=
  walk (VObj target) (Str.split "." listenerId).

(** [this.data[listenerId]]: the key is the text of [listenerId]. *)
Definition data_get (listenerId : val) : M val :=
  fun st => (proxy_get (store st) (to_string listenerId), st).

Definition set_store (o : obj) : M unit :=
  modify (fun st =>
    {| store := o; bindings := bindings st; arrays := arrays st;
       dom := dom st; log := log st |}).

Definition record (ev : event) : M unit :=
  modify (fun st =>
    {| store := store st; bindings := bindings st; arrays := arrays st;
       dom := dom st; log := log st ++ [ev] |}).

(** *** The registry *)

Definition array_of (st : state) (r : nat) : list binding :=
  nth r (arrays st) [].

(** [this.bindings[key]], when it is there. *)
Definition bindings_get (key : string) : M (option nat) :=
  gets (fun st => assoc key (bindings st)).

(** A new array object holding [l]. *)
Definition new_array (l : list binding) : M nat :=
  fun st =>
    (Ok (List.length (arrays st)),
     {| store := store st; bindings := bindings st;
        arrays := arrays st ++ [l]; dom := dom st; log := log st |}).

(** [this.bindings[key] = r] *)
Definition bindings_set (key : string) (r : nat) : M unit :=
  modify (fun st =>
    {| store := store st; bindings := obj_set (bindings st) key r;
       arrays := arrays st; dom := dom st; log := log st |}).

Fixpoint push_at (r : nat) (b : binding) (a : list (list binding))
  : list (list binding) :=
  match a, r with
  | [], _ => []
  | l :: rest, O => (l ++ [b]) :: rest
  | l :: rest, S r' => l :: push_at r' b rest
  end.

(** [array.push(b)] on the array object at [r]. *)
Definition push (r : nat) (b : binding) : M unit :=
  modify (fun st =>
    {| store := store st; bindings := bindings st;
       arrays := push_at r b (arrays st); dom := dom st; log := log st |}).

(** [array.forEach(f)] on the array object at [r]: the length is read once,
    each element when its turn comes. *)
Fixpoint forEach_from (r k n : nat) (f : binding -> M unit) : M unit :=
  match n with
  | O => ret tt
  | S n' =>
      b <- gets (fun st => nth_error (array_of st r) k) ;;
      match b with
      | Some b => f b
      | None => ret tt
      end ;;
      forEach_from r (S k) n' f
  end.

Definition array_forEach (r : nat) (f : binding -> M unit) : M unit :=
  n <- gets (fun st => List.length (array_of st r)) ;;
  forEach_from r 0 n f.

(** [(bind) => bind.element !== child] *)
Definition not_on (child : nat) (b : binding) : bool :=
  negb (Nat.eqb (element b) child).

(** [clearChildren(element)] of both files. *)
Definition clearChildren (element : nat) : M unit :=
  children <- Dom.childNodes element ;;
  forEach children (fun child =>
    keys <- gets (fun st => List.map fst (bindings st)) ;;
    forEach keys (fun key =>
      r <- bindings_get key ;;
      match r with
      | Some r =>
          l <- gets (fun st => array_of st r) ;;
          r' <- new_array (List.filter (not_on child) l) ;;
          bindings_set key r'
      | None => ret tt
      end) ;;
    Dom.removeChild element child).

(** *** Pieces shared by the two renderers *)

Definition render_fn : Type := val -> val -> val -> M rendered.

(** Calling a value as [f(arg, e, c)]. *)
Definition apply_value (f arg : val) : M val :=
  match f with
  | VFun g => record (Evaluated f arg) ;; lift (call E g arg)
  | _ => throw (TypeError "not a function")
  end.

(** [element.removeAttribute(key)], then the attribute is set through
    [setAttributeNS] for a key with a capital, through [setAttribute]
    otherwise. *)
Definition setAttribute (element : nat) (key : string) (value : val) : M unit :=
  Dom.removeAttribute element key ;;
  if Str.hasUpperCase key
  then Dom.setAttributeNS element key (to_string value)
  else Dom.setAttribute element key (to_string value).

(** The text built for [style]. *)
Definition style_text (value : val) : string :=
  match value with
  | VStr s => s
  | _ =>
      if typeof_object value
      then List.fold_left
             (fun style key =>
                let property :=
                  if Str.includes "-" key then key else Str.camelToHyphen key in
                (style ++ property ++ ":" ++ to_string (get_prop value key) ++ ";")%string)
             (own_keys value) ""
      else ""
  end.

Definition setStyle (element : nat) (value : val) : M unit :=
  Dom.setAttribute element "style" (style_text value).

(** [element.innerHTML = markup] *)
Definition assign_innerHTML (element : nat) (markup : string) : M unit :=
  Dom.set_kids element [] ;;
  ks <- Dom.plant_all (parse_html E markup) ;;
  Dom.set_kids element ks.

(** [element.textContent = ""], then a text node is appended. *)
Definition setTextContent (element : nat) (value : val) : M unit :=
  Dom.set_kids element [] ;;
  t <- Dom.createTextNode (to_string value) ;;
  Dom.appendChild element t.

(** [element.prepend(x)] takes nodes and strings. *)
Definition prepend_rendered (element : nat) (x : rendered) : M unit :=
  match x with
  | RNode n => Dom.prepend element n
  | RHtml s => t <- Dom.createTextNode s ;; Dom.prepend element t
  | RUndefined => t <- Dom.createTextNode "undefined" ;; Dom.prepend element t
  | RNull => t <- Dom.createTextNode "null" ;; Dom.prepend element t
  end.

(** [element.appendChild(x)] takes a node. *)
Definition append_rendered (element : nat) (x : rendered) : M unit :=
  match x with
  | RNode n => Dom.appendChild element n
  | _ => throw (TypeError "parameter 1 is not of type 'Node'")
  end.

Definition is_RNull (x : rendered) : bool :=
  match x with RNull => true | _ => false end.

Definition namespace_of (name : string) : string :=
  if name =? "svg" then "http://www.w3.org/2000/svg"
  else if name =? "math" then "http://www.w3.org/1998/Math/MathML"
  else if name =? "xlink" then "http://www.w3.org/1999/xlink"
  else if name =? "xml" then "http://www.w3.org/XML/1998/namespace"
  else if name =? "xmlns" then "http://www.w3.org/2000/xmlns/"
  else Dom.xhtml.

(** [isStringifiedFunction(str)] *)
Definition isStringifiedFunction (str : val) : bool :=
  match str with
  | VStr s => Str.functionPattern s
  | _ => false
  end.

(** [parseStringifiedFunction(str)] *)
Definition parseStringifiedFunction (str : val) : result val :=
  if isStringifiedFunction str
  then new_Function E ("return (" ++ to_string str ++ ")")%string
  else Throw (Error "Invalid stringified function").

(** The key a function is registered under: the text of its first
    parameter, cut out of its source. *)
Definition listenerId_of (value : fn) : val :=
  let functStr := fn_src value in
  let paramsStr :=
    Str.slice functStr (Str.indexOf "(" functStr + 1) (Str.indexOf ")" functStr) in
  let paramsArray := List.map Str.trim (Str.split "," paramsStr) in
  match paramsArray with
  | p :: _ => VStr p
  | [] => VNull
  end.

(** The part of the attribute pass for a function value, the same text in
    both files ([processFunctionValue] in the refactored one). *)
Definition processFunctionValue
    (setElementAttribute : nat -> string -> val -> val -> val -> M unit)
    (element : nat) (key : string) (value : fn) (depth : val) : M unit :=
  let listenerId := listenerId_of value in
  (if negb (isServer E)
   then
     r <- bindings_get (to_string listenerId) ;;
     r <- match r with
          | Some r => ret r
          | None =>
              r <- new_array [] ;;
              bindings_set (to_string listenerId) r ;;
              ret r
          end ;;
     push r {| element := element; func := VFun value; property := key |}
   else
     Dom.setAttribute element "data-listener-id" (to_string listenerId) ;;
     Dom.setAttribute element
       ("data-bind-to-" ++ (if Str.isCamelCase key then Str.camelToHyphen key else key))%string
       (fn_src value)) ;;
  arg <- data_get listenerId ;;
  result <- apply_value (VFun value) arg ;;
  if is_null result then ret tt
  else setElementAttribute element key result listenerId depth.

(** The completion of a root on the server, the same text in both files
    ([handleServerSideRendering] in the refactored one). *)
Definition handleServerSideRendering (T : script) (element : nat) : M rendered :=
  e <- Dom.elem element ;;
  let '(ns, tag, _, _) := e in
  (if Dom.tagName ns tag =? "HTML"
   then
     script <- Dom.createElementNS Dom.xhtml "script" ;;
     t <- Dom.createTextNode (script_init T) ;;
     Dom.set_kids script [t] ;;
     data <- gets store ;;
     (match data with
      | [] => ret tt
      | _ =>
          t' <- Dom.createTextNode
                  (script_init T ++ script_hydrate T (JSON_stringify E data))%string ;;
          Dom.set_kids script [t']
      end) ;;
     Dom.setAttribute script "type" "module" ;;
     Dom.setAttribute script "defer" "true" ;;
     h <- gets dom ;;
     match querySelector E h (Some element) "body" with
     | None => throw (TypeError "Cannot read properties of null")
     | Some body =>
         h <- gets dom ;;
         match querySelectorAll E h (Some body) "script" with
         | first :: _ => Dom.insertBefore body script first
         | [] => Dom.appendChild body script
         end
     end
   else ret tt) ;;
  h <- gets dom ;;
  ret (RHtml ("<!DOCTYPE html>" ++ outerHTML E h element)%string).

Definition nonAttributes : list string :=
  ["children"; "prepend"; "append"; "child"; "tagName"; "textContent";
   "innerHTML"; "if"; "style"].

Definition is_nonAttribute (key : string) : bool :=
  List.existsb (String.eqb key) nonAttributes.

End Program.

(** *** The refactored renderer ([src/unnamed/part_001]) *)

Module Refactored.
Section Renderer.
Variable E : engine.
Variable T : script.

(** [prependChild(element, value, depth)] *)
Definition prependChild (render : render_fn)
    (element : nat) (value depth : val) : M unit :=
  if negb (typeof_object value)
  then t <- Dom.createTextNode (to_string value) ;; Dom.prepend element t
  else
    childElement <- render value VNull (plus_one depth) ;;
    if is_RNull childElement then ret tt
    else prepend_rendered element childElement.

(** [appendChild(element, value, depth)] *)
Definition appendChild (render : render_fn)
    (element : nat) (value depth : val) : M unit :=
  if negb (typeof_object value)
  then t <- Dom.createTextNode (to_string value) ;; Dom.appendChild element t
  else
    childElement <- render value VNull (plus_one depth) ;;
    if is_RNull childElement then ret tt
    else append_rendered element childElement.

(** [setChildren(element, key, value, depth)] *)
Definition setChildren (render : render_fn)
    (element : nat) (key : string) (value depth : val) : M unit :=
  let children := if key =? "children" then value else VArr [value] in
  existing <- Dom.children element ;;
  cleared <-
    (if negb (Nat.eqb (List.length existing) 0) || is_null value
     then clearChildren element ;; ret (is_null value)
     else ret false) ;;
  if (cleared : bool) then ret tt
  else
    match children with
    | VArr l =>
        forEach l (fun child =>
          childElement <- render child VNull (plus_one depth) ;;
          if is_RNull childElement then ret tt
          else append_rendered element childElement)
    | VUndef | VNull => throw (TypeError "Cannot read properties of undefined")
    | _ => throw (TypeError "children.forEach is not a function")
    end.

(** [setInnerHTML(element, value)]: the setter takes [null] for the empty
    string. *)
Definition setInnerHTML (element : nat) (value : val) : M unit :=
  assign_innerHTML E element "" ;;
  assign_innerHTML E element (if is_null value then "" else to_string value).

(** [setElementAttribute(element, key, value, listenerId, depth)].  The
    helper methods are called with more arguments than they take: their
    [depth] is the fourth argument of each call. *)
Definition setElementAttribute (render : render_fn)
    (element : nat) (key : string) (value listenerId depth : val) : M unit :=
  listener <- data_get listenerId ;;
  if negb (is_nonAttribute key) then setAttribute element key value
  else if key =? "style" then setStyle element value
  else if key =? "innerHTML" then setInnerHTML element value
  else if key =? "prepend" then prependChild render element value listenerId
  else if (key =? "children") || (key =? "child")
  then setChildren render element key value listener
  else if key =? "textContent" then setTextContent element value
  else if key =? "append" then appendChild render element value listenerId
  else ret tt.

(** [render(template, callbackOrQuery, depth = 0)]; [self] is [render] for
    the calls it makes to itself. *)
Definition render_body (self : render_fn)
    (template callbackOrQuery depth0 : val) : M rendered :=
  let depth := if is_undefined depth0 then VNum 0 else depth0 in
  if negb (truthy template) then ret RNull
  else if is_false (get_prop template "if") then ret RNull
  else
    match template with
    | VStr s => t <- Dom.createTextNode s ;; ret (RNode t)
    | _ =>
        let tagName :=
          if truthy (get_prop template "tagName")
          then get_prop template "tagName" else VStr "div" in
        element <- Dom.createElementNS (namespace_of (to_string tagName))
                     (to_string tagName) ;;
        forEach (own_keys template) (fun key =>
          let value := get_prop template key in
          value <- (if isStringifiedFunction value
                    then lift (parseStringifiedFunction E value)
                    else ret value) ;;
          match value with
          | VFun f =>
              processFunctionValue E (setElementAttribute self) element key f depth
          | VNull => ret tt
          | _ => setElementAttribute self element key value VNull depth
          end) ;;
        if isServer E && is_zero depth then handleServerSideRendering E T element
        else if truthy callbackOrQuery
        then
          match callbackOrQuery with
          | VFun f => run_callback E f element ;; ret RUndefined
          | _ =>
              h <- gets dom ;;
              match querySelector E h None (to_string callbackOrQuery) with
              | Some parent => Dom.appendChild parent element ;; ret RUndefined
              | None => throw (TypeError "Cannot read properties of null")
              end
          end
        else ret (RNode element)
    end.

Fixpoint render (fuel : nat) : render_fn :=
  render_body
    (match fuel with
     | O => fun _ _ _ => throw RangeError
     | S n => render n
     end).

End Renderer.
End Refactored.

(** *** The monolithic renderer ([src/html.js]) *)

Module Monolithic.
Section Renderer.
Variable E : engine.
Variable T : script.

(** The items the loop [for (i = 0; i < children.length; i++)] visits (a
    [length] that is not a number counts as none). *)
Definition indexed (children : val) : list val :=
  match children with
  | VArr l => l
  | VStr s => List.map VStr (chars s)
  | VObj o =>
      match obj_get o "length" with
      | VNum n =>
          List.map (fun i => obj_get o (nat_to_string i)) (List.seq 0 (Z.to_nat n))
      | _ => []
      end
  | _ => []
  end.

(** [setElementAttribute(element, key, value, listenerId, depth)].  The
    file declares no [data]: reading it is a [ReferenceError]. *)
Definition setElementAttribute (render : render_fn)
    (element : nat) (key : string) (value listenerId depth : val) : M unit :=
  listener <- data_get listenerId ;;
  if negb (is_nonAttribute key) then setAttribute element key value
  else if key =? "style" then setStyle element value
  else if key =? "innerHTML"
  then assign_innerHTML E element "" ;;
       assign_innerHTML E element (to_string value)
  else if key =? "prepend"
  then
    if negb (typeof_object value)
    then t <- Dom.createTextNode (to_string value) ;; Dom.prepend element t
    else throw (ReferenceError "data")
  else if (key =? "children") || (key =? "child")
  then
    let children := if key =? "children" then value else VArr [value] in
    existing <- Dom.children element ;;
    cleared <-
      (if negb (Nat.eqb (List.length existing) 0) || is_null value
       then clearChildren element ;; ret (is_null value)
       else ret false) ;;
    if (cleared : bool) then ret tt
    else
      match children with
      | VUndef | VNull => throw (TypeError "Cannot read properties of undefined")
      | _ =>
          forEach (indexed children) (fun child =>
            childElement <- render child listener VNull ;;
            if is_RNull childElement then ret tt
            else append_rendered element childElement)
      end
  else if key =? "textContent" then setTextContent element value
  else if key =? "append"
  then
    if negb (typeof_object value)
    then t <- Dom.createTextNode (to_string value) ;; Dom.appendChild element t
    else throw (ReferenceError "data")
  else ret tt.

(** [render(template, callback, depth = 0)] *)
Definition render_body (self : render_fn)
    (template callback depth0 : val) : M rendered :=
  let depth := if is_undefined depth0 then VNum 0 else depth0 in
  if is_null template || is_undefined template then ret RNull
  else if List.existsb (String.eqb "if") (own_keys template)
          && negb (truthy (get_prop template "if"))
  then ret RNull
  else
    match template with
    | VStr s => t <- Dom.createTextNode s ;; ret (RNode t)
    | _ =>
        let tagName :=
          if negb (is_undefined (get_prop template "tagName"))
          then get_prop template "tagName" else VStr "div" in
        element <- Dom.createElementNS (namespace_of (to_string tagName))
                     (to_string tagName) ;;
        forEach (own_keys template) (fun key =>
          let value := get_prop template key in
          value <- (if isStringifiedFunction value
                    then lift (parseStringifiedFunction E value)
                    else ret value) ;;
          match value with
          | VFun f =>
              processFunctionValue E (setElementAttribute self) element key f depth
          | VNull => ret tt
          | _ => setElementAttribute self element key value VNull depth
          end) ;;
        (if truthy callback then throw (ReferenceError "data") else ret tt) ;;
        if isServer E && is_zero depth then handleServerSideRendering E T element
        else if is_zero depth then throw (ReferenceError "data")
        else ret (RNode element)
    end.

Fixpoint render (fuel : nat) : render_fn :=
  render_body
    (match fuel with
     | O => fun _ _ _ => throw RangeError
     | S n => render n
     end).

End Renderer.
End Monolithic.

(** *** Writing to the store *)

Section Writes.
Variable E : engine.
Variable T : script.

(** [emitBinding(listenerId, binding)] of both files, over the
    [setElementAttribute] of the file at hand. *)
Definition emitBinding
    (setElementAttribute : nat -> string -> val -> val -> val -> M unit)
    (listenerId : string) (b : binding) : M unit :=
  record (Emitted listenerId b) ;;
  value <-
    match func b with
    | VStr s =>
        data <- gets store ;;
        newFunc <- lift (new_Function_data E ("return " ++ s)%string data) ;;
        arg <- data_get (VStr listenerId) ;;
        apply_value E newFunc arg
    | f =>
        arg <- data_get (VStr listenerId) ;;
        apply_value E f arg
    end ;;
  setElementAttribute (element b) (property b) value (VStr listenerId) (VNum 0).

(** The [set] trap of both files. *)
Definition proxy_set
    (setElementAttribute : nat -> string -> val -> val -> val -> M unit)
    (listenerId : string) (value : val) : M unit :=
  old <- data_get (VStr listenerId) ;;
  let listener := deepMerge (VObj (spread old)) value in
  target <- gets store ;;
  set_store (obj_set target listenerId listener) ;;
  r <- bindings_get listenerId ;;
  match r with
  | Some r => array_forEach r (emitBinding setElementAttribute listenerId)
  | None => ret tt
  end.

(** [App.data[hook] = value] in each file. *)
Definition write_refactored (fuel : nat) : string -> val -> M unit :=
  proxy_set (Refactored.setElementAttribute E (Refactored.render E T fuel)).

Definition write_monolithic (fuel : nat) : string -> val -> M unit :=
  proxy_set (Monolithic.setElementAttribute E (Monolithic.render E T fuel)).

(** [App.data[tether]] *)
Definition read (tether : string) : M val := data_get (VStr tether).

(** *** The injected script, when it runs in the page *)

(** The body of [Array.from(element.attributes).forEach]: the [try] block
    swallows whatever the reconstruction throws. *)
Definition hydrate_attribute (element : nat) (listenerId : string)
    (attr : string * string) : M unit :=
  let name := fst attr in
  if Str.startsWith "data-bind-to-" name
  then
    let property := Str.slice name 13 (Z.of_nat (String.length name)) in
    let property :=
      if negb (Str.startsWith "data-" property)
      then Str.hyphenToCamelCase property else property in
    match new_Function E ("return " ++ snd attr)%string with
    | Ok (VFun f) =>
        r <- bindings_get listenerId ;;
        match r with
        | Some r =>
            push r {| element := element; property := property; func := VFun f |}
        | None => ret tt
        end
    | Ok _ => ret tt
    | Throw _ => ret tt
    end
  else ret tt.

(** The body of [elements.forEach]. *)
Definition hydrate_element (element : nat) : M unit :=
  e <- Dom.elem element ;;
  let '(_, _, attrs, _) := e in
  let listenerId :=
    match assoc "data-listener-id" attrs with
    | Some s => s
    | None => "null"
    end in
  r <- bindings_get listenerId ;;
  match r with
  | Some _ => ret tt
  | None => r <- new_array [] ;; bindings_set listenerId r
  end ;;
  forEach attrs (hydrate_attribute element listenerId).

(** The scan for the elements that carry [data-listener-id]. *)
Definition hydrate_scan : M unit :=
  h <- gets dom ;;
  forEach (querySelectorAll E h None "[data-listener-id]") hydrate_element.

(** The part of the script that is there when the snapshot is not empty:
    every hook of [parsedData] is written to [App.data], then the page is
    scanned. *)
Definition hydrate (write : string -> val -> M unit) (parsedData : obj) : M unit :=
  forEach (List.map fst parsedData)
    (fun key => write key (obj_get parsedData key)) ;;
  hydrate_scan.

End Writes.

(** ** Notions the statements use *)

(** The re-evaluations a log holds, in order: the key written and the entry
    of the registry that was run. *)
Fixpoint emits (l : list event) : list (string * binding) :=
  match l with
  | [] => []
  | Emitted k b :: r => (k, b) :: emits r
  | Evaluated _ _ :: r => emits r
  end.

(** Array objects only ever grow at the end, and none goes away. *)
Definition grows (a a' : list (list binding)) : Prop :=
  forall r l, nth_error a r = Some l ->
    exists l', nth_error a' r = Some (l ++ l').

(** What rendering leaves alone: the store, the elements already in an
    array of the registry, the re-evaluations logged so far. *)
Record frame (st st' : state) : Prop := {
  frame_store : store st' = store st;
  frame_arrays : grows (arrays st) (arrays st');
  frame_emits : emits (log st') = emits (log st)
}.

Definition preserves {A} (m : M A) : Prop :=
  forall st, frame st (snd (m st)).

(** The entries registered under [key]. *)
Definition registered (st : state) (key : string) : list binding :=
  match assoc key (bindings st) with
  | Some r => array_of st r
  | None => []
  end.

(** A hook: a key of the store itself, not a path into it. *)
Definition is_hook (h : string) : bool := negb (Str.includes "." h).

(** The write as the specification words it: the slice of the hook is merged
    and stored, then every entry registered under the hook when the write
    began is re-evaluated, in the order of registration. *)
Definition write_spec (E : engine)
    (setElementAttribute : nat -> string -> val -> val -> val -> M unit)
    (hook : string) (value : val) : M unit :=
  (old <- data_get (VStr hook) ;;
   target <- gets store ;;
   set_store (obj_set target hook (deepMerge (VObj (spread old)) value)) ;;
   entries <- gets (fun st => registered st hook) ;;
   forEach entries (emitBinding E setElementAttribute hook))%js.

Definition is_VObj (v : val) : Prop :=
  match v with VObj _ => True | _ => False end.

(** The value a write stores at [hook]: the copy of the slice read before,
    with [value] merged into it. *)
Definition slice (st : state) (hook : string) : val :=
  let old := obj_get (store st) hook in
  if is_undefined old then VNull else old.

Definition merged (st : state) (hook : string) (value : val) : val :=
  deepMerge (VObj (spread (slice st hook))) value.

Definition with_store (st : state) (o : obj) : state :=
  {| store := o; bindings := bindings st; arrays := arrays st;
     dom := dom st; log := log st |}.

(** A write that touches nothing but the store: the document, the log (no
    evaluator was called), the registry are as before; for a hook the write
    returns, the slice is the merged one and the next read yields it. *)
Definition silent_write (st : state) (h : string) (v : val)
    (out : result unit * state) : Prop :=
  dom (snd out) = dom st /\
  log (snd out) = log st /\
  bindings (snd out) = bindings st /\
  arrays (snd out) = arrays st /\
  (is_hook h = true ->
   out = (Ok tt, with_store st (obj_set (store st) h (merged st h v))) /\
   read h (snd out) = (Ok (merged st h v), snd out)).

(** The values whose [for (key in value)] visits nothing: [undefined],
    [null], the booleans and the numbers. *)
Definition keyless (v : val) : bool :=
  match v with
  | VUndef | VNull | VBool _ | VNum _ | VNaN => true
  | _ => false
  end.

(** ** Where the two renderers agree *)

Section Agreement.
Variable E : engine.

(** The store the rendering runs on. *)
Variable s : obj.

(** What is asked of the descriptors rendered one level down. *)
Variable child_agrees : val -> bool.

(** A value handed to [setElementAttribute] under [key], [listener] being
    what [this.data[listenerId]] reads: markup is not [null]; what is
    prepended or appended is no object; children are an array, a child any
    descriptor, rendered while the listener is falsy. *)
Definition value_agrees (key : string) (v listener : val) : bool :=
  if key =? "innerHTML" then negb (is_null v)
  else if (key =? "prepend") || (key =? "append") then negb (typeof_object v)
  else if key =? "children"
  then negb (truthy listener)
       && match v with
          | VArr l => List.forallb child_agrees l
          | _ => false
          end
  else if key =? "child"
  then negb (truthy listener) && child_agrees v
  else true.

(** An attribute of a descriptor: a function is judged by the value it
    yields on the slice it is registered for, anything else as it is. *)
Definition attribute_agrees (key : string) (value : val) : bool :=
  match (if isStringifiedFunction value
         then parseStringifiedFunction E value else Ok value) with
  | Throw _ => true
  | Ok (VFun f) =>
      match proxy_get s (to_string (listenerId_of f)) with
      | Throw _ => true
      | Ok arg =>
          match call E f arg with
          | Throw _ => true
          | Ok r => is_null r || value_agrees key r arg
          end
      end
  | Ok VNull => true
  | Ok v =>
      match proxy_get s "null" with
      | Throw _ => true
      | Ok listener => value_agrees key v listener
      end
  end.

(** [Object.keys(t).includes(key)] *)
Definition has_own (t : val) (key : string) : bool :=
  List.existsb (String.eqb key) (own_keys t).

(** A descriptor: [null], [undefined], a text that is not empty, or any
    other truthy value whose [if], when there, is [false] or truthy, whose
    [tagName], when there, is truthy, and whose attributes agree. *)
Definition descriptor_agrees (t : val) : bool :=
  match t with
  | VNull | VUndef => true
  | VStr str => negb (str =? "")
  | _ =>
      truthy t
      && (is_false (get_prop t "if") || negb (has_own t "if")
          || truthy (get_prop t "if"))
      && (is_undefined (get_prop t "tagName") || truthy (get_prop t "tagName"))
      && List.forallb (fun key => attribute_agrees key (get_prop t key))
           (own_keys t)
  end.

End Agreement.

(** The descriptors on which the renderers agree, as deep as [fuel] lets
    [render] go. *)
Fixpoint agrees (E : engine) (s : obj) (fuel : nat) (t : val) : bool :=
  descriptor_agrees E s
    (match fuel with
     | O => fun _ => true
     | S n => agrees E s n
     end) t.

(** [depth = 0] for a depth that is not given. *)
Definition depth_of (d : val) : val := if is_undefined d then VNum 0 else d.

(** The two calls are both nested, or both at the root on the server. *)
Definition same_mode (E : engine) (dM dR : val) : bool :=
  Bool.eqb (is_zero (depth_of dM)) (is_zero (depth_of dR))
  && (negb (is_zero (depth_of dM)) || isServer E).

(** ** A page to run the program on *)

Module Demo.

Definition has_attr (name : string) (attrs : list (string * string)) : bool :=
  match assoc name attrs with Some _ => true | None => false end.

(** [(person) => person.name] *)
Definition person_name : fn :=
  {| fn_src := "(person) => person.name"; fn_id := 0 |}.

(** [(items) => items.title] *)
Definition items_title : fn :=
  {| fn_src := "(items) => items.title"; fn_id := 1 |}.

(** [(items) => [new Li((items) => items.title)]], where [new Li(f)] is the
    descriptor [{ tagName: "li", textContent: f }]. *)
Definition items_list : fn :=
  {| fn_src := "(items) => [new Li((items) => items.title)]"; fn_id := 2 |}.

Definition member (name : string) (arg : val) : result val :=
  match arg with
  | VNull | VUndef => Throw (TypeError "Cannot read properties of null")
  | _ => Ok (get_prop arg name)
  end.

Definition apply (f : fn) (arg : val) : result val :=
  match fn_id f with
  | 0 => member "name" arg
  | 1 => member "title" arg
  | 2 => Ok (VArr [VObj [("tagName", VStr "li");
                         ("textContent", VFun items_title)]])
  | _ => Ok VUndef
  end.

(** The engine knows two program texts; it rejects every other one. *)
Definition compile (body : string) : result val :=
  if body =? "return (person) => person.name" then Ok (VFun person_name)
  else if body =? "return ((person) => person.name)" then Ok (VFun person_name)
  else if body =? "return (items) => items.title" then Ok (VFun items_title)
  else Throw (SyntaxError body).

(** The positions of the elements that carry the attribute [name]. *)
Fixpoint carrying (name : string) (i : nat) (h : heap) : list nat :=
  match h with
  | [] => []
  | Elem _ _ attrs _ :: r =>
      if has_attr name attrs then i :: carrying name (S i) r
      else carrying name (S i) r
  | Text _ :: r => carrying name (S i) r
  end.

Definition make (server : bool) : engine := {|
  isServer := server;
  call := apply;
  new_Function := compile;
  new_Function_data := fun body _ => compile body;
  run_callback := fun _ _ => ret tt;
  parse_html := fun markup => [TText markup];
  outerHTML := fun _ _ => "";
  querySelector := fun _ _ _ => None;
  querySelectorAll := fun h _ selector =>
    if selector =? "[data-listener-id]" then carrying "data-listener-id" 0 h
    else [];
  JSON_stringify := fun _ => ""
|}.

Definition browser : engine := make false.
Definition server : engine := make true.

Definition text : script :=
  {| script_init := "App.init();"; script_hydrate := fun json => json |}.

(** [{ tagName: "ul", children: (items) => [...] }] *)
Definition list_descriptor : val :=
  VObj [("tagName", VStr "ul"); ("children", VFun items_list)].

(** The page after [App.data.items = { title: "a" }] and the rendering of
    [list_descriptor]: the list and its item are both registered under
    ["items"]. *)
Definition list_page : state :=
  let st := snd (write_refactored browser text 0 "items"
                   (VObj [("title", VStr "a")]) empty_state) in
  snd (Refactored.render browser text 3 list_descriptor VUndef VUndef st).

(** [{ tagName: "div", children: [{ tagName: "section", children:
       [{ tagName: "span", textContent: (person) => person.name }] }] }] *)
Definition card_descriptor : val :=
  VObj [("tagName", VStr "div");
        ("children",
         VArr [VObj [("tagName", VStr "section");
                     ("children",
                      VArr [VObj [("tagName", VStr "span");
                                  ("textContent", VFun person_name)]])]])].

(** The page after [App.data.person = { name: "Jo" }] and the rendering of
    [card_descriptor]: node 0 is the [div], node 1 the [section], node 2 the
    [span], registered under ["person"]. *)
Definition card_page : state :=
  let st := snd (write_refactored browser text 0 "person"
                   (VObj [("name", VStr "Jo")]) empty_state) in
  snd (Refactored.render browser text 3 card_descriptor VUndef VUndef st).

(** The entry of the [span]. *)
Definition span_binding : binding :=
  {| element := 2; func := VFun person_name; property := "textContent" |}.

(** The card page after [setElementAttribute(div, "children", null)]. *)
Definition cleared_card_page : state :=
  snd (Refactored.setElementAttribute browser
         (Refactored.render browser text 3) 0 "children" VNull VNull (VNum 0)
         card_page).

(** A page as the server sends it: two [span]s bound to ["person"], the
    first with an attribute whose text the engine rejects. *)
Definition served_page : state :=
  {| store := []; bindings := []; arrays := [];
     dom := [Elem Dom.xhtml "span"
               [("data-listener-id", "person");
                ("data-bind-to-class", "(person) => )");
                ("data-bind-to-text-content", "(person) => person.name")] [];
             Elem Dom.xhtml "span"
               [("data-listener-id", "person");
                ("data-bind-to-title", "(person) => person.name")] []];
     log := [] |}.

End Demo.

(** ** Further notions *)

(** The state a write leaves, in either file. *)
Definition written (E : engine) (T : script) (fuel : nat) (h : string)
    (v : val) (st st' : state) : Prop :=
  st' = snd (write_refactored E T fuel h v st) \/
  st' = snd (write_monolithic E T fuel h v st).

(** [!(v && typeof v === "object")]: what [deepMerge] assigns as it is. *)
Definition assigned_as_is (v : val) : bool :=
  negb (truthy v && typeof_object v).

(** A value that holds no array, at any depth. *)
Fixpoint no_array (v : val) : bool :=
  match v with
  | VArr _ => false
  | VObj o =>
      (fix all (o : obj) : bool :=
         match o with
         | [] => true
         | (_, x) :: r => no_array x && all r
         end) o
  | _ => true
  end.

Definition plain_object (v : val) : bool :=
  match v with
  | VObj _ => no_array v
  | _ => false
  end.

(** Every slice of the store is a plain object that holds no array. *)
Definition store_of_plain_objects (st : state) : bool :=
  List.forallb (fun kv => plain_object (snd kv)) (store st).

(** The state with the document replaced. *)
Definition with_dom (st : state) (h : heap) : state :=
  {| store := store st; bindings := bindings st; arrays := arrays st;
     dom := h; log := log st |}.

(** Every key of the registry refers to an array object that exists. *)
Definition registry_wf (st : state) : bool :=
  List.forallb (fun kr => Nat.ltb (snd kr) (List.length (arrays st)))
    (bindings st).

(** An entry whose element is one of [nodes]. *)
Definition on_any (nodes : list nat) (b : binding) : bool :=
  List.existsb (Nat.eqb (element b)) nodes.

(** Namespace, name and attributes of the element at [i]. *)
Definition shell (h : heap) (i : nat)
  : option (string * string * list (string * string)) :=
  match nth_error h i with
  | Some (Elem ns tag attrs _) => Some (ns, tag, attrs)
  | _ => None
  end.

(** The text of the only child node of the element at [i], when that child
    is a text node. *)
Definition only_text (h : heap) (i : nat) : option string :=
  match nth_error h i with
  | Some (Elem _ _ _ [t]) =>
      match nth_error h t with
      | Some (Text s) => Some s
      | _ => None
      end
  | _ => None
  end.

(** A node without the child [c]. *)
Definition strip (c : nat) (n : dnode) : dnode :=
  match n with
  | Elem ns tag attrs kids => Elem ns tag attrs (Dom.without c kids)
  | Text s => Text s
  end.

(** The document after [element.textContent = value] on the element at
    [el]. *)
Definition text_set (h : heap) (el : nat) (s : string) : heap :=
  match nth_error h el with
  | Some (Elem ns tag attrs _) =>
      let t := List.length h in
      Dom.update
        (List.map (strip t) (Dom.update h el (Elem ns tag attrs []) ++ [Text s]))
        el (Elem ns tag attrs [t])
  | _ => h
  end.

(** ** The assets of a page

    The search for style sheets and scripts in the constructor of [Layout]
    ([src/layout.html.js]); the constructor of [LAYOUT]
    ([src/unnamed/part_002]) has the same text. *)

Module Layout.

(** [s.includes(needle)] *)
Fixpoint includes (needle s : string) : bool :=
  String.prefix needle s
  || match s with
     | EmptyString => false
     | String _ s' => includes needle s'
     end.

(** [l.join("/")] *)
Definition join (l : list string) : string := String.concat "/" l.

(** What the constructor reads of [params]: [dist], [data.path],
    [pathModifier], [data.wildcard] and [inherit]. *)
Record params := {
  dist : option string;
  path : string;
  pathModifier : option string;
  wildcard : val;
  inherit : val
}.

(** [params.dist || "dist"] *)
Definition dist_of (p : params) : string :=
  match dist p with
  | Some d => if d =? "" then "dist" else d
  | None => "dist"
  end.

(** [part !== params.pathModifier] *)
Definition is_modifier (p : params) (part : string) : bool :=
  match pathModifier p with
  | Some m => part =? m
  | None => false
  end.

Definition urlPaths (p : params) : list string :=
  if path p =? "/" then ["home"]
  else List.filter (fun part => negb (part =? "") && negb (is_modifier p part))
         (Str.split "/" (path p)).

(** [params.data.wildcard && params.data?.wildcard !== "none"] *)
Definition is_wildcard (p : params) : bool :=
  truthy (wildcard p)
  && negb (match wildcard p with VStr s => s =? "none" | _ => false end).

(** [`${l[i]}`], for [i] that may be [-1]. *)
Definition shown (l : list string) (i : Z) : string :=
  if (i <? 0)%Z then "undefined" else nth (Z.to_nat i) l "undefined".

(** [l.slice(0, -n)] *)
Definition but_last (n : nat) (l : list string) : list string :=
  firstn (List.length l - n) l.

(** What one turn of the first loop pushes. *)
Definition pushed (p : params) (urlPaths : list string) (i : nat)
  : list string :=
  let urlPath := firstn (i + 1) urlPaths in
  let len := Z.of_nat (List.length urlPath) in
  if (is_wildcard p && Nat.eqb i (List.length urlPaths - 1))
     || (shown urlPath (len - 1) =? "*")
  then
    [(join (but_last 2 urlPath) ++ "/" ++ shown urlPath (len - 2) ++ "_$")%string;
     (join (but_last 1 urlPath) ++ "/" ++ shown urlPath (len - 2) ++ "_$")%string]
  else
    [join urlPath;
     (join urlPath ++ "/" ++ shown urlPath (len - 1))%string].

(** [filepaths] after the first loop. *)
Definition candidates (p : params) : list string :=
  List.flat_map (pushed p (urlPaths p)) (List.seq 0 (List.length (urlPaths p))).

(** [filepaths] after [if (!params.inherit)]: reading the last entry of an
    empty list is [undefined], and [includes] on it the engine's
    [TypeError]. *)
Definition filepaths (p : params) : result (list string) :=
  let all := candidates p in
  if truthy (inherit p) then Ok all
  else
    match List.rev all with
    | [] => Throw (TypeError "Cannot read properties of undefined")
    | final :: _ =>
        if includes "_$" final
        then Ok (List.filter (includes "_$") all)
        else if Nat.ltb 2 (List.length all)
             then Ok [nth (List.length all - 2) all ""; final]
             else Ok all
    end.

(** The three lists the constructor fills; a script is given by the [src]
    its [Module] is made with. *)
Record assets := {
  criticals : list string;
  bases : list string;
  scripts : list string
}.

(** [fs.existsSync(path.resolve(process.cwd(), name))] is [present name]. *)
Definition found (present : string -> bool) (name : string) : list string :=
  if present name then [("/" ++ name)%string] else [].

Definition discover (present : string -> bool) (p : params) : result assets :=
  let dist := dist_of p in
  match filepaths p with
  | Throw e => Throw e
  | Ok paths =>
      Ok {| criticals :=
              found present (dist ++ "/styles/critical.css")
              ++ List.flat_map (fun formattedPath =>
                   found present
                     (dist ++ "/styles/pages/" ++ formattedPath ++ ".critical.css"))
                   paths;
            bases :=
              found present (dist ++ "/styles/base.css")
              ++ List.flat_map (fun formattedPath =>
                   found present
                     (dist ++ "/styles/pages/" ++ formattedPath ++ ".base.css"))
                   paths;
            scripts :=
              found present (dist ++ "/scripts/base.scripts.js")
              ++ List.flat_map (fun formattedPath =>
                   found present
                     (dist ++ "/scripts/" ++ formattedPath ++ ".scripts.js"))
                   paths |}
  end.

End Layout.

(** A site with three files in [dist], and some of its pages. *)
Module Site.

Definition on_disk (name : string) : bool :=
  List.existsb (String.eqb name)
    ["dist/styles/base.css";
     "dist/styles/pages/docs/intro.base.css";
     "dist/scripts/docs/intro/intro.scripts.js"].

Definition page (path : string) : Layout.params :=
  {| Layout.dist := None; Layout.path := path; Layout.pathModifier := Some "en";
     Layout.wildcard := VUndef; Layout.inherit := VUndef |}.

Definition wildcard_page (path : string) : Layout.params :=
  {| Layout.dist := None; Layout.path := path; Layout.pathModifier := Some "en";
     Layout.wildcard := VBool true; Layout.inherit := VUndef |}.

End Site.

(** ** Descriptors with nothing to evaluate *)

(** The attributes of an element of the namespace [ns] after the renderers
    have set the attribute [key] to [v]. *)
Definition attr_step (ns : string) (attrs : list (string * string))
    (key v : string) : list (string * string) :=
  Dom.set_attr (Dom.del_attr attrs (Dom.attr_name ns key)) key v.

(** A value the renderers take as it is: no function, no text of a
    function, not [null]. *)
Definition static_value (v : val) : bool :=
  negb (isStringifiedFunction v) && negb (is_null v)
  && match v with VFun _ => false | _ => true end.

(** A descriptor that has, [tagName] apart, plain attributes only, with
    values taken as they are. *)
Definition static_descriptor (o : obj) : bool :=
  List.forallb
    (fun kv => static_value (snd kv)
               && ((fst kv =? "tagName") || negb (is_nonAttribute (fst kv))))
    o.

(** The attributes such a descriptor gives an element of the namespace
    [ns]. *)
Definition attrs_of (ns : string) (o : obj) (attrs : list (string * string))
  : list (string * string) :=
  List.fold_left
    (fun attrs kv =>
       if fst kv =? "tagName" then attrs
       else attr_step ns attrs (fst kv) (to_string (snd kv)))
    o attrs.

(** ** The registry on the server *)

(** Nothing is registered, and the array objects are [a]. *)
Definition no_registry (a : list (list binding)) (st : state) : Prop :=
  bindings st = [] /\ arrays st = a.

Definition keeps {A} (a : list (list binding)) (m : M A) : Prop :=
  forall st, no_registry a st -> no_registry a (snd (m st)).

(** A [span] made on the server, bound to [(person) => person.name] while
    the name is [null], and the page that receives it. *)
Module Trip.

Definition before : state :=
  snd (Dom.createElementNS Dom.xhtml "span"
         (snd (write_refactored Demo.server Demo.text 0 "person"
                 (VObj [("name", VNull)]) empty_state))).

Definition sea : nat -> string -> val -> val -> val -> M unit :=
  Refactored.setElementAttribute Demo.server
    (Refactored.render Demo.server Demo.text 1).

Definition served : state :=
  snd (processFunctionValue Demo.server sea 0 "textContent" Demo.person_name
         (VNum 1) before).

Definition page : state := with_dom empty_state (dom served).

End Trip.

(** * Properties *)

(** ** The monad *)

Lemma frame_refl st : frame st st.
Proof.
  split; auto. intros r l H. exists []. now rewrite app_nil_r.
Qed.

Lemma grows_trans a b c : grows a b -> grows b c -> grows a c.
Proof.
  intros Hab Hbc r l H.
  destruct (Hab r l H) as [l1 H1].
  destruct (Hbc r _ H1) as [l2 H2].
  exists (l1 ++ l2). now rewrite app_assoc.
Qed.

Lemma frame_trans st1 st2 st3 : frame st1 st2 -> frame st2 st3 -> frame st1 st3.
Proof.
  intros [S1 A1 L1] [S2 A2 L2]. split.
  - congruence.
  - eapply grows_trans; eauto.
  - congruence.
Qed.

Lemma preserves_ret {A} (a : A) : preserves (ret a).
Proof. intro st. apply frame_refl. Qed.

Lemma preserves_throw {A} (e : exn) : preserves (@throw A e).
Proof. intro st. apply frame_refl. Qed.

Lemma preserves_lift {A} (r : result A) : preserves (lift r).
Proof. intro st. apply frame_refl. Qed.

Lemma preserves_gets {A} (f : state -> A) : preserves (gets f).
Proof. intro st. apply frame_refl. Qed.

Lemma preserves_bind {A B} (m : M A) (f : A -> M B) :
  preserves m -> (forall a, preserves (f a)) -> preserves (bind m f).
Proof.
  intros Hm Hf st. unfold bind. specialize (Hm st).
  destruct (m st) as [[a|e] st1]; simpl in *; auto.
  eapply frame_trans; [exact Hm | apply Hf].
Qed.

Lemma preserves_forEach {A} (l : list A) (f : A -> M unit) :
  (forall x, preserves (f x)) -> preserves (forEach l f).
Proof.
  intro Hf. induction l as [|x l IH]; simpl.
  - apply preserves_ret.
  - apply preserves_bind; auto.
Qed.

Lemma emits_app l1 l2 : emits (l1 ++ l2) = emits l1 ++ emits l2.
Proof.
  induction l1 as [|[f a|k b] l1 IH]; simpl; auto. now rewrite IH.
Qed.

(** ** The frame of the primitive steps *)

Lemma grows_refl a : grows a a.
Proof. intros r l H. exists []. now rewrite app_nil_r. Qed.

Lemma preserves_set_dom h : preserves (Dom.set_dom h).
Proof. intro st. split; simpl; auto using grows_refl. Qed.

Lemma preserves_alloc n : preserves (Dom.alloc n).
Proof. intro st. split; simpl; auto using grows_refl. Qed.

Lemma preserves_record_evaluated f arg : preserves (record (Evaluated f arg)).
Proof.
  intro st. split; simpl; auto using grows_refl.
  rewrite emits_app. simpl. now rewrite app_nil_r.
Qed.

Lemma preserves_bindings_set key r : preserves (bindings_set key r).
Proof. intro st. split; simpl; auto using grows_refl. Qed.

Lemma preserves_new_array l : preserves (new_array l).
Proof.
  intro st. split; simpl; auto.
  intros r l0 H. exists []. rewrite app_nil_r.
  rewrite nth_error_app1; auto.
  apply nth_error_Some. congruence.
Qed.

Lemma push_at_grows r b a : grows a (push_at r b a).
Proof.
  revert r. induction a as [|l a IH]; intros r i l0 H.
  - destruct i; discriminate.
  - destruct r as [|r]; simpl.
    + destruct i as [|i]; simpl in *.
      * inversion H; subst. now exists [b].
      * exists []. now rewrite app_nil_r.
    + destruct i as [|i]; simpl in *.
      * inversion H; subst. exists []. now rewrite app_nil_r.
      * now apply IH.
Qed.

Lemma preserves_push r b : preserves (push r b).
Proof. intro st. split; simpl; auto using push_at_grows. Qed.

Lemma preserves_data_get k : preserves (data_get k).
Proof. intro st. apply frame_refl. Qed.

Create HintDb frame.

#[local] Hint Resolve preserves_ret preserves_throw preserves_lift preserves_gets
  preserves_set_dom preserves_alloc preserves_record_evaluated
  preserves_bindings_set preserves_new_array preserves_push preserves_data_get
  : frame.

(** One step through a program of the monad: binds, loops and case
    distinctions are taken apart, the leaves are looked up in [frame]. *)
Ltac frame_step :=
  first
    [ solve [auto with frame]
    | apply preserves_bind; [ | intro ]
    | apply preserves_forEach; intro
    | match goal with
      | |- preserves (match ?x with _ => _ end) => destruct x
      end ].

Ltac frame_tac := repeat frame_step.

Lemma preserves_node i : preserves (Dom.node i).
Proof. intro st. unfold Dom.node. destruct (nth_error _ _); apply frame_refl. Qed.
#[local] Hint Resolve preserves_node : frame.

Lemma preserves_elem i : preserves (Dom.elem i).
Proof. unfold Dom.elem. frame_tac. Qed.
#[local] Hint Resolve preserves_elem : frame.

Lemma preserves_put i n : preserves (Dom.put i n).
Proof. unfold Dom.put. frame_tac. Qed.
#[local] Hint Resolve preserves_put : frame.

Lemma preserves_removeAttribute i k : preserves (Dom.removeAttribute i k).
Proof. unfold Dom.removeAttribute. frame_tac. Qed.

Lemma preserves_dom_setAttribute i k v : preserves (Dom.setAttribute i k v).
Proof. unfold Dom.setAttribute. frame_tac. Qed.

Lemma preserves_setAttributeNS i k v : preserves (Dom.setAttributeNS i k v).
Proof. unfold Dom.setAttributeNS. frame_tac. Qed.

Lemma preserves_set_kids i ks : preserves (Dom.set_kids i ks).
Proof. unfold Dom.set_kids. frame_tac. Qed.

Lemma preserves_childNodes i : preserves (Dom.childNodes i).
Proof. unfold Dom.childNodes. frame_tac. Qed.

#[local] Hint Resolve preserves_removeAttribute preserves_dom_setAttribute
  preserves_setAttributeNS preserves_set_kids preserves_childNodes : frame.

Lemma preserves_children i : preserves (Dom.children i).
Proof. unfold Dom.children. frame_tac. Qed.

Lemma preserves_detach c : preserves (Dom.detach c).
Proof. unfold Dom.detach. frame_tac. Qed.
#[local] Hint Resolve preserves_children preserves_detach : frame.

Lemma preserves_dom_appendChild i c : preserves (Dom.appendChild i c).
Proof. unfold Dom.appendChild. frame_tac. Qed.

Lemma preserves_prepend i c : preserves (Dom.prepend i c).
Proof. unfold Dom.prepend. frame_tac. Qed.

Lemma preserves_removeChild i c : preserves (Dom.removeChild i c).
Proof. unfold Dom.removeChild. frame_tac. Qed.

Lemma preserves_insertBefore i c r : preserves (Dom.insertBefore i c r).
Proof. unfold Dom.insertBefore. frame_tac. Qed.

Lemma preserves_createTextNode s : preserves (Dom.createTextNode s).
Proof. unfold Dom.createTextNode. frame_tac. Qed.

Lemma preserves_createElementNS ns tag : preserves (Dom.createElementNS ns tag).
Proof. unfold Dom.createElementNS. frame_tac. Qed.

#[local] Hint Resolve preserves_dom_appendChild preserves_prepend
  preserves_removeChild preserves_insertBefore preserves_createTextNode
  preserves_createElementNS : frame.

Lemma preserves_plant : forall t, preserves (Dom.plant t).
Proof.
  fix ind 1. intros [s|ns tag attrs kids]; simpl.
  - apply preserves_alloc.
  - apply preserves_bind; [|intro; apply preserves_alloc].
    induction kids as [|x r IH].
    + apply preserves_ret.
    + apply preserves_bind; [apply ind|intro].
      apply preserves_bind; [apply IH|intro]. apply preserves_ret.
Qed.
#[local] Hint Resolve preserves_plant : frame.

Lemma preserves_plant_all l : preserves (Dom.plant_all l).
Proof. induction l; simpl; frame_tac. Qed.
#[local] Hint Resolve preserves_plant_all : frame.

Lemma preserves_clearChildren element : preserves (clearChildren element).
Proof. unfold clearChildren, bindings_get. frame_tac. Qed.
#[local] Hint Resolve preserves_clearChildren : frame.

Section SharedFrame.
Variable E : engine.

Lemma preserves_apply_value f arg : preserves (apply_value E f arg).
Proof. unfold apply_value. frame_tac. Qed.

Lemma preserves_setAttribute element key value :
  preserves (setAttribute element key value).
Proof. unfold setAttribute. frame_tac. Qed.

Lemma preserves_setStyle element value : preserves (setStyle element value).
Proof. unfold setStyle. frame_tac. Qed.

Lemma preserves_assign_innerHTML element markup :
  preserves (assign_innerHTML E element markup).
Proof. unfold assign_innerHTML. frame_tac. Qed.

Lemma preserves_setTextContent element value :
  preserves (setTextContent element value).
Proof. unfold setTextContent. frame_tac. Qed.

Lemma preserves_prepend_rendered element x :
  preserves (prepend_rendered element x).
Proof. unfold prepend_rendered. frame_tac. Qed.

Lemma preserves_append_rendered element x :
  preserves (append_rendered element x).
Proof. unfold append_rendered. frame_tac. Qed.

Lemma preserves_handleServerSideRendering T element :
  preserves (handleServerSideRendering E T element).
Proof. unfold handleServerSideRendering. frame_tac. Qed.

Hint Resolve preserves_apply_value preserves_setAttribute preserves_setStyle
  preserves_assign_innerHTML preserves_setTextContent
  preserves_prepend_rendered preserves_append_rendered
  preserves_handleServerSideRendering : frame.

Lemma preserves_processFunctionValue sea element key value depth :
  (forall el k v l d, preserves (sea el k v l d)) ->
  preserves (processFunctionValue E sea element key value depth).
Proof.
  intro Hsea. unfold processFunctionValue, bindings_get. frame_tac.
Qed.

End SharedFrame.

#[local] Hint Resolve preserves_apply_value preserves_setAttribute preserves_setStyle
  preserves_assign_innerHTML preserves_setTextContent
  preserves_prepend_rendered preserves_append_rendered
  preserves_handleServerSideRendering preserves_processFunctionValue : frame.

(** ** Rendering leaves the store, the registered entries and the record of
    re-evaluations alone *)

Section RefactoredFrame.
Variable E : engine.
Variable T : script.

Lemma Refactored_setElementAttribute_preserves (render : render_fn) :
  (forall t d, preserves (render t VNull d)) ->
  forall el k v l d,
    preserves (Refactored.setElementAttribute E render el k v l d).
Proof.
  intros Hr el k v l d.
  unfold Refactored.setElementAttribute, Refactored.setInnerHTML,
    Refactored.prependChild, Refactored.appendChild, Refactored.setChildren.
  frame_tac.
Qed.

Lemma Refactored_render_body_preserves (self : render_fn) :
  (forall t d, preserves (self t VNull d)) ->
  forall t d, preserves (Refactored.render_body E T self t VNull d).
Proof.
  intros Hs t d. unfold Refactored.render_body.
  pose proof (Refactored_setElementAttribute_preserves self Hs) as Hsea.
  simpl truthy. cbv iota.
  frame_tac.
Qed.

Lemma Refactored_render_preserves fuel :
  forall t d, preserves (Refactored.render E T fuel t VNull d).
Proof.
  induction fuel as [|n IH]; intros t d; simpl;
    apply Refactored_render_body_preserves; auto with frame.
Qed.

End RefactoredFrame.

Section MonolithicFrame.
Variable E : engine.
Variable T : script.

Lemma Monolithic_setElementAttribute_preserves (render : render_fn) :
  (forall t cb d, preserves (render t cb d)) ->
  forall el k v l d,
    preserves (Monolithic.setElementAttribute E render el k v l d).
Proof.
  intros Hr el k v l d.
  unfold Monolithic.setElementAttribute.
  frame_tac.
Qed.

Lemma Monolithic_render_body_preserves (self : render_fn) :
  (forall t cb d, preserves (self t cb d)) ->
  forall t cb d, preserves (Monolithic.render_body E T self t cb d).
Proof.
  intros Hs t cb d. unfold Monolithic.render_body.
  pose proof (Monolithic_setElementAttribute_preserves self Hs) as Hsea.
  frame_tac.
Qed.

Lemma Monolithic_render_preserves fuel :
  forall t cb d, preserves (Monolithic.render E T fuel t cb d).
Proof.
  induction fuel as [|n IH]; intros t cb d; simpl;
    apply Monolithic_render_body_preserves; auto with frame.
Qed.

End MonolithicFrame.

(** ** A write to the store *)

Section Write.
Variable E : engine.
Variable sea : nat -> string -> val -> val -> val -> M unit.
Hypothesis sea_preserves : forall el k v l d, preserves (sea el k v l d).

(** [emitBinding] is the record of the re-evaluation followed by steps that
    keep the frame. *)
Lemma emitBinding_split h b :
  exists rest : M unit,
    preserves rest /\
    emitBinding E sea h b = bind (record (Emitted h b)) (fun _ => rest).
Proof.
  eexists. split; [|reflexivity].
  pose proof (preserves_apply_value E) as Ha.
  frame_tac.
Qed.

Lemma emitBinding_effect h b st :
  let st' := snd (emitBinding E sea h b st) in
  store st' = store st /\
  grows (arrays st) (arrays st') /\
  emits (log st') = emits (log st) ++ [(h, b)].
Proof.
  destruct (emitBinding_split h b) as (rest & Hrest & ->).
  unfold bind at 1. simpl.
  match goal with |- context [rest ?s] => destruct (Hrest s) as [S A L] end.
  simpl in *. repeat split; auto.
  rewrite L, emits_app. reflexivity.
Qed.

(** Going through the array object itself visits what it held when the loop
    began: whatever the callback adds comes after the length read at the
    start, and nothing that was there is taken away. *)
Lemma forEach_from_snapshot h r post :
  forall pre extra st,
    array_of st r = pre ++ post ++ extra ->
    forEach_from r (List.length pre) (List.length post) (emitBinding E sea h) st
    = forEach post (emitBinding E sea h) st.
Proof.
  induction post as [|b post IH]; intros pre extra st Harr; simpl; auto.
  unfold bind at 1 3. unfold bind at 1. unfold gets at 1.
  rewrite Harr, nth_error_app2 by lia. rewrite Nat.sub_diag. simpl.
  destruct (emitBinding_effect h b st) as (_ & Hg & _).
  destruct (emitBinding E sea h b st) as [[[]|e] st1] eqn:Hb; simpl in *; auto.
  replace (S (List.length pre)) with (List.length (pre ++ [b]))
    by (rewrite length_app; simpl; lia).
  unfold array_of in Harr.
  destruct (nth_error (arrays st) r) as [l|] eqn:Hn.
  - rewrite (nth_error_nth _ _ _ Hn) in Harr. subst l.
    destruct (Hg _ _ Hn) as [l' Hl'].
    apply (IH (pre ++ [b]) (extra ++ l')).
    unfold array_of. rewrite (nth_error_nth _ _ _ Hl').
    repeat (rewrite <- app_assoc; simpl). reflexivity.
  - rewrite nth_error_None in Hn. rewrite nth_overflow in Harr by lia.
    destruct pre; discriminate.
Qed.

Lemma array_forEach_snapshot h r st :
  array_forEach r (emitBinding E sea h) st
  = forEach (array_of st r) (emitBinding E sea h) st.
Proof.
  unfold array_forEach, bind, gets.
  apply (forEach_from_snapshot h r (array_of st r) [] []).
  now rewrite app_nil_r.
Qed.

(** The write is the write of the specification. *)
Lemma proxy_set_spec h v st :
  proxy_set E sea h v st = write_spec E sea h v st.
Proof.
  unfold proxy_set, write_spec, bind, data_get, gets, set_store, modify,
    bindings_get, registered.
  destruct (proxy_get (store st) (to_string (VStr h))) as [old|e]; auto.
  simpl. destruct (assoc h (bindings st)) as [r|]; auto.
  rewrite array_forEach_snapshot. reflexivity.
Qed.

(** What a run of entries leaves in the record of re-evaluations: the
    entries it got to, in order; all of them when nothing was thrown. *)
Lemma forEach_emitBinding_emits h l :
  forall st,
    let out := forEach l (emitBinding E sea h) st in
    exists n,
      n <= List.length l /\
      emits (log (snd out))
      = emits (log st) ++ List.map (pair h) (firstn n l) /\
      (fst out = Ok tt -> n = List.length l) /\
      store (snd out) = store st.
Proof.
  induction l as [|b l IH]; intros st; simpl.
  - exists 0. simpl. rewrite app_nil_r. auto.
  - unfold bind.
    destruct (emitBinding_effect h b st) as (Hs & _ & Hl).
    destruct (emitBinding E sea h b st) as [[[]|e] st1]; simpl in *.
    + destruct (IH st1) as (n & Hn & Hlog & Hok & Hst).
      exists (S n). simpl. repeat split.
      * lia.
      * rewrite Hlog, Hl, <- app_assoc. reflexivity.
      * intro H. now rewrite Hok.
      * congruence.
    + exists 1. simpl. repeat split; auto; try lia; discriminate.
Qed.

End Write.

(** ** Strings, objects and the merge *)

Lemma split_hook sep s :
  Str.includes sep s = false -> Str.split sep s = [s].
Proof.
  unfold Str.includes. induction s as [|c s IH]; simpl; auto.
  intro H. apply orb_false_iff in H as [Hc Hs].
  rewrite Ascii.eqb_sym, Hc. now rewrite (IH Hs).
Qed.

Lemma split_cons sep s : exists k r, Str.split sep s = k :: r.
Proof.
  induction s as [|c s (k & r & IH)]; simpl; eauto.
  destruct (Ascii.eqb c sep); eauto. rewrite IH. eauto.
Qed.

Lemma assoc_obj_set_same {A} (o : list (string * A)) k v :
  assoc k (obj_set o k v) = Some v.
Proof.
  induction o as [|[k' v'] o IH]; simpl.
  - now rewrite String.eqb_refl.
  - destruct (k' =? k)%string eqn:Hk; simpl; now rewrite Hk.
Qed.

Lemma assoc_obj_set_other {A} (o : list (string * A)) k k' v :
  k <> k' -> assoc k' (obj_set o k v) = assoc k' o.
Proof.
  intro Hne. induction o as [|[k0 v0] o IH]; simpl.
  - destruct (k =? k')%string eqn:Hk; auto.
    apply String.eqb_eq in Hk. contradiction.
  - destruct (k0 =? k)%string eqn:H0; simpl.
    + apply String.eqb_eq in H0. subst k0.
      destruct (k =? k')%string eqn:Hk; auto.
      apply String.eqb_eq in Hk. contradiction.
    + now rewrite IH.
Qed.

Lemma set_prop_is_VObj t k v : is_VObj t -> is_VObj (set_prop t k v).
Proof. destruct t; simpl; auto. Qed.

(** Merging into a plain object gives a plain object. *)
Lemma deepMerge_is_VObj source : forall target,
  is_VObj target -> is_VObj (deepMerge target source).
Proof.
  destruct source as [| | | | |s|l|o|f]; simpl; auto.
  - intros target. generalize (number_from 0 (List.map VStr (chars s))).
    intros l. revert target.
    induction l as [|kv l IH]; simpl; auto.
    intros t Ht. apply IH. now apply set_prop_is_VObj.
  - generalize 0. induction l as [|sv l IH]; intros i t Ht; auto.
    apply IH. destruct (truthy sv && typeof_object sv);
      now apply set_prop_is_VObj.
  - induction o as [|[k sv] o IH]; intros t Ht; auto.
    apply IH. destruct (truthy sv && typeof_object sv);
      now apply set_prop_is_VObj.
Qed.

(** Reading a hook: the slice, or [null] when there is none. *)
Lemma proxy_get_hook target h :
  is_hook h = true ->
  proxy_get target h
  = Ok (if is_undefined (obj_get target h) then VNull else obj_get target h).
Proof.
  unfold is_hook, proxy_get. intro H. apply negb_true_iff in H.
  rewrite (split_hook _ _ H). simpl.
  now destruct (is_undefined (obj_get target h)).
Qed.

(** On the empty store every tether reads [null]. *)
Lemma proxy_get_empty t : proxy_get [] t = Ok VNull.
Proof.
  unfold proxy_get. destruct (split_cons "." t) as (k & r & ->). reflexivity.
Qed.

(** ** The claims on writes *)

Section WriteClaims.
Variable E : engine.
Variable T : script.

Let sea_refactored fuel :=
  Refactored.setElementAttribute E (Refactored.render E T fuel).
Let sea_monolithic fuel :=
  Monolithic.setElementAttribute E (Monolithic.render E T fuel).

Lemma sea_refactored_preserves fuel el k v l d :
  preserves (sea_refactored fuel el k v l d).
Proof.
  apply Refactored_setElementAttribute_preserves.
  apply Refactored_render_preserves.
Qed.

Lemma sea_monolithic_preserves fuel el k v l d :
  preserves (sea_monolithic fuel el k v l d).
Proof.
  apply Monolithic_setElementAttribute_preserves.
  apply Monolithic_render_preserves.
Qed.

(** What a write re-evaluates, for any [setElementAttribute] that keeps the
    frame. *)
Lemma proxy_set_emits sea h v st :
  (forall el k v l d, preserves (sea el k v l d)) ->
  let out := proxy_set E sea h v st in
  exists n,
    n <= List.length (registered st h) /\
    emits (log (snd out))
    = emits (log st) ++ List.map (pair h) (firstn n (registered st h)) /\
    (fst out = Ok tt -> n = List.length (registered st h)).
Proof.
  intros Hsea out. subst out. rewrite (proxy_set_spec E sea Hsea).
  unfold write_spec, bind, data_get, gets, set_store, modify.
  destruct (proxy_get (store st) (to_string (VStr h))) as [old|e]; simpl.
  - match goal with
    | |- context [forEach ?l ?f ?s] =>
        destruct (forEach_emitBinding_emits E sea Hsea h l s)
          as (n & Hn & Hlog & Hok & _)
    end.
    exists n. simpl in *. unfold registered in *. simpl in *. auto.
  - exists 0. simpl. rewrite app_nil_r. repeat split; auto with arith.
    discriminate.
Qed.

End WriteClaims.


Lemma merged_is_VObj st h v : is_VObj (merged st h v).
Proof. unfold merged. now apply deepMerge_is_VObj. Qed.

Lemma read_after_store st h v :
  is_hook h = true ->
  read h (with_store st (obj_set (store st) h (merged st h v)))
  = (Ok (merged st h v), with_store st (obj_set (store st) h (merged st h v))).
Proof.
  intro Hh. unfold read, data_get. simpl.
  rewrite (proxy_get_hook _ _ Hh). unfold obj_get.
  rewrite assoc_obj_set_same.
  pose proof (merged_is_VObj st h v) as Hm.
  destruct (merged st h v); simpl in *; tauto.
Qed.

Lemma proxy_set_unregistered E sea h v st :
  registered st h = [] ->
  proxy_set E sea h v st
  = match proxy_get (store st) h with
    | Ok old =>
        (Ok tt,
         with_store st (obj_set (store st) h (deepMerge (VObj (spread old)) v)))
    | Throw e => (Throw e, st)
    end.
Proof.
  intro Hreg.
  unfold proxy_set, bind, data_get, gets, set_store, modify, bindings_get,
    registered in *.
  simpl. destruct (proxy_get (store st) h) as [old|e]; auto.
  simpl. destruct (assoc h (bindings st)) as [r|]; auto.
  unfold array_forEach, bind, gets, array_of in *. simpl.
  rewrite Hreg. reflexivity.
Qed.

Lemma proxy_set_silent E sea h v st :
  registered st h = [] ->
  silent_write st h v (proxy_set E sea h v st).
Proof.
  intro Hreg. rewrite (proxy_set_unregistered E sea h v st Hreg).
  unfold silent_write.
  destruct (proxy_get (store st) h) as [old|e] eqn:Hget; simpl.
  - do 4 (split; [reflexivity|]). intro Hh.
    rewrite (proxy_get_hook _ _ Hh) in Hget. inversion Hget.
    split; [reflexivity|]. apply (read_after_store st h v Hh).
  - do 4 (split; [reflexivity|]). intro Hh.
    rewrite (proxy_get_hook _ _ Hh) in Hget. discriminate.
Qed.


(** ** The claims on rendering *)

Lemma assoc_Some_key {A} (o : list (string * A)) k v :
  assoc k o = Some v -> List.existsb (String.eqb k) (List.map fst o) = true.
Proof.
  induction o as [|[k' v'] o IH]; simpl; try discriminate.
  rewrite (String.eqb_sym k k').
  destruct (k' =? k)%string; simpl; auto.
Qed.

(** C5.  A descriptor that carries the key [if] with the value [false]
    renders to [null] and leaves the state as it was, whatever else the
    descriptor holds: no node is made, no descendant is visited, no evaluator
    is called, and the registry is unchanged.  This holds in both files, at
    every depth, on the server and in the page. *)
Theorem render_if_false_is_pruned :
  forall (E : engine) (T : script) (fuel : nat) (o : obj)
         (callback depth : val) (st : state),
    assoc "if" o = Some (VBool false) ->
    Refactored.render E T fuel (VObj o) callback depth st = (Ok RNull, st) /\
    Monolithic.render E T fuel (VObj o) callback depth st = (Ok RNull, st).
Proof.
  intros E T fuel o callback depth st Hif.
  assert (Hget : get_prop (VObj o) "if" = VBool false)
    by (simpl; unfold obj_get; now rewrite Hif).
  split.
  - destruct fuel; cbn [Refactored.render]; unfold Refactored.render_body;
      rewrite Hget; reflexivity.
  - destruct fuel; cbn [Monolithic.render]; unfold Monolithic.render_body;
      rewrite Hget; unfold own_keys; cbn [own_props];
      rewrite (assoc_Some_key _ _ _ Hif); reflexivity.
Qed.

(** ** Recovering an evaluator from its text *)

Lemma forEach_app {A} (l1 l2 : list A) (f : A -> M unit) st :
  forEach (l1 ++ l2) f st = bind (forEach l1 f) (fun _ => forEach l2 f) st.
Proof.
  revert st. induction l1 as [|x l1 IH]; intro st; simpl; auto.
  unfold bind. destruct (f x st) as [[[]|e] st1]; auto.
Qed.

Lemma functionPattern_nonempty s : Str.functionPattern s = true -> s <> "".
Proof. intros H ->. discriminate. Qed.

Lemma render_single_attribute_throws E T s e :
  Str.functionPattern s = true ->
  new_Function E ("return (" ++ s ++ ")")%string = Throw e ->
  forall fuel key callback depth st,
    fst (Refactored.render E T fuel (VObj [(key, VStr s)]) callback depth st)
    = Throw e /\
    fst (Monolithic.render E T fuel (VObj [(key, VStr s)]) callback depth st)
    = Throw e.
Proof.
  intros Hpat Hnew fuel key callback depth st.
  assert (Hparse : parseStringifiedFunction E (VStr s) = Throw e)
    by (unfold parseStringifiedFunction; simpl; now rewrite Hpat).
  assert (Htruthy : truthy (VStr s) = true).
  { simpl. destruct s; [discriminate|reflexivity]. }
  assert (Hkey : get_prop (VObj [(key, VStr s)]) key = VStr s)
    by (simpl; unfold obj_get; simpl; now rewrite String.eqb_refl).
  assert (Hif : get_prop (VObj [(key, VStr s)]) "if"
                = if (key =? "if")%string then VStr s else VUndef).
  { cbn [get_prop]. unfold obj_get. cbn [assoc].
    now destruct (key =? "if")%string. }
  split.
  - destruct fuel; cbn [Refactored.render]; unfold Refactored.render_body;
      cbn [truthy negb own_keys own_props List.map fst forEach];
      rewrite Hif, Hkey; cbn [isStringifiedFunction]; rewrite Hpat, Hparse;
      destruct (key =? "if")%string; reflexivity.
  - destruct fuel; cbn [Monolithic.render]; unfold Monolithic.render_body;
      cbn [is_null is_undefined orb own_keys own_props List.map fst forEach
             List.existsb];
      rewrite Hif, Hkey, (String.eqb_sym "if" key);
      cbn [isStringifiedFunction]; rewrite Hpat, Hparse;
      destruct (key =? "if")%string; rewrite ?Htruthy; reflexivity.
Qed.

Lemma hydrate_attribute_returns E element listenerId attr st :
  fst (hydrate_attribute E element listenerId attr st) = Ok tt.
Proof.
  unfold hydrate_attribute.
  destruct (Str.startsWith "data-bind-to-" (fst attr)); auto.
  destruct (new_Function E _) as [[| | | | | | | |f]|e]; auto.
  unfold bind, bindings_get, gets.
  destruct (assoc listenerId (bindings st)); auto.
Qed.

Lemma hydrate_attribute_skips E element listenerId name text e st :
  new_Function E ("return " ++ text)%string = Throw e ->
  hydrate_attribute E element listenerId (name, text) st = (Ok tt, st).
Proof.
  intro Hnew. unfold hydrate_attribute. cbn [fst snd].
  destruct (Str.startsWith "data-bind-to-" name); auto.
  now rewrite Hnew.
Qed.


(** ** The slice a write leaves *)

Lemma proxy_set_store E sea h v st :
  (forall el k v l d, preserves (sea el k v l d)) ->
  is_hook h = true ->
  store (snd (proxy_set E sea h v st)) = obj_set (store st) h (merged st h v).
Proof.
  intros Hsea Hh. rewrite (proxy_set_spec E sea Hsea).
  unfold write_spec, bind, data_get, gets, set_store, modify.
  cbn [to_string]. rewrite (proxy_get_hook _ _ Hh). cbn [fst snd].
  match goal with
  | |- context [forEach ?l ?f ?s] =>
      destruct (forEach_emitBinding_emits E sea Hsea h l s)
        as (n & _ & _ & _ & Hst)
  end.
  cbn [snd] in Hst. rewrite Hst. reflexivity.
Qed.

Lemma read_hook st h :
  is_hook h = true ->
  read h st = (Ok (slice st h), st).
Proof.
  intro Hh. unfold read, data_get. cbn [to_string].
  now rewrite (proxy_get_hook _ _ Hh).
Qed.

Lemma slice_after_store st st' h v :
  store st' = obj_set (store st) h v -> is_VObj v -> slice st' h = v.
Proof.
  intros Hs Hv. unfold slice, obj_get. rewrite Hs, assoc_obj_set_same.
  destruct v; simpl in *; tauto.
Qed.

Lemma deepMerge_keyless t v : keyless v = true -> deepMerge t v = t.
Proof. destruct v; simpl; auto; discriminate. Qed.

(** C3, as the code has it.  A write of [undefined], [null], a boolean or
    a number to a hook stores none of it: the slice afterwards is the
    plain object that holds what the slice held before (the empty object
    when the hook had no slice), and the next read of the hook yields that
    object.  This holds in both files. *)
Theorem keyless_write_keeps_slice :
  forall (E : engine) (T : script) (fuel : nat) (h : string) (v : val)
         (st : state),
    is_hook h = true ->
    keyless v = true ->
    let kept := VObj (spread (slice st h)) in
    let stR := snd (write_refactored E T fuel h v st) in
    let stM := snd (write_monolithic E T fuel h v st) in
    (store stR = obj_set (store st) h kept /\ read h stR = (Ok kept, stR)) /\
    (store stM = obj_set (store st) h kept /\ read h stM = (Ok kept, stM)).
Proof.
  intros E T fuel h v st Hh Hv kept stR stM. subst kept stR stM.
  unfold write_refactored, write_monolithic.
  pose proof (proxy_set_store E _ h v st
                (sea_refactored_preserves E T fuel) Hh) as HR.
  pose proof (proxy_set_store E _ h v st
                (sea_monolithic_preserves E T fuel) Hh) as HM.
  unfold merged in *. rewrite (deepMerge_keyless _ _ Hv) in *.
  split; (split; [assumption|]); rewrite (read_hook _ _ Hh);
    f_equal; f_equal; eapply slice_after_store; eauto; exact I.
Qed.

(** ** The claims on concrete pages *)



Lemma render_if_false_is_pruned_witness :
  let o := [("tagName", VStr "p"); ("if", VBool false);
            ("textContent", VFun Demo.person_name);
            ("children", VArr [Demo.list_descriptor])] in
  assoc "if" o = Some (VBool false) /\
  Refactored.render Demo.browser Demo.text 3 (VObj o) VUndef VUndef Demo.list_page
  = (Ok RNull, Demo.list_page).
Proof.
  split; [reflexivity|].
  apply (render_if_false_is_pruned Demo.browser Demo.text 3 _ VUndef VUndef
           Demo.list_page).
  reflexivity.
Defined.


(** A number written to a fresh hook is not what the next read yields, and
    neither is an array. *)
Lemma scalar_write_is_not_stored :
  let st := snd (write_refactored Demo.browser Demo.text 0 "count"
                   (VNum 5) empty_state) in
  let st' := snd (write_refactored Demo.browser Demo.text 0 "list"
                    (VArr [VNum 1; VNum 2]) empty_state) in
  fst (read "count" st) = Ok (VObj []) /\
  fst (read "count" st) <> Ok (VNum 5) /\
  fst (read "list" st') = Ok (VObj [("0", VNum 1); ("1", VNum 2)]) /\
  fst (read "list" st') <> Ok (VArr [VNum 1; VNum 2]).
Proof.
  repeat split; try reflexivity; discriminate.
Qed.

Lemma keyless_write_keeps_slice_witness :
  is_hook "items" = true /\
  keyless (VNum 5) = true /\
  read "items"
    (snd (write_refactored Demo.browser Demo.text 3 "items" (VNum 5)
            Demo.list_page))
  = (Ok (VObj [("title", VStr "a")]),
     snd (write_refactored Demo.browser Demo.text 3 "items" (VNum 5)
            Demo.list_page)).
Proof.
  split; [reflexivity|]. split; [reflexivity|].
  apply (keyless_write_keeps_slice Demo.browser Demo.text 3 "items" (VNum 5)
           Demo.list_page); reflexivity.
Defined.

(** C4, at the input where the code fails.  After
    [App.data.user = { name: null }] the read of ["user.name.first"] does
    not yield [null]: the walk steps onto the [null] it has stored and the
    property access throws. *)
Theorem read_through_null_throws :
  let st := snd (write_refactored Demo.browser Demo.text 0 "user"
                   (VObj [("name", VNull)]) empty_state) in
  store st = [("user", VObj [("name", VNull)])] /\
  fst (read "user.name" st) = Ok VNull /\
  fst (read "user.name.first" st)
  = Throw (TypeError "Cannot read properties of null").
Proof. repeat split. Qed.

(** C2, at the input where the code fails.  After
    [App.data.testData = { elementClass, elementText, children: [...] }] and
    [App.data.testData = { elementClass: "new-class" }] the key [children],
    present in the first object and absent from the second, does not hold
    the array that was written but a plain object keyed by position. *)
Theorem merge_turns_array_into_object :
  let A := VObj [("elementClass", VStr "test-element");
                 ("elementText", VStr "This is a test of data-binding");
                 ("children", VArr [VStr "one"; VStr "two"; VStr "three"])] in
  let B := VObj [("elementClass", VStr "new-class")] in
  let st1 := snd (write_refactored Demo.browser Demo.text 0 "testData" A
                    empty_state) in
  let st2 := snd (write_refactored Demo.browser Demo.text 0 "testData" B st1) in
  fst (read "testData" st2)
  = Ok (VObj [("elementClass", VStr "new-class");
              ("elementText", VStr "This is a test of data-binding");
              ("children",
               VObj [("0", VStr "one"); ("1", VStr "two"); ("2", VStr "three")])])
  /\ fst (read "testData.children" st2)
     <> Ok (VArr [VStr "one"; VStr "two"; VStr "three"]).
Proof. split; [reflexivity|discriminate]. Qed.

(** C6, at the input where the code fails.  On the card page the children
    of the [div] are cleared: the [div] has no child left, the [section] and
    the [span] under it are gone from the tree, yet the entry of the [span]
    is still registered under ["person"], and the next write to ["person"]
    re-evaluates it. *)
Theorem purge_misses_descendants :
  nth_error (dom Demo.cleared_card_page) 0 = Some (Elem Dom.xhtml "div" [] []) /\
  registered Demo.cleared_card_page "person" = [Demo.span_binding] /\
  emits (log (snd (write_refactored Demo.browser Demo.text 3 "person"
                     (VObj [("name", VStr "Al")]) Demo.cleared_card_page)))
  = [("person", Demo.span_binding)].
Proof. repeat split. Qed.


(** ** Where the two renderers agree *)

Lemma bind_cong {A B} (m : M A) (f g : A -> M B) st :
  (forall a st', m st = (Ok a, st') -> f a st' = g a st') ->
  bind m f st = bind m g st.
Proof.
  intro H. unfold bind. destruct (m st) as [[a|e] st'] eqn:Hm; auto.
Qed.

Lemma bind_cong2 {A B} (m1 m2 : M A) (f g : A -> M B) st :
  m1 st = m2 st ->
  (forall a st', m2 st = (Ok a, st') -> f a st' = g a st') ->
  bind m1 f st = bind m2 g st.
Proof.
  intros Hm H. unfold bind. rewrite Hm.
  destruct (m2 st) as [[a|e] st'] eqn:Hm2; auto.
Qed.

Lemma preserves_store {A} (m : M A) st r st' :
  preserves m -> m st = (r, st') -> store st' = store st.
Proof.
  intros H Hm. pose proof (frame_store _ _ (H st)) as Hs.
  now rewrite Hm in Hs.
Qed.

Lemma forEach_agree {A} (s : obj) (Q : A -> Prop) l (f g : A -> M unit) :
  (forall x, preserves (f x)) ->
  (forall x st, store st = s -> Q x -> f x st = g x st) ->
  Forall Q l ->
  forall st, store st = s -> forEach l f st = forEach l g st.
Proof.
  intros Hf Hfg HQ. induction HQ as [|x l Hx HQ IH]; intros st Hs; simpl; auto.
  unfold bind. rewrite <- (Hfg x st Hs Hx).
  destruct (f x st) as [[[]|e] st1] eqn:Hfx; auto.
  apply IH. rewrite (preserves_store _ _ _ _ (Hf x) Hfx). exact Hs.
Qed.

Lemma bind_data_get {B} lid (f : val -> M B) st :
  bind (data_get lid) f st
  = match proxy_get (store st) (to_string lid) with
    | Ok a => f a st
    | Throw e => (Throw e, st)
    end.
Proof. reflexivity. Qed.

Lemma plus_one_falsy_nested listener :
  truthy listener = false -> is_zero (depth_of (plus_one listener)) = false.
Proof.
  destruct listener as [| |[]|n| |str|l|o|f]; simpl; try discriminate; auto.
  destruct n; simpl; auto; discriminate.
Qed.

Lemma has_key_existsb o k :
  List.existsb (String.eqb k) (List.map fst o) = has_key o k.
Proof.
  unfold has_key. induction o as [|[k' v'] o IH]; simpl; auto.
  rewrite (String.eqb_sym k k').
  destruct (k' =? k)%string; simpl; auto.
Qed.

Lemma assoc_number_from_chars k str : forall i v,
  assoc k (number_from i (List.map VStr (chars str))) = Some v ->
  truthy v = true /\ is_false v = false.
Proof.
  induction str as [|c str IH]; intros i v; simpl; try discriminate.
  destruct (nat_to_string i =? k)%string.
  - intro H. inversion H. auto.
  - apply IH.
Qed.

(** An [if] that reads [false] is a key of the descriptor. *)
Lemma false_if_is_own t :
  is_false (get_prop t "if") = true -> has_own t "if" = true.
Proof.
  unfold has_own, own_keys.
  destruct t as [| | | | |str|l|o|f]; try discriminate.
  - change (get_prop (VStr str) "if")
      with (obj_get (own_props (VStr str)) "if").
    unfold obj_get.
    destruct (assoc "if" (own_props (VStr str))) eqn:Hv; [|discriminate].
    intros _. eapply assoc_Some_key; eauto.
  - change (get_prop (VArr l) "if") with (obj_get (own_props (VArr l)) "if").
    unfold obj_get.
    destruct (assoc "if" (own_props (VArr l))) eqn:Hv; [|discriminate].
    intros _. eapply assoc_Some_key; eauto.
  - cbn [get_prop own_props]. unfold obj_get.
    destruct (assoc "if" o) eqn:Hv; [|discriminate].
    intros _. eapply assoc_Some_key; eauto.
Qed.

(** A text never carries an [if] that prunes it. *)
Lemma text_is_not_pruned str :
  is_false (get_prop (VStr str) "if") = false /\
  List.existsb (String.eqb "if") (own_keys (VStr str))
  && negb (truthy (get_prop (VStr str) "if")) = false.
Proof.
  unfold own_keys, own_props.
  change (get_prop (VStr str) "if")
    with (obj_get (number_from 0 (List.map VStr (chars str))) "if").
  rewrite has_key_existsb. unfold has_key, obj_get.
  destruct (assoc "if" (number_from 0 (List.map VStr (chars str))))
    as [v|] eqn:Hv; auto.
  destruct (assoc_number_from_chars _ _ _ _ Hv) as [Ht Hf].
  now rewrite Ht, Hf.
Qed.

Section Agree.
Variable E : engine.
Variable s : obj.
Variable child_agrees : val -> bool.
Variables selfM selfR : render_fn.
Hypothesis selfM_preserves : forall t cb d, preserves (selfM t cb d).
Hypothesis self_agree :
  forall child listener st,
    store st = s -> child_agrees child = true -> truthy listener = false ->
    selfM child listener VNull st = selfR child VNull (plus_one listener) st.

Lemma children_loop_agree element listener l st :
  store st = s -> truthy listener = false ->
  List.forallb child_agrees l = true ->
  forEach l (fun child =>
    childElement <- selfM child listener VNull ;;
    if is_RNull childElement then ret tt
    else append_rendered element childElement) st
  = forEach l (fun child =>
      childElement <- selfR child VNull (plus_one listener) ;;
      if is_RNull childElement then ret tt
      else append_rendered element childElement) st.
Proof.
  intros Hs Hl HQ.
  apply (forEach_agree s (fun child => child_agrees child = true)); auto.
  - intro x. frame_tac.
  - intros x st0 Hs0 Hx. unfold bind. now rewrite (self_agree x listener st0).
  - apply Forall_forall. now apply forallb_forall.
Qed.

Lemma setElementAttribute_agree el key v lid dM dR st :
  store st = s ->
  match proxy_get s (to_string lid) with
  | Ok listener => value_agrees child_agrees key v listener = true
  | Throw _ => True
  end ->
  Monolithic.setElementAttribute E selfM el key v lid dM st
  = Refactored.setElementAttribute E selfR el key v lid dR st.
Proof.
  intros Hs Hv.
  unfold Monolithic.setElementAttribute, Refactored.setElementAttribute.
  rewrite !bind_data_get, Hs.
  destruct (proxy_get s (to_string lid)) as [listener|e]; [|reflexivity].
  destruct (is_nonAttribute key); cbn [negb]; [|reflexivity].
  unfold value_agrees in Hv.
  destruct (key =? "style")%string; [reflexivity|].
  destruct (key =? "innerHTML")%string.
  { apply negb_true_iff in Hv.
    unfold Refactored.setInnerHTML. now rewrite Hv. }
  destruct (key =? "prepend")%string.
  { simpl in Hv. apply negb_true_iff in Hv.
    unfold Refactored.prependChild. now rewrite Hv. }
  assert (Hloop : forall l st0,
             store st0 = s -> truthy listener = false ->
             List.forallb child_agrees l = true ->
             (existing <- Dom.children el ;;
              cleared <-
                (if negb (Nat.eqb (List.length existing) 0) || is_null (VArr l)
                 then clearChildren el ;; ret (is_null (VArr l))
                 else ret false) ;;
              if (cleared : bool) then ret tt
              else
                forEach l (fun child =>
                  childElement <- selfM child listener VNull ;;
                  if is_RNull childElement then ret tt
                  else append_rendered el childElement)) st0
             = (existing <- Dom.children el ;;
                cleared <-
                  (if negb (Nat.eqb (List.length existing) 0) || is_null (VArr l)
                   then clearChildren el ;; ret (is_null (VArr l))
                   else ret false) ;;
                if (cleared : bool) then ret tt
                else
                  forEach l (fun child =>
                    childElement <- selfR child VNull (plus_one listener) ;;
                    if is_RNull childElement then ret tt
                    else append_rendered el childElement)) st0).
  { intros l st0 Hs0 Hl HQ.
    apply bind_cong. intros existing st1 H1.
    assert (Hs1 : store st1 = s)
      by (rewrite (preserves_store _ _ _ _ (preserves_children el) H1); auto).
    apply bind_cong. intros cleared st2 H2.
    assert (Hs2 : store st2 = s).
    { rewrite <- Hs1. eapply preserves_store; [|exact H2]. frame_tac. }
    destruct cleared; [reflexivity|].
    now apply children_loop_agree. }
  destruct (String.eqb_spec key "children") as [->|Nchildren].
  { unfold Refactored.setChildren.
    cbv [String.eqb Ascii.eqb Bool.eqb orb] in Hv |- *.
    apply andb_true_iff in Hv as [Hl HQ]. apply negb_true_iff in Hl.
    destruct v as [| | | | | |l| |]; try discriminate.
    cbn [Monolithic.indexed]. now apply Hloop. }
  destruct (String.eqb_spec key "child") as [->|Nchild].
  { unfold Refactored.setChildren.
    cbv [String.eqb Ascii.eqb Bool.eqb orb] in Hv |- *.
    apply andb_true_iff in Hv as [Hl Hc]. apply negb_true_iff in Hl.
    cbn [Monolithic.indexed].
    destruct (is_null v) eqn:Hnull.
    - destruct v; try discriminate.
      apply bind_cong. intros existing st1 H1.
      destruct (negb (Nat.eqb (List.length existing) 0));
        apply bind_cong; intros cleared st2 H2; unfold bind, ret in H2;
        destruct (clearChildren el st1) as [[[]|e] st3];
        inversion H2; reflexivity.
    - replace (is_null v) with (is_null (VArr [v])) by (now rewrite Hnull).
      apply Hloop; auto. cbn [List.forallb]. now rewrite Hc. }
  cbn [orb].
  destruct (key =? "textContent")%string; [reflexivity|].
  destruct (key =? "append")%string; [|reflexivity].
  simpl in Hv. apply negb_true_iff in Hv.
  unfold Refactored.appendChild. now rewrite Hv.
Qed.

Lemma Monolithic_sea_preserves el k v l d :
  preserves (Monolithic.setElementAttribute E selfM el k v l d).
Proof. now apply Monolithic_setElementAttribute_preserves. Qed.

Lemma processFunctionValue_agree el key f dM dR st :
  store st = s ->
  match proxy_get s (to_string (listenerId_of f)) with
  | Throw _ => True
  | Ok arg =>
      match call E f arg with
      | Throw _ => True
      | Ok r => is_null r || value_agrees child_agrees key r arg = true
      end
  end ->
  processFunctionValue E (Monolithic.setElementAttribute E selfM) el key f dM st
  = processFunctionValue E (Refactored.setElementAttribute E selfR) el key f dR st.
Proof.
  intros Hs Hv. unfold processFunctionValue.
  apply bind_cong. intros [] st1 H1.
  assert (Hs1 : store st1 = s).
  { rewrite <- Hs. eapply preserves_store; [|exact H1].
    unfold bindings_get. frame_tac. }
  rewrite !bind_data_get, Hs1.
  destruct (proxy_get s (to_string (listenerId_of f))) as [arg|e] eqn:Hget;
    [|reflexivity].
  apply bind_cong. intros r st2 H2.
  assert (Hs2 : store st2 = s).
  { rewrite <- Hs1. eapply preserves_store; [|exact H2].
    apply preserves_apply_value. }
  unfold apply_value, bind, record, modify, lift in H2.
  destruct (call E f arg) as [r'|e]; inversion H2; subst r'.
  destruct (is_null r) eqn:Hnull; [reflexivity|].
  apply setElementAttribute_agree; auto.
  rewrite Hget. exact Hv.
Qed.

Lemma parse_step value st :
  (if isStringifiedFunction value
   then lift (parseStringifiedFunction E value) else ret value) st
  = ((if isStringifiedFunction value
      then parseStringifiedFunction E value else Ok value), st).
Proof. now destruct (isStringifiedFunction value). Qed.

Lemma attribute_agree el key value dM dR st :
  store st = s ->
  attribute_agrees E s child_agrees key value = true ->
  (value <- (if isStringifiedFunction value
             then lift (parseStringifiedFunction E value)
             else ret value) ;;
   match value with
   | VFun f =>
       processFunctionValue E (Monolithic.setElementAttribute E selfM)
         el key f dM
   | VNull => ret tt
   | _ => Monolithic.setElementAttribute E selfM el key value VNull dM
   end) st
  = (value <- (if isStringifiedFunction value
               then lift (parseStringifiedFunction E value)
               else ret value) ;;
     match value with
     | VFun f =>
         processFunctionValue E (Refactored.setElementAttribute E selfR)
           el key f dR
     | VNull => ret tt
     | _ => Refactored.setElementAttribute E selfR el key value VNull dR
     end) st.
Proof.
  intros Hs Hv. unfold attribute_agrees in Hv.
  apply bind_cong. intros v st1 H1. rewrite parse_step in H1.
  inversion H1; subst st1. clear H1.
  match goal with H : _ = Ok v |- _ => rewrite H in Hv end.
  destruct v;
    try (apply setElementAttribute_agree; [assumption|];
         change (to_string VNull) with "null";
         destruct (proxy_get s "null"); [assumption|exact I]).
  - reflexivity.
  - apply processFunctionValue_agree; auto.
    destruct (proxy_get s (to_string (listenerId_of f))); auto.
    destruct (call E f a); auto.
Qed.

Lemma attribute_step_preserves el key (value : val) dM :
  preserves
    (value <- (if isStringifiedFunction value
               then lift (parseStringifiedFunction E value)
               else ret value) ;;
     match value with
     | VFun f =>
         processFunctionValue E (Monolithic.setElementAttribute E selfM)
           el key f dM
     | VNull => ret tt
     | _ => Monolithic.setElementAttribute E selfM el key value VNull dM
     end).
Proof.
  pose proof Monolithic_sea_preserves as Hsea.
  frame_tac.
Qed.

(** What [descriptor_agrees] says of a descriptor that becomes an element. *)
Lemma descriptor_agrees_element t :
  descriptor_agrees E s child_agrees t = true ->
  t <> VNull -> t <> VUndef -> (forall str, t <> VStr str) ->
  truthy t = true /\
  (has_own t "if" && negb (truthy (get_prop t "if"))
   = is_false (get_prop t "if")) /\
  ((if negb (is_undefined (get_prop t "tagName"))
    then get_prop t "tagName" else VStr "div")
   = (if truthy (get_prop t "tagName")
      then get_prop t "tagName" else VStr "div")) /\
  Forall (fun key =>
            attribute_agrees E s child_agrees key (get_prop t key) = true)
    (own_keys t).
Proof.
  intros Ht Hn Hu Hs.
  assert (Hall :
            truthy t
            && (is_false (get_prop t "if") || negb (has_own t "if")
                || truthy (get_prop t "if"))
            && (is_undefined (get_prop t "tagName")
                || truthy (get_prop t "tagName"))
            && List.forallb
                 (fun key => attribute_agrees E s child_agrees key (get_prop t key))
                 (own_keys t) = true).
  { destruct t; try exact Ht; try contradiction.
    exfalso. eapply Hs. reflexivity. }
  clear Ht.
  apply andb_true_iff in Hall as [Hall Hattrs].
  apply andb_true_iff in Hall as [Hall Htag].
  apply andb_true_iff in Hall as [Htruthy Hif].
  split; [exact Htruthy|]. split; [|split].
  - apply orb_true_iff in Hif as [Hif|Hif].
    + apply orb_true_iff in Hif as [Hif|Hif].
      * rewrite Hif, (false_if_is_own _ Hif).
        now destruct (get_prop t "if") as [| |[]| | | | | |].
      * apply negb_true_iff in Hif. rewrite Hif.
        destruct (is_false (get_prop t "if")) eqn:Hf; auto.
        rewrite (false_if_is_own _ Hf) in Hif. discriminate.
    + rewrite Hif, andb_false_r.
      now destruct (get_prop t "if") as [| |[]| | | | | |].
  - apply orb_true_iff in Htag as [Htag|Htag].
    + now destruct (get_prop t "tagName").
    + rewrite Htag. now destruct (get_prop t "tagName").
  - apply Forall_forall. now apply forallb_forall.
Qed.

Lemma render_body_agree T t cbM cbR dM dR st :
  store st = s ->
  descriptor_agrees E s child_agrees t = true ->
  truthy cbM = false -> truthy cbR = false ->
  same_mode E dM dR = true ->
  Monolithic.render_body E T selfM t cbM dM st
  = Refactored.render_body E T selfR t cbR dR st.
Proof.
  intros Hs Ht HcM HcR Hmode.
  apply andb_true_iff in Hmode as [Hz Hserver].
  apply Bool.eqb_prop in Hz.
  unfold Monolithic.render_body, Refactored.render_body.
  fold (depth_of dM). fold (depth_of dR).
  fold (has_own t "if").
  destruct t as [| | | | |str|l|o|f]; try reflexivity.
  4: { (* a text *)
    unfold has_own.
    destruct (text_is_not_pruned str) as [HR HM].
    rewrite HR, HM. cbn [is_null is_undefined orb truthy].
    cbn [descriptor_agrees] in Ht. now rewrite Ht. }
  all: (* an element *)
    match goal with
    | |- context [negb (truthy ?t)] =>
        destruct (descriptor_agrees_element t Ht)
          as (Htruthy & Hprune & Htagname & Hattrs);
        [discriminate|discriminate|discriminate|]
    end.
  all: rewrite Htruthy, Hprune, Htagname;
    cbn [is_null is_undefined orb negb];
    match goal with
    | |- context [is_false ?x] => destruct (is_false x); [reflexivity|]
    end;
    apply bind_cong; intros el st1 H1;
    assert (Hs1 : store st1 = s)
      by (rewrite <- Hs; eapply preserves_store; [|exact H1]; auto with frame);
    apply bind_cong2;
    [ match goal with
      | |- forEach (own_keys ?t) _ _ = _ =>
          apply (forEach_agree s
                   (fun key =>
                      attribute_agrees E s child_agrees key (get_prop t key)
                      = true)); auto;
          [ intro key; apply attribute_step_preserves
          | intros key st0 Hs0 Hkey; now apply attribute_agree ]
      end
    | intros [] st2 _;
      rewrite HcM, HcR, <- Hz; unfold bind, ret;
      destruct (is_zero (depth_of dM)); cbn [negb orb] in Hserver;
      [ now rewrite Hserver | now rewrite andb_false_r ] ].
Qed.

End Agree.

Lemma renderers_agree_on_store E T s fuel :
  forall t cbM cbR dM dR st,
    store st = s ->
    agrees E s fuel t = true ->
    truthy cbM = false -> truthy cbR = false ->
    same_mode E dM dR = true ->
    Monolithic.render E T fuel t cbM dM st
    = Refactored.render E T fuel t cbR dR st.
Proof.
  induction fuel as [|n IH]; intros t cbM cbR dM dR st Hs Ht HcM HcR Hmode;
    cbn [Monolithic.render Refactored.render].
  - apply (render_body_agree E s (fun _ => true)); auto.
    intros. apply preserves_throw.
  - apply (render_body_agree E s (agrees E s n)); auto.
    + apply Monolithic_render_preserves.
    + intros child listener st0 Hs0 Hchild Hl.
      apply IH; auto.
      unfold same_mode. now rewrite plus_one_falsy_nested.
Qed.



(** ** What the merge keeps *)

Lemma set_prop_VObj_other o k k' v :
  k <> k' -> get_prop (set_prop (VObj o) k v) k' = obj_get o k'.
Proof.
  intro Hne. simpl. unfold obj_get. now rewrite assoc_obj_set_other.
Qed.

(** A key the written object does not have keeps the value the slice had
    for it: the merge is no replacement. *)
Lemma deepMerge_keeps_absent_keys source : forall o k,
  assoc k source = None ->
  exists o',
    deepMerge (VObj o) (VObj source) = VObj o' /\ obj_get o' k = obj_get o k.
Proof.
  cbn [deepMerge].
  induction source as [|[key sv] source IH]; intros o k Hk.
  - exists o. auto.
  - simpl in Hk. destruct (key =? k)%string eqn:Hkey; [discriminate|].
    apply String.eqb_neq in Hkey.
    destruct (truthy sv && typeof_object sv).
    + cbn [set_prop].
      destruct (IH (obj_set o key
                      (deepMerge
                         (if negb (truthy (get_prop (VObj o) key))
                             || negb (typeof_object (get_prop (VObj o) key))
                          then VObj [] else get_prop (VObj o) key) sv)) k Hk)
        as (o' & Ho' & Hget).
      exists o'. split; [exact Ho'|].
      rewrite Hget. unfold obj_get. now rewrite assoc_obj_set_other.
    + cbn [set_prop].
      destruct (IH (obj_set o key sv) k Hk) as (o' & Ho' & Hget).
      exists o'. split; [exact Ho'|].
      rewrite Hget. unfold obj_get. now rewrite assoc_obj_set_other.
Qed.

(** Scenario B: [{ name: "Ann" }] then [{ age: 30 }] written to ["user"]. *)
Example write_user_twice :
  let st1 := snd (write_refactored Demo.browser Demo.text 0 "user"
                    (VObj [("name", VStr "Ann")]) empty_state) in
  let st2 := snd (write_refactored Demo.browser Demo.text 0 "user"
                    (VObj [("age", VNum 30)]) st1) in
  fst (read "user" st2) = Ok (VObj [("name", VStr "Ann"); ("age", VNum 30)]).
Proof. reflexivity. Qed.

(** Scenario A, for every tether. *)
Lemma read_on_empty_store t : read t empty_state = (Ok VNull, empty_state).
Proof.
  unfold read, data_get. cbn [store empty_state to_string].
  now rewrite proxy_get_empty.
Qed.

(** Scenario C, in both files (nested for the monolithic one, whose root
    call in the page ends in an exception). *)
Example render_div_p :
  let d := VObj [("tagName", VStr "div");
                 ("children",
                  VArr [VObj [("tagName", VStr "p");
                              ("textContent", VStr "Hi")]])] in
  Refactored.render Demo.browser Demo.text 2 d VUndef VUndef empty_state
  = (Ok (RNode 0),
     {| store := []; bindings := []; arrays := [];
        dom := [Elem Dom.xhtml "div" [] [1]; Elem Dom.xhtml "p" [] [2];
                Text "Hi"];
        log := [] |})
  /\ Monolithic.render Demo.browser Demo.text 2 d VNull (VNum 1) empty_state
     = Refactored.render Demo.browser Demo.text 2 d VUndef VUndef empty_state.
Proof. split; reflexivity. Qed.

(** ** The text utilities on the words of the sources *)

Example functionPattern_arrow :
  Str.functionPattern "(person) => person.name" = true.
Proof. reflexivity. Qed.

Example functionPattern_function :
  Str.functionPattern "  function (a, b) { return a }" = true.
Proof. reflexivity. Qed.

Example functionPattern_bare_arrow :
  Str.functionPattern "person => person.name" = false.
Proof. reflexivity. Qed.

Example functionPattern_named :
  Str.functionPattern "function f(a) { return a }" = false.
Proof. reflexivity. Qed.

Example split_tether : Str.split "." "person.identity.first_name"
                       = ["person"; "identity"; "first_name"].
Proof. reflexivity. Qed.

Example listenerId_of_arrow :
  listenerId_of {| fn_src := "(identity, e) => e.Strong(identity.first_name)";
                   fn_id := 7 |}
  = VStr "identity".
Proof. reflexivity. Qed.

Example camelToHyphen_textContent :
  Str.camelToHyphen "textContent" = "text-content".
Proof. reflexivity. Qed.

Example hyphenToCamelCase_textContent :
  Str.hyphenToCamelCase "text-content" = "textContent".
Proof. reflexivity. Qed.

Example style_text_object :
  style_text (VObj [("backgroundColor", VStr "red"); ("font-size", VNum 12)])
  = "background-color:red;font-size:12;".
Proof. reflexivity. Qed.

(** The scan of the served page: the attribute the engine rejects is passed
    over, the other two are registered, in the order of the page. *)
Example hydrate_served_page :
  let out := hydrate Demo.browser (write_refactored Demo.browser Demo.text 3)
               [("person", VObj [("name", VStr "Jo")])] Demo.served_page in
  fst out = Ok tt /\
  registered (snd out) "person"
  = [{| element := 0; func := VFun Demo.person_name;
        property := "textContent" |};
     {| element := 1; func := VFun Demo.person_name; property := "title" |}].
Proof. split; reflexivity. Qed.

(** A key the written object has with a value that is no object takes that
    value. *)
Lemma deepMerge_takes_scalar source : forall o k b,
  NoDup (List.map fst source) ->
  assoc k source = Some b ->
  truthy b && typeof_object b = false ->
  exists o',
    deepMerge (VObj o) (VObj source) = VObj o' /\ obj_get o' k = b.
Proof.
  induction source as [|[key sv] source IH]; intros o k b Hnd Hk Hb;
    [discriminate|].
  inversion Hnd as [|? ? Hnotin Hnd']; subst.
  simpl in Hk. destruct (key =? k)%string eqn:Hkey.
  - inversion Hk; subst sv. apply String.eqb_eq in Hkey. subst key.
    assert (Habs : assoc k source = None).
    { clear - Hnotin. induction source as [|[k' v'] source IH]; auto.
      simpl in *. destruct (k' =? k)%string eqn:Hk'.
      - apply String.eqb_eq in Hk'. tauto.
      - apply IH. tauto. }
    destruct (deepMerge_keeps_absent_keys source (obj_set o k b) k Habs)
      as (o' & Ho' & Hget).
    exists o'. split.
    + cbn [deepMerge] in *. rewrite Hb. exact Ho'.
    + rewrite Hget. unfold obj_get. now rewrite assoc_obj_set_same.
  - cbn [deepMerge].
    destruct (truthy sv && typeof_object sv); cbn [set_prop];
      match goal with
      | |- context [obj_set o key ?x] =>
          destruct (IH (obj_set o key x) k b Hnd' Hk Hb) as (o' & Ho' & Hget)
      end;
      exists o'; split; auto.
Qed.

(** A key the written object has with an object for value holds the merge
    of that object into what the slice had there (into the empty object when
    the slice had no object there). *)
Lemma deepMerge_merges_object source : forall o k b,
  NoDup (List.map fst source) ->
  assoc k source = Some b ->
  truthy b && typeof_object b = true ->
  exists o',
    deepMerge (VObj o) (VObj source) = VObj o' /\
    obj_get o' k
    = deepMerge (if negb (truthy (obj_get o k))
                    || negb (typeof_object (obj_get o k))
                 then VObj [] else obj_get o k) b.
Proof.
  induction source as [|[key sv] source IH]; intros o k b Hnd Hk Hb;
    [discriminate|].
  inversion Hnd as [|? ? Hnotin Hnd']; subst.
  simpl in Hk. destruct (key =? k)%string eqn:Hkey.
  - inversion Hk; subst sv. apply String.eqb_eq in Hkey. subst key.
    assert (Habs : assoc k source = None).
    { clear - Hnotin. induction source as [|[k' v'] source IH]; auto.
      simpl in *. destruct (k' =? k)%string eqn:Hk'.
      - apply String.eqb_eq in Hk'. tauto.
      - apply IH. tauto. }
    cbn [deepMerge]. rewrite Hb. cbn [set_prop get_prop].
    match goal with
    | |- context [obj_set o k ?x] =>
        destruct (deepMerge_keeps_absent_keys source (obj_set o k x) k Habs)
          as (o' & Ho' & Hget)
    end.
    exists o'. split.
    + cbn [deepMerge] in Ho'. exact Ho'.
    + rewrite Hget. unfold obj_get at 1. now rewrite assoc_obj_set_same.
  - apply String.eqb_neq in Hkey. cbn [deepMerge].
    destruct (truthy sv && typeof_object sv); cbn [set_prop];
      match goal with
      | |- context [obj_set o key ?x] =>
          destruct (IH (obj_set o key x) k b Hnd' Hk Hb) as (o' & Ho' & Hget)
      end;
      exists o'; (split; [exact Ho'|]);
      rewrite Hget; unfold obj_get; now rewrite assoc_obj_set_other.
Qed.

(** From the server to the page: the server renders a bound [span] and
    leaves the evaluator's text on it; the scan of the injected script
    registers the [span] under the same key and property, with the function
    the engine makes of that text. *)
Example server_render_then_hydrate :
  let snapshot := [("person", VObj [("name", VStr "Jo")])] in
  let span := VObj [("tagName", VStr "span");
                    ("textContent", VFun Demo.person_name)] in
  let served :=
    snd (Refactored.render Demo.server Demo.text 3 span VUndef VUndef
           (with_store empty_state snapshot)) in
  let page := with_store served [] in
  let out := hydrate Demo.browser (write_refactored Demo.browser Demo.text 3)
               snapshot page in
  nth_error (dom served) 0
  = Some (Elem Dom.xhtml "span"
            [("data-listener-id", "person");
             ("data-bind-to-text-content", "(person) => person.name")] [1])
  /\ registered served "person" = []
  /\ fst out = Ok tt
  /\ registered (snd out) "person"
     = [{| element := 0; func := VFun Demo.person_name;
           property := "textContent" |}].
Proof. repeat split. Qed.

(** * Further properties of the code *)

(** ** The store *)

Lemma written_store E T fuel h v st st' :
  written E T fuel h v st st' ->
  is_hook h = true ->
  store st' = obj_set (store st) h (merged st h v).
Proof.
  intros [-> | ->] Hh; unfold write_refactored, write_monolithic;
    apply proxy_set_store; auto.
  - apply sea_refactored_preserves.
  - apply sea_monolithic_preserves.
Qed.

Lemma written_slice E T fuel h v st st' :
  written E T fuel h v st st' ->
  is_hook h = true ->
  slice st' h = merged st h v.
Proof.
  intros Hw Hh. eapply slice_after_store.
  - eapply written_store; eauto.
  - apply merged_is_VObj.
Qed.

(** X1.  A read never yields [undefined]: what is absent reads as [null]. *)
Theorem read_is_never_undefined :
  forall (t : string) (st : state) (v : val),
    fst (read t st) = Ok v -> v <> VUndef.
Proof.
  intros t st v. unfold read, data_get, proxy_get. cbn [fst to_string].
  assert (Hwalk : forall keys current w,
             current <> VUndef -> walk current keys = Ok w -> w <> VUndef).
  { induction keys as [|k keys IH]; intros current w Hc Hw; simpl in Hw.
    - inversion Hw. now subst.
    - destruct current; try discriminate; try contradiction;
        match type of Hw with
        | context [is_undefined ?x] =>
            destruct x eqn:Hx; simpl in Hw;
            try (inversion Hw; discriminate);
            try (eapply IH; [|exact Hw]; discriminate)
        end. }
  apply Hwalk. discriminate.
Qed.





Lemma written_member :
  forall (E : engine) (T : script) (fuel : nat) (h k : string) (B : obj)
         (b : val) (st st' : state),
    written E T fuel h (VObj B) st st' ->
    is_hook h = true ->
    NoDup (List.map fst B) ->
    assoc k B = Some b ->
    get_prop (slice st' h) k
    = if assigned_as_is b then b
      else
        let old := obj_get (spread (slice st h)) k in
        deepMerge (if negb (truthy old) || negb (typeof_object old)
                   then VObj [] else old) b.
Proof.
  intros E T fuel h k B b st st' Hw Hh Hnd Hk.
  rewrite (written_slice _ _ _ _ _ _ _ Hw Hh). unfold merged, assigned_as_is.
  destruct (truthy b && typeof_object b) eqn:Hb; cbn [negb].
  - destruct (deepMerge_merges_object B (spread (slice st h)) k b Hnd Hk Hb)
      as (o' & -> & Hget).
    exact Hget.
  - destruct (deepMerge_takes_scalar B (spread (slice st h)) k b Hnd Hk Hb)
      as (o' & -> & Hget).
    exact Hget.
Qed.



Lemma read_is_never_undefined_witness :
  fst (read "person.name" Demo.card_page) = Ok (VStr "Jo") /\
  VStr "Jo" <> VUndef.
Proof.
  split; [reflexivity|].
  apply (read_is_never_undefined "person.name" Demo.card_page). reflexivity.
Defined.

Lemma split_member sep a b :
  Str.includes sep a = false ->
  Str.split sep (a ++ String sep b) = a :: Str.split sep b.
Proof.
  unfold Str.includes. induction a as [|c a IH]; simpl.
  - now rewrite Ascii.eqb_refl.
  - intro H. apply orb_false_iff in H as [Hc Ha].
    rewrite Ascii.eqb_sym, Hc. now rewrite (IH Ha).
Qed.

Lemma read_member :
  forall (h k : string) (st : state),
    is_hook h = true ->
    is_hook k = true ->
    read (h ++ "." ++ k) st
    = (match obj_get (store st) h with
       | VUndef => Ok VNull
       | VNull => Throw (TypeError "Cannot read properties of null")
       | v => Ok (if is_undefined (get_prop v k) then VNull else get_prop v k)
       end, st).
Proof.
  intros h k st Hh Hk. unfold read, data_get, proxy_get. cbn [to_string].
  unfold is_hook in *. apply negb_true_iff in Hh, Hk.
  change (h ++ "." ++ k)%string with (h ++ String "." k)%string.
  rewrite (split_member _ _ _ Hh), (split_hook _ _ Hk).
  cbn [walk].
  change (get_prop (VObj (store st)) h) with (obj_get (store st) h).
  destruct (obj_get (store st) h) as [| | | | | | | |] eqn:Hv;
    cbn [is_undefined]; try reflexivity;
    match goal with
    | |- context [is_undefined ?x] => destruct (is_undefined x); reflexivity
    end.
Qed.





(** ** The store holds plain objects only *)

Lemma no_array_VObj o :
  no_array (VObj o) = List.forallb (fun kv => no_array (snd kv)) o.
Proof.
  induction o as [|[k x] o IH]; auto.
  cbn [no_array List.forallb snd] in *. now rewrite <- IH.
Qed.

Lemma no_array_obj_get o k :
  no_array (VObj o) = true -> no_array (obj_get o k) = true.
Proof.
  rewrite no_array_VObj. unfold obj_get.
  induction o as [|[k' x] o IH]; simpl; auto.
  intro H. apply andb_true_iff in H as [Hx Ho].
  destruct (k' =? k)%string; auto.
Qed.

Lemma no_array_obj_set o k v :
  no_array (VObj o) = true -> no_array v = true ->
  no_array (VObj (obj_set o k v)) = true.
Proof.
  rewrite !no_array_VObj. intros Ho Hv.
  induction o as [|[k' x] o IH]; simpl in *.
  - now rewrite Hv.
  - apply andb_true_iff in Ho as [Hx Ho].
    destruct (k' =? k)%string; simpl.
    + now rewrite Hv, Ho.
    + now rewrite Hx, IH.
Qed.

Lemma plain_object_spec v :
  plain_object v = true <-> is_VObj v /\ no_array v = true.
Proof.
  destruct v; simpl; split; try tauto; try discriminate; intuition.
Qed.

Lemma plain_set_prop t k v :
  plain_object t = true -> no_array v = true ->
  plain_object (set_prop t k v) = true.
Proof.
  destruct t; try discriminate. intros Ht Hv.
  cbn [set_prop plain_object]. now apply no_array_obj_set.
Qed.

Lemma plain_target t k :
  plain_object t = true ->
  plain_object
    (if negb (truthy (get_prop t k)) || negb (typeof_object (get_prop t k))
     then VObj [] else get_prop t k) = true.
Proof.
  destruct t as [| | | | | | |o|]; try discriminate. intro Ht.
  cbn [get_prop]. cbn [plain_object] in Ht.
  pose proof (no_array_obj_get o k Ht) as Hk.
  destruct (obj_get o k); cbn [typeof_object negb]; rewrite ?orb_true_r;
    simpl in *; auto; discriminate.
Qed.

Lemma no_array_chars s i k :
  no_array (obj_get (number_from i (List.map VStr (chars s))) k) = true.
Proof.
  unfold obj_get. revert i. induction s as [|c s IH]; intro i; simpl; auto.
  destruct (nat_to_string i =? k)%string; auto.
Qed.

Lemma no_array_props_chars s i :
  List.forallb (fun kv => no_array (snd kv))
    (number_from i (List.map VStr (chars s))) = true.
Proof. revert i. induction s as [|c s IH]; intro i; simpl; auto. Qed.

Lemma no_array_get_prop v k :
  no_array v = true -> no_array (get_prop v k) = true.
Proof.
  destruct v; try discriminate; cbn [get_prop]; auto.
  - intros _. destruct (k =? "length")%string; auto. apply no_array_chars.
  - apply no_array_obj_get.
Qed.

Lemma plain_is_no_array v : plain_object v = true -> no_array v = true.
Proof. destruct v; try discriminate; auto. Qed.

Lemma scalar_no_array v :
  truthy v && typeof_object v = false -> no_array v = true.
Proof. destruct v; try discriminate; auto. Qed.

(** Whatever is merged into a plain object, arrays included, the result is
    a plain object that holds no array. *)
Lemma deepMerge_plain : forall source target,
  plain_object target = true -> plain_object (deepMerge target source) = true.
Proof.
  fix IH 1. intros [| | | | |s|l|o|f] target Ht; cbn [deepMerge]; auto.
  - (* a text: its characters *)
    cbn [own_props]. pose proof (no_array_props_chars s 0) as Hp.
    revert Hp target Ht.
    generalize (number_from 0 (List.map VStr (chars s))) as props.
    induction props as [|[k x] props IHp]; simpl; auto.
    intros H t Ht'. apply andb_true_iff in H as [Hx Hp].
    apply IHp; auto. now apply plain_set_prop.
  - (* an array: its positions *)
    revert target Ht. generalize 0.
    induction l as [|sv l IHl]; intros i t Ht; auto.
    apply IHl. destruct (truthy sv && typeof_object sv) eqn:Hsv.
    + apply plain_set_prop; auto. apply plain_is_no_array.
      apply IH. now apply plain_target.
    + apply plain_set_prop; auto. now apply scalar_no_array.
  - (* an object: its keys *)
    revert target Ht.
    induction o as [|[k sv] o IHo]; intros t Ht; auto.
    apply IHo. destruct (truthy sv && typeof_object sv) eqn:Hsv.
    + apply plain_set_prop; auto. apply plain_is_no_array.
      apply IH. now apply plain_target.
    + apply plain_set_prop; auto. now apply scalar_no_array.
Qed.

Lemma proxy_set_store_any E sea h v st :
  (forall el k v l d, preserves (sea el k v l d)) ->
  store (snd (proxy_set E sea h v st))
  = match proxy_get (store st) h with
    | Ok old => obj_set (store st) h (deepMerge (VObj (spread old)) v)
    | Throw _ => store st
    end.
Proof.
  intros Hsea. rewrite (proxy_set_spec E sea Hsea).
  unfold write_spec, bind, data_get, gets, set_store, modify.
  cbn [to_string].
  destruct (proxy_get (store st) h) as [old|e]; cbn [fst snd]; auto.
  match goal with
  | |- context [forEach ?l ?f ?s] =>
      destruct (forEach_emitBinding_emits E sea Hsea h l s)
        as (n & _ & _ & _ & Hst)
  end.
  cbn [snd] in Hst. rewrite Hst. reflexivity.
Qed.

Lemma walk_no_array keys : forall current w,
  no_array current = true -> walk current keys = Ok w -> no_array w = true.
Proof.
  induction keys as [|k keys IH]; intros current w Hc Hw; simpl in Hw.
  - inversion Hw. now subst.
  - pose proof (no_array_get_prop current k Hc) as Hk.
    destruct current; try discriminate;
      destruct (is_undefined (get_prop _ k));
      try (inversion Hw; reflexivity); eauto.
Qed.

Lemma store_plain_no_array o :
  List.forallb (fun kv => plain_object (snd kv)) o = true ->
  no_array (VObj o) = true.
Proof.
  rewrite no_array_VObj. induction o as [|[k x] o IH]; simpl; auto.
  intro H. apply andb_true_iff in H as [Hx Ho].
  now rewrite (plain_is_no_array _ Hx), IH.
Qed.

Lemma spread_plain v : no_array v = true -> plain_object (VObj (spread v)) = true.
Proof.
  destruct v; try discriminate; auto. intros _.
  cbn [spread own_props plain_object]. rewrite no_array_VObj.
  apply no_array_props_chars.
Qed.

Lemma forallb_obj_set {A} (p : A -> bool) (o : list (string * A)) k v :
  List.forallb (fun kv => p (snd kv)) o = true -> p v = true ->
  List.forallb (fun kv => p (snd kv)) (obj_set o k v) = true.
Proof.
  intros Ho Hv. induction o as [|[k' x] o IH]; simpl in *.
  - now rewrite Hv.
  - apply andb_true_iff in Ho as [Hx Ho].
    destruct (k' =? k)%string; simpl.
    + now rewrite Hv, Ho.
    + now rewrite Hx, IH.
Qed.

(** X7.  The store holds plain objects only, whatever is written: when every
    slice is an object that holds no array, so is every slice after a write
    -- of any value, an array or a text included, to any key. *)
Theorem write_keeps_store_plain :
  forall (E : engine) (T : script) (fuel : nat) (h : string) (v : val)
         (st st' : state),
    store_of_plain_objects st = true ->
    written E T fuel h v st st' ->
    store_of_plain_objects st' = true.
Proof.
  intros E T fuel h v st st' Hst Hw. unfold store_of_plain_objects in *.
  assert (Hs : store st'
               = match proxy_get (store st) h with
                 | Ok old => obj_set (store st) h (deepMerge (VObj (spread old)) v)
                 | Throw _ => store st
                 end).
  { destruct Hw as [-> | ->]; unfold write_refactored, write_monolithic;
      apply proxy_set_store_any.
    - apply sea_refactored_preserves.
    - apply sea_monolithic_preserves. }
  rewrite Hs. unfold proxy_get.
  destruct (walk (VObj (store st)) (Str.split "." h)) as [old|e] eqn:Hwalk; auto.
  apply (forallb_obj_set plain_object); auto.
  apply deepMerge_plain, spread_plain.
  eapply walk_no_array; [|exact Hwalk]. now apply store_plain_no_array.
Qed.

Lemma write_keeps_store_plain_witness :
  store_of_plain_objects
    (snd (write_monolithic Demo.browser Demo.text 3 "items"
            (VObj [("list", VArr [VStr "a"; VArr [VNum 1]])])
            Demo.card_page)) = true.
Proof.
  apply (write_keeps_store_plain Demo.browser Demo.text 3 "items"
           (VObj [("list", VArr [VStr "a"; VArr [VNum 1]])]) Demo.card_page).
  - reflexivity.
  - now right.
Defined.

(** ** The purge of the registry *)

Lemma childNodes_at el ns tag attrs kids st :
  nth_error (dom st) el = Some (Elem ns tag attrs kids) ->
  Dom.childNodes el st = (Ok kids, st).
Proof.
  intro H. unfold Dom.childNodes, Dom.elem, Dom.node, bind. now rewrite H.
Qed.

Lemma set_kids_at el ns tag attrs kids ks st :
  nth_error (dom st) el = Some (Elem ns tag attrs kids) ->
  Dom.set_kids el ks st
  = (Ok tt, with_dom st (Dom.update (dom st) el (Elem ns tag attrs ks))).
Proof.
  intro H. unfold Dom.set_kids, Dom.elem, Dom.node, bind. now rewrite H.
Qed.

Lemma update_same h i n : nth_error h i = Some n -> Dom.update h i n = h.
Proof.
  revert i. induction h as [|x h IH]; intros [|i]; simpl; try discriminate.
  - now intros [= ->].
  - intro H. now rewrite IH.
Qed.

Lemma update_update h i a b :
  Dom.update (Dom.update h i a) i b = Dom.update h i b.
Proof.
  revert i. induction h as [|x h IH]; intros [|i]; simpl; auto.
  now rewrite IH.
Qed.

Lemma nth_error_update h i n x :
  nth_error h i = Some x -> nth_error (Dom.update h i n) i = Some n.
Proof.
  revert i. induction h as [|y h IH]; intros [|i]; simpl; try discriminate; auto.
Qed.

Lemma nth_error_update_other h i j n :
  i <> j -> nth_error (Dom.update h i n) j = nth_error h j.
Proof.
  revert i j. induction h as [|y h IH]; intros [|i] [|j] Hne; simpl; auto;
    try contradiction.
Qed.

Lemma without_head c rest :
  ~ In c rest -> Dom.without c (c :: rest) = rest.
Proof.
  intro Hc. unfold Dom.without. simpl. rewrite Nat.eqb_refl. simpl.
  induction rest as [|x rest IH]; simpl; auto.
  destruct (Nat.eqb_spec x c) as [->|Hx]; simpl.
  - exfalso. apply Hc. now left.
  - rewrite IH; auto. intro Hin. apply Hc. now right.
Qed.

Lemma registry_wf_assoc st k r :
  registry_wf st = true -> assoc k (bindings st) = Some r ->
  r < List.length (arrays st).
Proof.
  unfold registry_wf. generalize (List.length (arrays st)) as n.
  induction (bindings st) as [|[k' r'] l IH]; simpl; try discriminate.
  intros n H. apply andb_true_iff in H as [Hr Hl].
  destruct (k' =? k)%string; auto.
  intros [= ->]. now apply Nat.ltb_lt.
Qed.

Lemma filter_filter {A} (f g : A -> bool) l :
  List.filter f (List.filter g l) = List.filter (fun x => g x && f x) l.
Proof.
  induction l as [|x l IH]; simpl; auto.
  destruct (g x); simpl; [destruct (f x)|]; now rewrite IH.
Qed.

Section Purge.
Variable child : nat.

(** The body of [for (let key in bindings)]. *)
Let purge (key : string) : M unit :=
  (r <- bindings_get key ;;
   match r with
   | Some r =>
       l <- gets (fun st => array_of st r) ;;
       r' <- new_array (List.filter (not_on child) l) ;;
       bindings_set key r'
   | None => ret tt
   end)%js.

Lemma purge_key key st :
  registry_wf st = true ->
  exists st',
    purge key st = (Ok tt, st') /\
    store st' = store st /\ dom st' = dom st /\ log st' = log st /\
    registry_wf st' = true /\
    forall k, registered st' k
              = if (k =? key)%string
                then List.filter (not_on child) (registered st k)
                else registered st k.
Proof.
  intro Hwf. unfold purge, bind, bindings_get, gets, new_array, bindings_set,
    modify.
  destruct (assoc key (bindings st)) as [r|] eqn:Hr.
  - eexists. split; [reflexivity|]. cbn [store dom log].
    do 3 (split; [reflexivity|]). split.
    + unfold registry_wf in *. cbn [bindings arrays].
      rewrite length_app. cbn [List.length].
      apply (forallb_obj_set (fun r => Nat.ltb r (List.length (arrays st) + 1))).
      * rewrite forallb_forall in *. intros x Hx. apply Hwf in Hx.
        apply Nat.ltb_lt in Hx. apply Nat.ltb_lt. lia.
      * apply Nat.ltb_lt. lia.
    + intro k. unfold registered, array_of. cbn [bindings arrays].
      destruct (String.eqb_spec k key) as [->|Hne].
      * rewrite assoc_obj_set_same, Hr.
        rewrite app_nth2, Nat.sub_diag; auto.
      * rewrite assoc_obj_set_other; auto.
        destruct (assoc k (bindings st)) as [r'|] eqn:Hr'; auto.
        apply app_nth1. eapply registry_wf_assoc; eauto.
  - exists st. repeat split; auto.
    intro k. destruct (String.eqb_spec k key) as [->|Hne]; auto.
    unfold registered. now rewrite Hr.
Qed.

Lemma purge_keys keys : forall st,
  registry_wf st = true ->
  exists st',
    forEach keys purge st = (Ok tt, st') /\
    store st' = store st /\ dom st' = dom st /\ log st' = log st /\
    registry_wf st' = true /\
    forall k, registered st' k
              = if List.existsb (String.eqb k) keys
                then List.filter (not_on child) (registered st k)
                else registered st k.
Proof.
  induction keys as [|key keys IH]; intros st Hwf.
  - exists st. repeat split; auto.
  - destruct (purge_key key st Hwf) as (st1 & H1 & Hs1 & Hd1 & Hl1 & Hwf1 & Hr1).
    destruct (IH st1 Hwf1) as (st2 & H2 & Hs2 & Hd2 & Hl2 & Hwf2 & Hr2).
    exists st2. split.
    { cbn [forEach]. unfold bind. now rewrite H1. }
    do 3 (split; [congruence|]). split; auto.
    intro k. rewrite Hr2, Hr1. cbn [List.existsb].
    destruct (k =? key)%string; cbn [orb].
    + destruct (List.existsb (String.eqb k) keys); auto.
      rewrite filter_filter. apply filter_ext. intro b. now destruct (not_on child b).
    + reflexivity.
Qed.

End Purge.

Lemma assoc_not_key {A} k (l : list (string * A)) :
  List.existsb (String.eqb k) (List.map fst l) = false -> assoc k l = None.
Proof.
  induction l as [|[k' v] l IH]; simpl; auto.
  intro H. apply orb_false_iff in H as [Hk Hl].
  rewrite String.eqb_sym, Hk. auto.
Qed.

Lemma filter_all {A} (f : A -> bool) l :
  (forall x, f x = true) -> List.filter f l = l.
Proof.
  intro H. induction l as [|x l IH]; simpl; auto. now rewrite H, IH.
Qed.

Lemma clearChildren_loop el ns tag attrs : forall kids st,
  nth_error (dom st) el = Some (Elem ns tag attrs kids) ->
  NoDup kids ->
  registry_wf st = true ->
  exists st',
    forEach kids (fun child =>
      keys <- gets (fun st => List.map fst (bindings st)) ;;
      forEach keys (fun key =>
        r <- bindings_get key ;;
        match r with
        | Some r =>
            l <- gets (fun st => array_of st r) ;;
            r' <- new_array (List.filter (not_on child) l) ;;
            bindings_set key r'
        | None => ret tt
        end) ;;
      Dom.removeChild el child)%js st = (Ok tt, st') /\
    store st' = store st /\ log st' = log st /\
    dom st' = Dom.update (dom st) el (Elem ns tag attrs []) /\
    registry_wf st' = true /\
    forall key, registered st' key
                = List.filter (fun b => negb (on_any kids b)) (registered st key).
Proof.
  induction kids as [|c rest IH]; intros st Hel Hnd Hwf.
  - exists st. repeat split; auto.
    + symmetry. now apply update_same.
    + intro key. symmetry. now apply filter_all.
  - inversion Hnd as [|? ? Hc Hrest]; subst.
    pose proof (purge_keys c (List.map fst (bindings st)) st Hwf) as H1.
    cbv zeta in H1.
    destruct H1 as (st1 & H1 & Hs1 & Hd1 & Hl1 & Hwf1 & Hr1).
    assert (Hel1 : nth_error (dom st1) el = Some (Elem ns tag attrs (c :: rest)))
      by now rewrite Hd1.
    set (st2 := with_dom st1 (Dom.update (dom st1) el (Elem ns tag attrs rest))).
    assert (Hrm : Dom.removeChild el c st1 = (Ok tt, st2)).
    { unfold Dom.removeChild, bind. rewrite (childNodes_at _ _ _ _ _ _ Hel1).
      cbn [List.existsb]. rewrite Nat.eqb_refl. cbn [orb].
      rewrite (set_kids_at _ _ _ _ _ _ _ Hel1), without_head; auto. }
    destruct (IH st2) as (st3 & H3 & Hs3 & Hl3 & Hd3 & Hwf3 & Hr3); auto.
    { unfold st2. cbn [dom with_dom]. eapply nth_error_update; eauto. }
    exists st3. split.
    { cbn [forEach]. unfold bind at 1 2 3. unfold gets at 1.
      rewrite H1, Hrm. exact H3. }
    split; [rewrite Hs3; exact Hs1|].
    split; [rewrite Hl3; exact Hl1|].
    split.
    { rewrite Hd3. unfold st2. cbn [dom with_dom].
      now rewrite update_update, Hd1. }
    split; auto.
    intro key. rewrite Hr3.
    change (registered st2 key) with (registered st1 key). rewrite Hr1.
    assert (Hk : (if List.existsb (String.eqb key) (List.map fst (bindings st))
                  then List.filter (not_on c) (registered st key)
                  else registered st key)
                 = List.filter (not_on c) (registered st key)).
    { destruct (List.existsb (String.eqb key) (List.map fst (bindings st)))
        eqn:Hin; auto.
      unfold registered. now rewrite (assoc_not_key _ _ Hin). }
    rewrite Hk, filter_filter. apply filter_ext. intro b.
    unfold on_any, not_on. cbn [List.existsb]. now rewrite negb_orb.
Qed.

(** X8.  What [clearChildren] does: on an element whose child nodes are
    distinct, in a state whose registry refers to arrays that exist, it ends
    without an exception; the element is left with no child node and is
    otherwise what it was; under every key of the registry the entries left
    are, in their order, those whose element is none of the child nodes the
    element had; the store and the log are not touched. *)
Theorem clearChildren_purges_direct_children :
  forall (el : nat) (ns tag : string) (attrs : list (string * string))
         (kids : list nat) (st : state),
    nth_error (dom st) el = Some (Elem ns tag attrs kids) ->
    NoDup kids ->
    registry_wf st = true ->
    exists st',
      clearChildren el st = (Ok tt, st') /\
      store st' = store st /\ log st' = log st /\
      dom st' = Dom.update (dom st) el (Elem ns tag attrs []) /\
      forall key,
        registered st' key
        = List.filter (fun b => negb (on_any kids b)) (registered st key).
Proof.
  intros el ns tag attrs kids st Hel Hnd Hwf.
  destruct (clearChildren_loop el ns tag attrs kids st Hel Hnd Hwf)
    as (st' & H & Hs & Hl & Hd & _ & Hr).
  exists st'. split; auto.
  unfold clearChildren, bind at 1. rewrite (childNodes_at _ _ _ _ _ _ Hel).
  exact H.
Qed.

Lemma clearChildren_purges_direct_children_witness :
  exists st',
    clearChildren 0 Demo.list_page = (Ok tt, st') /\
    registered st' "items"
    = [{| element := 0; func := VFun Demo.items_list; property := "children" |}].
Proof.
  destruct (clearChildren_purges_direct_children 0 Dom.xhtml "ul" [] [1]
              Demo.list_page) as (st' & H & _ & _ & _ & Hr).
  - reflexivity.
  - repeat constructor; simpl; tauto.
  - reflexivity.
  - exists st'. split; [exact H|]. rewrite Hr. reflexivity.
Defined.

(** ** A write shows in the page *)

Lemma bind_ok {A B} (m : M A) (f : A -> M B) st a st' :
  m st = (Ok a, st') -> bind m f st = f a st'.
Proof. intro H. unfold bind. now rewrite H. Qed.

Lemma length_update h i n : List.length (Dom.update h i n) = List.length h.
Proof.
  revert i. induction h as [|x h IH]; intros [|i]; simpl; auto.
Qed.

Lemma setTextContent_at el v ns tag attrs kids st :
  nth_error (dom st) el = Some (Elem ns tag attrs kids) ->
  setTextContent el v st = (Ok tt, with_dom st (text_set (dom st) el (to_string v))).
Proof.
  intro Hel. unfold setTextContent, text_set. rewrite Hel.
  erewrite bind_ok by (eapply set_kids_at; exact Hel).
  erewrite bind_ok by reflexivity.
  unfold Dom.appendChild.
  erewrite bind_ok by reflexivity.
  cbn [dom with_dom]. rewrite length_update.
  set (t := List.length (dom st)).
  set (h2 := Dom.update (dom st) el (Elem ns tag attrs []) ++ [Text (to_string v)]).
  assert (Hk : nth_error (List.map (strip t) h2) el
               = Some (Elem ns tag attrs [])).
  { rewrite nth_error_map. unfold h2. rewrite nth_error_app1.
    - now rewrite (nth_error_update _ _ _ _ Hel).
    - rewrite length_update. apply nth_error_Some. congruence. }
  erewrite bind_ok by (eapply childNodes_at; exact Hk).
  erewrite set_kids_at by exact Hk.
  reflexivity.
Qed.

Lemma nth_error_text_set h el s ns tag attrs kids i :
  nth_error h el = Some (Elem ns tag attrs kids) ->
  nth_error (text_set h el s) i
  = if Nat.eqb i el then Some (Elem ns tag attrs [List.length h])
    else if Nat.eqb i (List.length h) then Some (Text s)
    else option_map (strip (List.length h)) (nth_error h i).
Proof.
  intro Hel. unfold text_set. rewrite Hel.
  assert (Hlt : el < List.length h) by (apply nth_error_Some; congruence).
  destruct (Nat.eqb_spec i el) as [->|Hne].
  - eapply nth_error_update. rewrite nth_error_map, nth_error_app1.
    + now rewrite (nth_error_update _ _ _ _ Hel).
    + now rewrite length_update.
  - rewrite nth_error_update_other by congruence.
    rewrite nth_error_map.
    destruct (Nat.eqb_spec i (List.length h)) as [->|Hlen].
    + rewrite nth_error_app2; rewrite length_update; auto.
      now rewrite Nat.sub_diag.
    + destruct (Nat.lt_ge_cases i (List.length h)) as [Hi|Hi].
      * rewrite nth_error_app1 by now rewrite length_update.
        now rewrite nth_error_update_other by congruence.
      * assert (Hnone : nth_error h i = None) by now apply nth_error_None.
        rewrite Hnone. cbn [option_map].
        replace (nth_error (Dom.update h el (Elem ns tag attrs []) ++ [Text s]) i)
          with (@None dnode); auto.
        symmetry. apply nth_error_None.
        rewrite length_app, length_update. simpl. lia.
Qed.

Lemma shell_text_set h el s i :
  shell (text_set h el s) i = shell h i.
Proof.
  destruct (nth_error h el) as [[s0|ns tag attrs kids]|] eqn:Hel;
    try (unfold text_set; now rewrite Hel).
  unfold shell at 1. rewrite (nth_error_text_set _ _ _ _ _ _ _ _ Hel).
  destruct (Nat.eqb_spec i el) as [->|Hne].
  - unfold shell. now rewrite Hel.
  - destruct (Nat.eqb_spec i (List.length h)) as [->|Hlen].
    + unfold shell.
      replace (nth_error h (List.length h)) with (@None dnode); auto.
      symmetry. now apply nth_error_None.
    + unfold shell. now destruct (nth_error h i) as [[|]|].
Qed.

Lemma only_text_text_set h el s :
  Dom.is_element h el = true ->
  only_text (text_set h el s) el = Some s.
Proof.
  unfold Dom.is_element.
  destruct (nth_error h el) as [[s0|ns tag attrs kids]|] eqn:Hel;
    try discriminate.
  intros _. unfold only_text.
  assert (Hlt : el < List.length h) by (apply nth_error_Some; congruence).
  rewrite (nth_error_text_set _ _ _ _ _ _ _ _ Hel), Nat.eqb_refl.
  rewrite (nth_error_text_set _ _ _ _ _ _ _ _ Hel).
  destruct (Nat.eqb_spec (List.length h) el) as [He|_]; [lia|].
  now rewrite Nat.eqb_refl.
Qed.

Lemma only_text_text_set_other h el s i s0 :
  i <> el ->
  only_text h i = Some s0 ->
  only_text (text_set h el s) i = Some s0.
Proof.
  intros Hne Hi.
  destruct (nth_error h el) as [[s1|ns tag attrs kids]|] eqn:Hel;
    try (unfold text_set; now rewrite Hel).
  unfold only_text in *.
  destruct (nth_error h i) as [[|ns' tag' attrs' [|t0 [|]]]|] eqn:Hni;
    try discriminate.
  destruct (nth_error h t0) as [[s2|]|] eqn:Ht0; try discriminate.
  injection Hi as ->.
  assert (Hi_lt : i < List.length h) by (apply nth_error_Some; congruence).
  assert (Ht_lt : t0 < List.length h) by (apply nth_error_Some; congruence).
  rewrite (nth_error_text_set _ _ _ _ _ _ _ _ Hel).
  destruct (Nat.eqb_spec i el) as [|_]; [contradiction|].
  destruct (Nat.eqb_spec i (List.length h)) as [|_]; [lia|].
  rewrite Hni. cbn [option_map strip].
  unfold Dom.without. cbn [List.filter].
  destruct (Nat.eqb_spec t0 (List.length h)) as [|_]; [lia|]. cbn [negb].
  rewrite (nth_error_text_set _ _ _ _ _ _ _ _ Hel).
  destruct (Nat.eqb_spec t0 el) as [->|_]; [congruence|].
  destruct (Nat.eqb_spec t0 (List.length h)) as [|_]; [lia|].
  now rewrite Ht0.
Qed.

Lemma is_element_shell h i :
  Dom.is_element h i = match shell h i with Some _ => true | None => false end.
Proof.
  unfold Dom.is_element, shell. now destruct (nth_error h i) as [[|]|].
Qed.

Lemma forEach_ext {A} (l : list A) (f g : A -> M unit) :
  (forall x st, In x l -> f x st = g x st) ->
  forall st, forEach l f st = forEach l g st.
Proof.
  induction l as [|x l IH]; intros H st; simpl; auto.
  unfold bind. rewrite (H x st) by now left.
  destruct (g x st) as [[[]|e] st1]; auto.
  apply IH. intros y st' Hy. apply H. now right.
Qed.

Section TextUpdate.
Variable E : engine.
Variable sea : nat -> string -> val -> val -> val -> M unit.
Hypothesis sea_text :
  forall el value h st,
    is_hook h = true ->
    sea el "textContent" value (VStr h) (VNum 0) st = setTextContent el value st.

Lemma emit_text h b f r st :
  is_hook h = true ->
  func b = VFun f ->
  property b = "textContent" ->
  call E f (slice st h) = Ok r ->
  Dom.is_element (dom st) (element b) = true ->
  exists st',
    emitBinding E sea h b st = (Ok tt, st') /\
    store st' = store st /\
    dom st' = text_set (dom st) (element b) (to_string r).
Proof.
  intros Hh Hf Hp Hc Hel. unfold emitBinding. rewrite Hf, Hp.
  unfold Dom.is_element in Hel.
  destruct (nth_error (dom st) (element b)) as [[|ns tag attrs kids]|] eqn:Hn;
    try discriminate.
  erewrite bind_ok by reflexivity.
  erewrite bind_ok.
  2:{ erewrite bind_ok by (apply (read_hook _ h Hh)).
      unfold apply_value. erewrite bind_ok by reflexivity. unfold lift.
      match goal with
      | |- context [call E f ?a] => change a with (slice st h)
      end.
      rewrite Hc. reflexivity. }
  rewrite sea_text by exact Hh.
  erewrite setTextContent_at by (cbn [dom]; exact Hn).
  eexists. split; [reflexivity|]. split; reflexivity.
Qed.

Lemma emit_text_all h : forall l st,
  is_hook h = true ->
  NoDup (List.map element l) ->
  (forall b, In b l ->
     property b = "textContent" /\
     Dom.is_element (dom st) (element b) = true /\
     exists f r, func b = VFun f /\ call E f (slice st h) = Ok r) ->
  exists st',
    forEach l (emitBinding E sea h) st = (Ok tt, st') /\
    store st' = store st /\
    (forall i, shell (dom st') i = shell (dom st) i) /\
    (forall i s, ~ In i (List.map element l) ->
       only_text (dom st) i = Some s -> only_text (dom st') i = Some s) /\
    (forall b f r, In b l -> func b = VFun f -> call E f (slice st h) = Ok r ->
       only_text (dom st') (element b) = Some (to_string r)).
Proof.
  induction l as [|b l IH]; intros st Hh Hnd Hall.
  - exists st. repeat split; auto. intros b f r [].
  - inversion Hnd as [|? ? Hb Hl]; subst.
    destruct (Hall b (or_introl eq_refl)) as (Hp & Hel & f & r & Hf & Hc).
    destruct (emit_text h b f r st Hh Hf Hp Hc Hel) as (st1 & H1 & Hs1 & Hd1).
    assert (Hsl : slice st1 h = slice st h) by (unfold slice; now rewrite Hs1).
    destruct (IH st1 Hh Hl) as (st2 & H2 & Hs2 & Hsh2 & Hoth2 & Hnew2).
    { intros b' Hb'. destruct (Hall b' (or_intror Hb')) as (Hp' & Hel' & Hfr).
      split; auto. split.
      - rewrite is_element_shell, Hd1, shell_text_set, <- is_element_shell.
        exact Hel'.
      - now rewrite Hsl. }
    exists st2. split.
    { cbn [forEach]. erewrite bind_ok by exact H1. exact H2. }
    split; [congruence|]. split.
    { intro i. now rewrite Hsh2, Hd1, shell_text_set. }
    split.
    { intros i s Hi Hs. cbn [List.map] in Hi. apply Hoth2.
      - intro Hin. apply Hi. now right.
      - rewrite Hd1. apply only_text_text_set_other; auto.
        intros ->. apply Hi. now left. }
    intros b' f' r' [<-|Hb'] Hf' Hc'.
    + apply Hoth2; auto. rewrite Hd1.
      assert (f' = f) by congruence. subst f'.
      assert (r' = r) by congruence. subst r'.
      now apply only_text_text_set.
    + apply (Hnew2 b' f' r'); auto. now rewrite Hsl.
Qed.

End TextUpdate.

Lemma sea_refactored_text E T fuel el value h d st :
  is_hook h = true ->
  Refactored.setElementAttribute E (Refactored.render E T fuel)
    el "textContent" value (VStr h) d st
  = setTextContent el value st.
Proof.
  intro Hh. unfold Refactored.setElementAttribute.
  erewrite bind_ok by (apply (read_hook _ h Hh)). reflexivity.
Qed.

Lemma sea_monolithic_text E T fuel el value h d st :
  is_hook h = true ->
  Monolithic.setElementAttribute E (Monolithic.render E T fuel)
    el "textContent" value (VStr h) d st
  = setTextContent el value st.
Proof.
  intro Hh. unfold Monolithic.setElementAttribute.
  erewrite bind_ok by (apply (read_hook _ h Hh)). reflexivity.
Qed.

Lemma write_spec_hook E sea h v st :
  is_hook h = true ->
  write_spec E sea h v st
  = forEach (registered st h) (emitBinding E sea h)
      (with_store st (obj_set (store st) h (merged st h v))).
Proof.
  intro Hh. unfold write_spec.
  erewrite bind_ok by (apply (read_hook _ h Hh)).
  reflexivity.
Qed.

Lemma emitBinding_text_agree E sea1 sea2 h b st :
  (forall el value st,
     sea1 el "textContent" value (VStr h) (VNum 0) st
     = sea2 el "textContent" value (VStr h) (VNum 0) st) ->
  property b = "textContent" ->
  emitBinding E sea1 h b st = emitBinding E sea2 h b st.
Proof.
  intros Hsea Hp. unfold emitBinding. rewrite Hp.
  apply bind_cong. intros [] st1 _. apply bind_cong. intros value st2 _.
  apply Hsea.
Qed.



(** ** Names of properties, from the server to the page *)

Lemma to_upper_to_lower c :
  Str.is_upper c = true ->
  Str.is_lower (Str.to_lower c) = true /\ Str.to_upper (Str.to_lower c) = c.
Proof.
  destruct c as [[] [] [] [] [] [] [] []]; vm_compute; intro H;
    try discriminate H; split; reflexivity.
Qed.

Lemma to_lower_not_upper c : Str.is_upper (Str.to_lower c) = false.
Proof. destruct c as [[] [] [] [] [] [] [] []]; vm_compute; reflexivity. Qed.

Lemma camelToHyphen_nil s : Str.camelToHyphen s = "" -> s = "".
Proof.
  destruct s as [|c s]; auto. simpl. destruct (Str.is_upper c); discriminate.
Qed.

Lemma hyphenToCamelCase_cons c s :
  Ascii.eqb c "-" = false ->
  Str.hyphenToCamelCase (String c s) = String c (Str.hyphenToCamelCase s).
Proof.
  intro Hc. destruct s as [|d s]; auto.
  cbn [Str.hyphenToCamelCase]. now rewrite Hc.
Qed.

Lemma hyphenToCamelCase_camelToHyphen s :
  Str.includes "-" s = false ->
  Str.hyphenToCamelCase (Str.camelToHyphen s) = s.
Proof.
  unfold Str.includes. induction s as [|c s IH]; auto.
  cbn [Str.existsb Str.camelToHyphen]. intro H.
  apply orb_false_iff in H as [Hc Hs]. specialize (IH Hs).
  destruct (Str.is_upper c) eqn:Hu.
  - destruct (to_upper_to_lower c Hu) as [Hl Hup].
    cbn [Str.hyphenToCamelCase]. rewrite Hl, Hup.
    change (Ascii.eqb "-" "-") with true. cbn [andb]. now rewrite IH.
  - rewrite hyphenToCamelCase_cons by now rewrite Ascii.eqb_sym.
    now rewrite IH.
Qed.

(** X10.  [hyphenToCamelCase] of the injected script undoes [camelToHyphen]
    on every name that holds no hyphen. *)
Theorem camel_hyphen_round_trip :
  forall s : string,
    Str.includes "-" s = false ->
    Str.hyphenToCamelCase (Str.camelToHyphen s) = s.
Proof. exact hyphenToCamelCase_camelToHyphen. Qed.

Lemma camel_hyphen_round_trip_witness :
  Str.hyphenToCamelCase (Str.camelToHyphen "ariaLabelID") = "ariaLabelID".
Proof. apply camel_hyphen_round_trip. reflexivity. Defined.

Lemma map_append f s t :
  Str.map f (s ++ t) = (Str.map f s ++ Str.map f t)%string.
Proof. induction s as [|c s IH]; simpl; auto. now rewrite IH. Qed.

Lemma toLowerCase_camelToHyphen s :
  Str.toLowerCase (Str.camelToHyphen s) = Str.camelToHyphen s.
Proof.
  unfold Str.toLowerCase. induction s as [|c s IH]; auto.
  cbn [Str.camelToHyphen]. destruct (Str.is_upper c) eqn:Hu; cbn [Str.map].
  - rewrite IH. f_equal. f_equal.
    unfold Str.to_lower at 1. now rewrite to_lower_not_upper.
  - rewrite IH. f_equal. unfold Str.to_lower. now rewrite Hu.
Qed.

Lemma camelToHyphen_lower s :
  Str.hasUpperCase s = false -> Str.camelToHyphen s = s.
Proof.
  unfold Str.hasUpperCase. induction s as [|c s IH]; auto.
  cbn [Str.existsb Str.camelToHyphen]. intro H.
  apply orb_false_iff in H as [Hc Hs]. now rewrite Hc, IH.
Qed.

Lemma prefix_append p s : String.prefix p (p ++ s) = true.
Proof.
  induction p as [|c p IH]; simpl.
  - now destruct s.
  - destruct (ascii_dec c c); [exact IH|contradiction].
Qed.

Lemma substring_all s : String.substring 0 (String.length s) s = s.
Proof. induction s as [|c s IH]; simpl; auto. now rewrite IH. Qed.

Lemma substring_drop p n s :
  String.substring (String.length p) n (p ++ s) = String.substring 0 n s.
Proof. induction p as [|c p IH]; simpl; auto. Qed.

Lemma length_append s t :
  String.length (s ++ t) = String.length s + String.length t.
Proof. induction s as [|c s IH]; simpl; auto. Qed.

(** [(p + s).slice(p.length)] *)
Lemma slice_drop_prefix p s :
  Str.slice (p ++ s) (Z.of_nat (String.length p))
    (Z.of_nat (String.length (p ++ s))) = s.
Proof.
  unfold Str.slice. rewrite length_append.
  destruct (Z.ltb_spec (Z.of_nat (String.length p)) 0) as [H|_]; [lia|].
  destruct (Z.ltb_spec (Z.of_nat (String.length p + String.length s)) 0)
    as [H|_]; [lia|].
  rewrite Z.min_l by lia. rewrite Z.min_id.
  destruct (Z.ltb_spec (Z.of_nat (String.length p))
              (Z.of_nat (String.length p + String.length s))) as [H|H].
  - rewrite Nat2Z.id.
    replace (Z.to_nat (Z.of_nat (String.length p + String.length s)
                       - Z.of_nat (String.length p)))
      with (String.length s) by lia.
    now rewrite substring_drop, substring_all.
  - destruct s; auto. simpl in H. lia.
Qed.

Lemma hydrate_attribute_bound :
  forall (E : engine) (el : nat) (lid key src : string) (f : fn) (r : nat)
         (st : state),
    Str.includes "-" key = false ->
    (Str.hasUpperCase key = true -> Str.isCamelCase key = true) ->
    Str.startsWith "data-" (Str.camelToHyphen key) = false ->
    new_Function E ("return " ++ src) = Ok (VFun f) ->
    assoc lid (bindings st) = Some r ->
    hydrate_attribute E el lid
      (Dom.attr_name Dom.xhtml
         ("data-bind-to-"
          ++ (if Str.isCamelCase key then Str.camelToHyphen key else key)),
       src) st
    = push r {| element := el; func := VFun f; property := key |} st.
Proof.
  intros E el lid key src f r st Hhy Hcamel Hdata Hnew Hr.
  assert (Hname : (if Str.isCamelCase key then Str.camelToHyphen key else key)
                  = Str.camelToHyphen key).
  { destruct (Str.isCamelCase key) eqn:Hc; auto.
    destruct (Str.hasUpperCase key) eqn:Hu.
    - specialize (Hcamel eq_refl). discriminate.
    - now rewrite camelToHyphen_lower. }
  rewrite Hname. unfold Dom.attr_name. rewrite String.eqb_refl.
  unfold Str.toLowerCase. rewrite map_append.
  change (Str.map Str.to_lower (Str.camelToHyphen key))
    with (Str.toLowerCase (Str.camelToHyphen key)).
  rewrite toLowerCase_camelToHyphen.
  change (Str.map Str.to_lower "data-bind-to-") with "data-bind-to-".
  unfold hydrate_attribute. cbn [fst snd].
  unfold Str.startsWith at 1. rewrite prefix_append.
  change 13%Z with (Z.of_nat (String.length "data-bind-to-")).
  rewrite slice_drop_prefix, Hdata. cbn [negb].
  rewrite hyphenToCamelCase_camelToHyphen by exact Hhy.
  rewrite Hnew. unfold bind, bindings_get, gets. now rewrite Hr.
Qed.

(** X11.  The name of a bound property survives the trip from the server
    to the page.  For a key with no hyphen, that has a capital only when it
    is in camel case, and whose hyphenated form does not begin with
    [data-]: from the attribute the server writes for the key on an element
    of the XHTML namespace, the injected script registers an entry whose
    property is the key itself. *)
Theorem hydrate_recovers_property :
  forall (E : engine) (el : nat) (lid key src : string) (f : fn) (r : nat)
         (st : state),
    Str.includes "-" key = false ->
    (Str.hasUpperCase key = true -> Str.isCamelCase key = true) ->
    Str.startsWith "data-" (Str.camelToHyphen key) = false ->
    new_Function E ("return " ++ src) = Ok (VFun f) ->
    assoc lid (bindings st) = Some r ->
    hydrate_attribute E el lid
      (Dom.attr_name Dom.xhtml
         ("data-bind-to-"
          ++ (if Str.isCamelCase key then Str.camelToHyphen key else key)),
       src) st
    = push r {| element := el; func := VFun f; property := key |} st.
Proof. exact hydrate_attribute_bound. Qed.

Lemma hydrate_recovers_property_witness :
  hydrate_attribute Demo.browser 0 "person"
    (Dom.attr_name Dom.xhtml "data-bind-to-text-content",
     "(person) => person.name")
    (snd (bindings_set "person" 0 (snd (new_array [] empty_state))))
  = push 0 {| element := 0; func := VFun Demo.person_name;
              property := "textContent" |}
      (snd (bindings_set "person" 0 (snd (new_array [] empty_state)))).
Proof.
  exact (hydrate_recovers_property Demo.browser 0 "person" "textContent"
           "(person) => person.name" Demo.person_name 0
           (snd (bindings_set "person" 0 (snd (new_array [] empty_state))))
           eq_refl (fun _ => eq_refl) eq_refl eq_refl eq_refl).
Defined.

(** ** The key a function is registered under *)

Lemma indexOf_first c pre rest :
  Str.includes c pre = false ->
  Str.indexOf c (pre ++ String c rest) = Z.of_nat (String.length pre).
Proof.
  unfold Str.includes. induction pre as [|a pre IH]; simpl.
  - now rewrite Ascii.eqb_refl.
  - intro H. apply orb_false_iff in H as [Ha Hp].
    rewrite Ascii.eqb_sym, Ha, (IH Hp).
    destruct (Z.ltb_spec (Z.of_nat (String.length pre)) 0); lia.
Qed.

Lemma includes_append c s t :
  Str.includes c (s ++ t) = Str.includes c s || Str.includes c t.
Proof.
  unfold Str.includes. induction s as [|a s IH]; simpl; auto.
  now rewrite IH, orb_assoc.
Qed.

Lemma substring_prefix s t :
  String.substring 0 (String.length s) (s ++ t) = s.
Proof.
  induction s as [|c s IH]; simpl.
  - now destruct t.
  - now rewrite IH.
Qed.

Lemma append_assoc (s t u : string) : ((s ++ t) ++ u = s ++ (t ++ u))%string.
Proof. induction s as [|c s IH]; simpl; auto. now rewrite IH. Qed.

(** [(pre + mid + post).slice(pre.length, pre.length + mid.length)] *)
Lemma slice_middle pre mid post :
  Str.slice (pre ++ mid ++ post) (Z.of_nat (String.length pre))
    (Z.of_nat (String.length pre + String.length mid)) = mid.
Proof.
  unfold Str.slice. rewrite !length_append.
  destruct (Z.ltb_spec (Z.of_nat (String.length pre)) 0) as [H|_]; [lia|].
  destruct (Z.ltb_spec (Z.of_nat (String.length pre + String.length mid)) 0)
    as [H|_]; [lia|].
  rewrite !Z.min_l by lia.
  destruct (Z.ltb_spec (Z.of_nat (String.length pre))
              (Z.of_nat (String.length pre + String.length mid))) as [H|H].
  - rewrite Nat2Z.id.
    replace (Z.to_nat (Z.of_nat (String.length pre + String.length mid)
                       - Z.of_nat (String.length pre)))
      with (String.length mid) by lia.
    now rewrite substring_drop, substring_prefix.
  - destruct mid; auto. simpl in H. lia.
Qed.

(** X12.  The key a function is registered under is its first parameter.
    When the text of the function is [pre(params)rest], with no parenthesis
    in [pre] and no closing one in [params], the key is the text before the
    first comma of [params], without the blanks around it (the empty text
    for a function of no parameter). *)
Theorem listenerId_of_first_parameter :
  forall (f : fn) (pre params rest : string),
    fn_src f = (pre ++ "(" ++ params ++ ")" ++ rest)%string ->
    Str.includes "(" pre = false ->
    Str.includes ")" pre = false ->
    Str.includes ")" params = false ->
    listenerId_of f = VStr (Str.trim (hd "" (Str.split "," params))).
Proof.
  intros f pre params rest Hsrc Hopen Hclose Hpar.
  assert (Hi1 : Str.indexOf "(" (fn_src f) = Z.of_nat (String.length pre)).
  { rewrite Hsrc. apply (indexOf_first "(" pre _ Hopen). }
  assert (Hi2 : Str.indexOf ")" (fn_src f)
                = Z.of_nat (String.length (pre ++ "(")
                            + String.length params)).
  { rewrite Hsrc.
    replace (pre ++ "(" ++ params ++ ")" ++ rest)%string
      with ((pre ++ "(" ++ params) ++ String ")" rest)%string
      by (rewrite append_assoc; reflexivity).
    rewrite (indexOf_first ")").
    - rewrite !length_append. simpl. lia.
    - rewrite !includes_append, Hclose, Hpar. reflexivity. }
  assert (Hsl : Str.slice (fn_src f) (Z.of_nat (String.length (pre ++ "(")))
                  (Z.of_nat (String.length (pre ++ "(")
                             + String.length params)) = params).
  { rewrite Hsrc.
    replace (pre ++ "(" ++ params ++ ")" ++ rest)%string
      with ((pre ++ "(") ++ params ++ (")" ++ rest))%string
      by (rewrite append_assoc; reflexivity).
    apply slice_middle. }
  unfold listenerId_of. cbv zeta. rewrite Hi1, Hi2.
  replace (Z.of_nat (String.length pre) + 1)%Z
    with (Z.of_nat (String.length (pre ++ "(")))
    by (rewrite length_append; simpl; lia).
  rewrite Hsl.
  destruct (split_cons "," params) as (k & r & ->). reflexivity.
Qed.

Lemma listenerId_of_first_parameter_witness :
  listenerId_of {| fn_src := "function ( items , index ) { return items.title; }";
                   fn_id := 7 |}
  = VStr "items".
Proof.
  exact (listenerId_of_first_parameter
           {| fn_src := "function ( items , index ) { return items.title; }";
              fn_id := 7 |}
           "function " " items , index " " { return items.title; }"
           eq_refl eq_refl eq_refl eq_refl).
Defined.

(** ** Plain attributes *)

Lemma assoc_del_attr_other (a : list (string * string)) n k :
  k <> n -> assoc k (Dom.del_attr a n) = assoc k a.
Proof.
  intro Hne. induction a as [|[k' v] a IH]; simpl; auto.
  destruct (String.eqb_spec k' n) as [->|Hn]; simpl.
  - rewrite IH. destruct (String.eqb_spec n k); auto. congruence.
  - now rewrite IH.
Qed.

Lemma toLowerCase_lower s :
  Str.hasUpperCase s = false -> Str.toLowerCase s = s.
Proof.
  unfold Str.hasUpperCase, Str.toLowerCase.
  induction s as [|c s IH]; auto. cbn [Str.existsb Str.map]. intro H.
  apply orb_false_iff in H as [Hc Hs]. rewrite (IH Hs).
  unfold Str.to_lower. now rewrite Hc.
Qed.

Lemma removeAttribute_at el k ns tag attrs kids st :
  nth_error (dom st) el = Some (Elem ns tag attrs kids) ->
  Dom.removeAttribute el k st
  = (Ok tt, with_dom st (Dom.update (dom st) el
       (Elem ns tag (Dom.del_attr attrs (Dom.attr_name ns k)) kids))).
Proof.
  intro H. unfold Dom.removeAttribute, Dom.elem, Dom.node, bind. now rewrite H.
Qed.

Lemma dom_setAttribute_at el k v ns tag attrs kids st :
  nth_error (dom st) el = Some (Elem ns tag attrs kids) ->
  Dom.setAttribute el k v st
  = (Ok tt, with_dom st (Dom.update (dom st) el
       (Elem ns tag (Dom.set_attr attrs (Dom.attr_name ns k) v) kids))).
Proof.
  intro H. unfold Dom.setAttribute, Dom.elem, Dom.node, bind. now rewrite H.
Qed.

Lemma dom_setAttributeNS_at el k v ns tag attrs kids st :
  nth_error (dom st) el = Some (Elem ns tag attrs kids) ->
  Dom.setAttributeNS el k v st
  = (Ok tt, with_dom st (Dom.update (dom st) el
       (Elem ns tag (Dom.set_attr attrs k v) kids))).
Proof.
  intro H. unfold Dom.setAttributeNS, Dom.elem, Dom.node, bind. now rewrite H.
Qed.

Lemma attr_name_cases ns k :
  Dom.attr_name ns k = k \/ Dom.attr_name ns k = Str.toLowerCase k.
Proof. unfold Dom.attr_name. destruct (ns =? Dom.xhtml)%string; auto. Qed.

Lemma setAttribute_at el key v ns tag attrs kids st :
  nth_error (dom st) el = Some (Elem ns tag attrs kids) ->
  setAttribute el key v st
  = (Ok tt, with_dom st (Dom.update (dom st) el
       (Elem ns tag (attr_step ns attrs key (to_string v)) kids))).
Proof.
  intro Hel. unfold setAttribute, attr_step.
  erewrite bind_ok by (apply (removeAttribute_at _ _ _ _ _ _ _ Hel)).
  set (st1 := with_dom st _).
  assert (Hel1 : nth_error (dom st1) el
                 = Some (Elem ns tag (Dom.del_attr attrs (Dom.attr_name ns key)) kids)).
  { unfold st1. cbn [dom with_dom]. eapply nth_error_update; eauto. }
  destruct (Str.hasUpperCase key) eqn:Hu.
  - rewrite (dom_setAttributeNS_at _ _ _ _ _ _ _ _ Hel1).
    unfold st1, with_dom. cbn [dom store bindings arrays log].
    now rewrite update_update.
  - rewrite (dom_setAttribute_at _ _ _ _ _ _ _ _ Hel1).
    assert (Hn : Dom.attr_name ns key = key).
    { destruct (attr_name_cases ns key) as [-> | ->]; auto.
      now apply toLowerCase_lower. }
    rewrite Hn. unfold st1, with_dom. cbn [dom store bindings arrays log].
    now rewrite update_update.
Qed.

Lemma assoc_attr_step_same ns attrs key v :
  assoc key (attr_step ns attrs key v) = Some v.
Proof. apply assoc_obj_set_same. Qed.

Lemma assoc_attr_step_other ns attrs key v k :
  k <> key -> k <> Dom.attr_name ns key ->
  assoc k (attr_step ns attrs key v) = assoc k attrs.
Proof.
  intros Hk Hn. unfold attr_step, Dom.set_attr.
  rewrite assoc_obj_set_other by congruence.
  now apply assoc_del_attr_other.
Qed.

Lemma sea_refactored_plain E self el key v depth st :
  is_nonAttribute key = false ->
  Refactored.setElementAttribute E self el key v VNull depth st
  = setAttribute el key v st.
Proof.
  intro Hkey. unfold Refactored.setElementAttribute.
  erewrite bind_ok by (apply (read_hook st "null" eq_refl)).
  now rewrite Hkey.
Qed.

Lemma sea_monolithic_plain E self el key v depth st :
  is_nonAttribute key = false ->
  Monolithic.setElementAttribute E self el key v VNull depth st
  = setAttribute el key v st.
Proof.
  intro Hkey. unfold Monolithic.setElementAttribute.
  erewrite bind_ok by (apply (read_hook st "null" eq_refl)).
  now rewrite Hkey.
Qed.



(** ** The assets of a page *)

Lemma found_spec present name s :
  In s (Layout.found present name) ->
  s = ("/" ++ name)%string /\ present name = true.
Proof.
  unfold Layout.found. destruct (present name) eqn:Hp; simpl; [|tauto].
  intros [<-|[]]. auto.
Qed.

Lemma found_each present (f : string -> string) paths s :
  In s (List.flat_map (fun p => Layout.found present (f p)) paths) ->
  exists name, s = ("/" ++ name)%string /\ present name = true.
Proof.
  rewrite in_flat_map. intros (p & _ & Hs).
  exists (f p). now apply found_spec.
Qed.



Lemma last_turn (p : Layout.params) (segs : list string) (s : string) :
  Layout.is_wildcard p = false ->
  s <> "*" ->
  Layout.pushed p (segs ++ [s]) (List.length segs)
  = [Layout.join (segs ++ [s]);
     (Layout.join (segs ++ [s]) ++ "/" ++ s)%string].
Proof.
  intros Hw Hs. unfold Layout.pushed. rewrite Hw. cbn [andb orb].
  replace (firstn (List.length segs + 1) (segs ++ [s])) with (segs ++ [s]).
  2:{ symmetry. apply firstn_all2. rewrite length_app. simpl. lia. }
  assert (Hlast : Layout.shown (segs ++ [s])
                    (Z.of_nat (List.length (segs ++ [s])) - 1) = s).
  { unfold Layout.shown. rewrite length_app. cbn [List.length].
    destruct (Z.ltb_spec (Z.of_nat (List.length segs + 1) - 1) 0); [lia|].
    replace (Z.to_nat (Z.of_nat (List.length segs + 1) - 1))
      with (List.length segs) by lia.
    now rewrite nth_middle. }
  rewrite Hlast.
  destruct (String.eqb_spec s "*"); [contradiction|reflexivity].
Qed.

(** X15.  A page that does not inherit gets the assets of its own path
    only.  When the page is no wildcard page, its last segment [s] is not
    [*] and the longer of its two names holds no [_$], the names tried are
    the path and the path followed by [s], whatever the parents are. *)
Theorem own_assets_only :
  forall (p : Layout.params) (segs : list string) (s : string),
    Layout.urlPaths p = segs ++ [s] ->
    Layout.is_wildcard p = false ->
    truthy (Layout.inherit p) = false ->
    s <> "*" ->
    Layout.includes "_$" (Layout.join (segs ++ [s]) ++ "/" ++ s) = false ->
    Layout.filepaths p
    = Ok [Layout.join (segs ++ [s]);
          (Layout.join (segs ++ [s]) ++ "/" ++ s)%string].
Proof.
  intros p segs s Hu Hw Hi Hs Hinc.
  unfold Layout.filepaths, Layout.candidates. rewrite Hi, Hu.
  rewrite length_app. cbn [List.length].
  rewrite seq_app, flat_map_app. cbn [List.seq List.flat_map Nat.add].
  rewrite app_nil_r, (last_turn p segs s Hw Hs).
  set (before := List.flat_map _ _).
  rewrite rev_app_distr. cbn [List.rev List.app]. rewrite Hinc.
  rewrite length_app. cbn [List.length].
  destruct (Nat.ltb_spec 2 (List.length before + 2)) as [Hlt|Hge].
  - replace (List.length before + 2 - 2) with (List.length before) by lia.
    now rewrite nth_middle.
  - destruct before; [reflexivity|simpl in Hge; lia].
Qed.

Lemma own_assets_only_witness :
  Layout.filepaths (Site.page "/en/docs/intro")
  = Ok ["docs/intro"; "docs/intro/intro"].
Proof.
  apply (own_assets_only (Site.page "/en/docs/intro") ["docs"] "intro");
    try reflexivity.
  discriminate.
Defined.

(** X16.  The root is the page [home]: unless [home] is the path modifier,
    the path [/] gets the assets of the path [/home]. *)
Theorem root_is_home :
  forall (present : string -> bool) (d m : option string) (w i : val),
    m <> Some "home" ->
    Layout.discover present
      {| Layout.dist := d; Layout.path := "/"; Layout.pathModifier := m;
         Layout.wildcard := w; Layout.inherit := i |}
    = Layout.discover present
        {| Layout.dist := d; Layout.path := "/home"; Layout.pathModifier := m;
           Layout.wildcard := w; Layout.inherit := i |}.
Proof.
  intros present d m w i Hm.
  assert (Hu : forall q q',
             Layout.urlPaths q = Layout.urlPaths q' ->
             Layout.dist q = Layout.dist q' ->
             Layout.wildcard q = Layout.wildcard q' ->
             Layout.inherit q = Layout.inherit q' ->
             Layout.discover present q = Layout.discover present q').
  { intros q q' H1 H2 H3 H4.
    unfold Layout.discover, Layout.filepaths, Layout.candidates, Layout.pushed,
      Layout.dist_of, Layout.is_wildcard.
    now rewrite H1, H2, H3, H4. }
  apply Hu; try reflexivity.
  unfold Layout.urlPaths, Layout.is_modifier.
  cbn [Layout.path Layout.pathModifier].
  change ("/" =? "/")%string with true.
  change ("/home" =? "/")%string with false.
  change (Str.split "/" "/home") with [""; "home"].
  cbn [List.filter]. change ("" =? "")%string with true.
  change ("home" =? "")%string with false. cbn [negb andb].
  destruct m as [m|]; auto.
  destruct (String.eqb_spec "home" m) as [<-|]; auto. congruence.
Qed.

Lemma root_is_home_witness :
  Layout.discover Site.on_disk (Site.page "/")
  = Layout.discover Site.on_disk (Site.page "/home").
Proof.
  apply (root_is_home Site.on_disk None (Some "en") VUndef VUndef).
  discriminate.
Defined.

(** X17.  A path with nothing in it but the path modifier cannot be laid
    out: when every segment of a path other than [/] is empty or the path
    modifier and the page does not inherit, the constructor ends in a
    [TypeError], whatever is on the disk. *)
Theorem modifier_only_path_throws :
  forall (present : string -> bool) (p : Layout.params),
    Layout.path p <> "/" ->
    List.forallb (fun part => (part =? "")%string || Layout.is_modifier p part)
      (Str.split "/" (Layout.path p)) = true ->
    truthy (Layout.inherit p) = false ->
    Layout.discover present p
    = Throw (TypeError "Cannot read properties of undefined").
Proof.
  intros present p Hroot Hall Hi.
  assert (Hu : Layout.urlPaths p = []).
  { unfold Layout.urlPaths.
    destruct (String.eqb_spec (Layout.path p) "/"); [contradiction|].
    induction (Str.split "/" (Layout.path p)) as [|part l IH]; auto.
    cbn [List.forallb List.filter] in *.
    apply andb_true_iff in Hall as [Hpart Hl].
    rewrite <- negb_orb, Hpart. cbn [negb]. auto. }
  unfold Layout.discover, Layout.filepaths, Layout.candidates.
  now rewrite Hi, Hu.
Qed.

Lemma modifier_only_path_throws_witness :
  Layout.discover Site.on_disk (Site.page "/en/")
  = Throw (TypeError "Cannot read properties of undefined").
Proof.
  apply modifier_only_path_throws; [discriminate|reflexivity|reflexivity].
Defined.

(** X18.  A wildcard page of one segment looks for [/undefined_$], twice,
    and for nothing else: the segment itself is not used. *)
Theorem wildcard_of_one_segment :
  forall (p : Layout.params) (s : string),
    Layout.urlPaths p = [s] ->
    Layout.is_wildcard p = true ->
    Layout.filepaths p = Ok ["/undefined_$"; "/undefined_$"].
Proof.
  intros p s Hu Hw.
  unfold Layout.filepaths, Layout.candidates, Layout.pushed.
  rewrite Hu, Hw. cbn. now destruct (truthy (Layout.inherit p)).
Qed.

Lemma wildcard_of_one_segment_witness :
  Layout.filepaths (Site.wildcard_page "/en/products")
  = Ok ["/undefined_$"; "/undefined_$"].
Proof.
  apply (wildcard_of_one_segment (Site.wildcard_page "/en/products") "products");
    reflexivity.
Defined.

(** ** Descriptors with nothing to evaluate *)

Lemma with_dom_same st : with_dom st (dom st) = st.
Proof. now destruct st. Qed.

Lemma update_last (h : heap) x y :
  Dom.update (h ++ [x]) (List.length h) y = h ++ [y].
Proof. induction h as [|z h IH]; simpl; auto. now rewrite IH. Qed.

Lemma assoc_NoDup_In {A} (o : list (string * A)) k v :
  NoDup (List.map fst o) -> In (k, v) o -> assoc k o = Some v.
Proof.
  induction o as [|[k' v'] o IH]; simpl; [tauto|].
  intros Hnd [Heq|Hin]; inversion Hnd as [|? ? Hk Ho]; subst.
  - injection Heq as -> ->. now rewrite String.eqb_refl.
  - destruct (String.eqb_spec k' k) as [->|Hne]; auto.
    exfalso. apply Hk. apply in_map_iff. now exists (k, v).
Qed.

Lemma static_no_special o k :
  static_descriptor o = true ->
  is_nonAttribute k = true -> k <> "tagName" ->
  assoc k o = None.
Proof.
  unfold static_descriptor. intros Hs Hk Ht.
  induction o as [|[k' v'] o IH]; auto.
  cbn [List.forallb fst snd assoc] in *.
  apply andb_true_iff in Hs as [Hkv Ho].
  apply andb_true_iff in Hkv as [_ Hkey].
  destruct (String.eqb_spec k' k) as [->|Hne]; auto.
  rewrite Hk in Hkey. cbn [negb] in Hkey. rewrite orb_false_r in Hkey.
  apply String.eqb_eq in Hkey. contradiction.
Qed.

Lemma forEach_cons {A} (x : A) l (f : A -> M unit) st :
  forEach (x :: l) f st = bind (f x) (fun _ => forEach l f) st.
Proof. reflexivity. Qed.

Section StaticLoop.
Variable E : engine.
Variable sea : nat -> string -> val -> val -> val -> M unit.
Hypothesis sea_plain :
  forall el key v depth st,
    is_nonAttribute key = false ->
    sea el key v VNull depth st = setAttribute el key v st.
Hypothesis sea_tagName :
  forall el v depth st, sea el "tagName" v VNull depth st = (Ok tt, st).

Variable template : val.
Variable el : nat.
Variable depth : val.
Variables ns tag : string.
Variable kids : list nat.

Lemma static_loop : forall (l : obj) attrs st,
  (forall kv, In kv l -> get_prop template (fst kv) = snd kv) ->
  static_descriptor l = true ->
  nth_error (dom st) el = Some (Elem ns tag attrs kids) ->
  forEach (List.map fst l) (fun key =>
    let value := get_prop template key in
    value <- (if isStringifiedFunction value
              then lift (parseStringifiedFunction E value)
              else ret value) ;;
    match value with
    | VFun f => processFunctionValue E sea el key f depth
    | VNull => ret tt
    | _ => sea el key value VNull depth
    end)%js st
  = (Ok tt, with_dom st (Dom.update (dom st) el
                           (Elem ns tag (attrs_of ns l attrs) kids))).
Proof.
  induction l as [|[k v] l IH]; intros attrs st Hget Hstatic Hel.
  - cbn [List.map forEach attrs_of List.fold_left]. unfold ret.
    now rewrite (update_same _ _ _ Hel), with_dom_same.
  - cbn [static_descriptor List.forallb fst snd] in Hstatic.
    apply andb_true_iff in Hstatic as [Hkv Hl].
    apply andb_true_iff in Hkv as [Hv Hk].
    unfold static_value in Hv.
    apply andb_true_iff in Hv as [Hv Hfun].
    apply andb_true_iff in Hv as [Hpat Hnull].
    apply negb_true_iff in Hpat, Hnull.
    pose proof (Hget (k, v) (or_introl eq_refl)) as Hkget. cbn [fst snd] in Hkget.
    set (attrs1 := if (k =? "tagName")%string then attrs
                   else attr_step ns attrs k (to_string v)).
    set (st1 := with_dom st (Dom.update (dom st) el (Elem ns tag attrs1 kids))).
    assert (Hstep :
              (let value := get_prop template k in
               value <- (if isStringifiedFunction value
                         then lift (parseStringifiedFunction E value)
                         else ret value) ;;
               match value with
               | VFun f => processFunctionValue E sea el k f depth
               | VNull => ret tt
               | _ => sea el k value VNull depth
               end)%js st = (Ok tt, st1)).
    { cbv zeta. rewrite Hkget, Hpat.
      erewrite bind_ok by reflexivity.
      assert (Hsea : sea el k v VNull depth st = (Ok tt, st1)).
      { unfold st1, attrs1.
        destruct (String.eqb_spec k "tagName") as [->|Hne].
        - rewrite sea_tagName, (update_same _ _ _ Hel). now rewrite with_dom_same.
        - cbn [orb] in Hk. apply negb_true_iff in Hk.
          rewrite sea_plain by exact Hk. now apply setAttribute_at. }
      destruct v; try discriminate; exact Hsea. }
    change (List.map fst ((k, v) :: l)) with (k :: List.map fst l).
    rewrite forEach_cons. erewrite bind_ok by exact Hstep.
    etransitivity; [apply (IH attrs1 st1)|].
    + intros kv Hin. apply Hget. now right.
    + exact Hl.
    + unfold st1. cbn [dom with_dom]. eapply nth_error_update; eauto.
    + unfold st1, with_dom. cbn [dom store bindings arrays log].
      rewrite update_update. reflexivity.
Qed.

End StaticLoop.

Lemma assoc_del_attr_none (a : list (string * string)) n k :
  assoc k a = None -> assoc k (Dom.del_attr a n) = None.
Proof.
  induction a as [|[k' v] a IH]; simpl; auto.
  destruct (String.eqb_spec k' k) as [->|Hne]; [discriminate|].
  intro H. destruct (k' =? n)%string; simpl; auto.
  destruct (String.eqb_spec k' k); [contradiction|auto].
Qed.

Lemma attrs_of_other ns k : forall (l : obj) attrs,
  (forall kv, In kv l ->
     fst kv = "tagName" \/ (k <> fst kv /\ k <> Dom.attr_name ns (fst kv))) ->
  assoc k (attrs_of ns l attrs) = assoc k attrs.
Proof.
  induction l as [|[k' v'] l IH]; intros attrs H; auto.
  cbn [attrs_of List.fold_left fst snd].
  change (List.fold_left _ l ?a) with (attrs_of ns l a).
  rewrite IH by (intros kv Hin; apply H; now right).
  destruct (H (k', v') (or_introl eq_refl)) as [Ht|[Hk Hn]]; cbn [fst] in *.
  - subst k'. reflexivity.
  - destruct (k' =? "tagName")%string; auto.
    now apply assoc_attr_step_other.
Qed.

Lemma attrs_of_absent ns k : forall (l : obj) attrs,
  (forall kv, In kv l -> fst kv = "tagName" \/ k <> fst kv) ->
  assoc k attrs = None ->
  assoc k (attrs_of ns l attrs) = None.
Proof.
  induction l as [|[k' v'] l IH]; intros attrs H Ha; auto.
  cbn [attrs_of List.fold_left fst snd].
  change (List.fold_left _ l ?a) with (attrs_of ns l a).
  apply IH; [intros kv Hin; apply H; now right|].
  destruct (String.eqb_spec k' "tagName") as [->|Hne]; auto.
  destruct (H (k', v') (or_introl eq_refl)) as [Ht|Hk]; cbn [fst] in *;
    [contradiction|].
  unfold attr_step, Dom.set_attr.
  rewrite assoc_obj_set_other by congruence.
  now apply assoc_del_attr_none.
Qed.

Lemma attrs_of_present ns : forall (l : obj) attrs k v,
  NoDup (List.map fst l) ->
  (forall k1 k2, In k1 (List.map fst l) -> In k2 (List.map fst l) ->
     k1 = Dom.attr_name ns k2 -> k1 = k2) ->
  In (k, v) l -> k <> "tagName" ->
  assoc k (attrs_of ns l attrs) = Some (to_string v).
Proof.
  induction l as [|[k' v'] l IH]; intros attrs k v Hnd Hfree Hin Hk; [easy|].
  inversion Hnd as [|? ? Hk' Hl]; subst.
  cbn [attrs_of List.fold_left fst snd].
  change (List.fold_left _ l ?a) with (attrs_of ns l a).
  destruct Hin as [Heq|Hin].
  - injection Heq as -> ->.
    rewrite attrs_of_other.
    + destruct (String.eqb_spec k "tagName"); [contradiction|].
      apply assoc_attr_step_same.
    + intros [k2 v2] Hin2. right. cbn [fst].
      assert (Hin2' : In k2 (List.map fst l))
        by (apply in_map_iff; now exists (k2, v2)).
      split.
      * intros ->. contradiction.
      * intro Heq. apply Hk'.
        rewrite (Hfree k k2); auto; [now left|now right].
  - apply IH; auto.
    intros k1 k2 H1 H2. apply Hfree; now right.
Qed.

Lemma sea_refactored_tagName E self el v depth st :
  Refactored.setElementAttribute E self el "tagName" v VNull depth st
  = (Ok tt, st).
Proof.
  unfold Refactored.setElementAttribute.
  erewrite bind_ok by (apply (read_hook st "null" eq_refl)). reflexivity.
Qed.

Lemma sea_monolithic_tagName E self el v depth st :
  Monolithic.setElementAttribute E self el "tagName" v VNull depth st
  = (Ok tt, st).
Proof.
  unfold Monolithic.setElementAttribute.
  erewrite bind_ok by (apply (read_hook st "null" eq_refl)). reflexivity.
Qed.

Section StaticRender.
Variable E : engine.
Variable T : script.
Variable o : obj.
Variable tag : string.
Hypothesis Htag : assoc "tagName" o = Some (VStr tag).
Hypothesis Hnonempty : tag <> "".
Hypothesis Hnodup : NoDup (List.map fst o).
Hypothesis Hstatic : static_descriptor o = true.

Let made (st : state) : state :=
  with_dom st (dom st ++ [Elem (namespace_of tag) tag
                            (attrs_of (namespace_of tag) o []) []]).

Lemma static_get kv : In kv o -> get_prop (VObj o) (fst kv) = snd kv.
Proof.
  destruct kv as [k v]. intro Hin. cbn [get_prop fst snd]. unfold obj_get.
  now rewrite (assoc_NoDup_In o k v Hnodup Hin).
Qed.

Lemma static_alloc st :
  nth_error (dom st ++ [Elem (namespace_of tag) tag [] []]) (List.length (dom st))
  = Some (Elem (namespace_of tag) tag [] []).
Proof. now rewrite nth_error_app2, Nat.sub_diag. Qed.

Lemma static_tag_truthy : truthy (VStr tag) = true.
Proof.
  cbn [truthy]. destruct (String.eqb_spec tag ""); [contradiction|reflexivity].
Qed.

(** Up to the end of the loop over the keys. *)
Lemma Refactored_render_body_made self cb depth0 st :
  Refactored.render_body E T self (VObj o) cb depth0 st
  = (let depth := if is_undefined depth0 then VNum 0 else depth0 in
     let element := List.length (dom st) in
     if isServer E && is_zero depth then handleServerSideRendering E T element
     else if truthy cb
     then
       match cb with
       | VFun f => run_callback E f element ;; ret RUndefined
       | _ =>
           h <- gets dom ;;
           match querySelector E h None (to_string cb) with
           | Some parent => Dom.appendChild parent element ;; ret RUndefined
           | None => throw (TypeError "Cannot read properties of null")
           end
       end
     else ret (RNode element))%js (made st).
Proof.
  unfold Refactored.render_body. cbn [truthy negb].
  assert (Hif : get_prop (VObj o) "if" = VUndef).
  { cbn [get_prop]. unfold obj_get.
    rewrite (static_no_special o "if" Hstatic); auto. discriminate. }
  assert (Ht : get_prop (VObj o) "tagName" = VStr tag).
  { cbn [get_prop]. unfold obj_get. now rewrite Htag. }
  cbv zeta. rewrite Hif, Ht, static_tag_truthy. cbn [is_false to_string].
  erewrite bind_ok by reflexivity.
  erewrite bind_ok.
  2:{ apply (static_loop E (Refactored.setElementAttribute E self)
               (fun el key v d st => sea_refactored_plain E self el key v d st)
               (sea_refactored_tagName E self)
               (VObj o) _ _ (namespace_of tag) tag [] o []).
      - apply static_get.
      - exact Hstatic.
      - apply static_alloc. }
  unfold made, with_dom.
  cbn [dom store bindings arrays log]. now rewrite update_last.
Qed.

Lemma Monolithic_render_body_made self cb depth0 st :
  Monolithic.render_body E T self (VObj o) cb depth0 st
  = (let depth := if is_undefined depth0 then VNum 0 else depth0 in
     let element := List.length (dom st) in
     (if truthy cb then throw (ReferenceError "data") else ret tt) ;;
     if isServer E && is_zero depth then handleServerSideRendering E T element
     else if is_zero depth then throw (ReferenceError "data")
     else ret (RNode element))%js (made st).
Proof.
  unfold Monolithic.render_body. cbn [is_null is_undefined orb].
  assert (Hif : List.existsb (String.eqb "if") (own_keys (VObj o)) = false).
  { change (own_keys (VObj o)) with (List.map fst o).
    pose proof (static_no_special o "if" Hstatic eq_refl) as Hno.
    assert (Hnone : assoc "if" o = None) by (apply Hno; discriminate).
    clear -Hnone. induction o as [|[k v] l IH]; auto.
    cbn [assoc List.map List.existsb fst] in *.
    rewrite String.eqb_sym.
    destruct (k =? "if")%string; [discriminate|]. cbn [orb]. auto. }
  assert (Ht : get_prop (VObj o) "tagName" = VStr tag).
  { cbn [get_prop]. unfold obj_get. now rewrite Htag. }
  cbv zeta. rewrite Hif, Ht. cbn [andb is_undefined negb to_string].
  erewrite bind_ok by reflexivity.
  erewrite bind_ok.
  2:{ apply (static_loop E (Monolithic.setElementAttribute E self)
               (fun el key v d st => sea_monolithic_plain E self el key v d st)
               (sea_monolithic_tagName E self)
               (VObj o) _ _ (namespace_of tag) tag [] o []).
      - apply static_get.
      - exact Hstatic.
      - apply static_alloc. }
  unfold made, with_dom.
  cbn [dom store bindings arrays log]. now rewrite update_last.
Qed.

Variable depth : val.
Hypothesis Hundef : is_undefined depth = false.
Hypothesis Hnested : is_zero depth = false.

Lemma Refactored_render_body_static self st :
  Refactored.render_body E T self (VObj o) VNull depth st
  = (Ok (RNode (List.length (dom st))), made st).
Proof.
  rewrite Refactored_render_body_made. cbv zeta.
  now rewrite Hundef, Hnested, andb_false_r.
Qed.

Lemma Monolithic_render_body_static self st :
  Monolithic.render_body E T self (VObj o) VNull depth st
  = (Ok (RNode (List.length (dom st))), made st).
Proof.
  rewrite Monolithic_render_body_made. cbv zeta. cbn [truthy].
  erewrite bind_ok by reflexivity.
  now rewrite Hundef, Hnested, andb_false_r.
Qed.

End StaticRender.



(** ** On the server nothing is registered *)

Section Keeps.
Variable a : list (list binding).

Lemma keeps_pure {A} (m : M A) :
  (forall st, snd (m st) = st) -> keeps a m.
Proof. intros H st Hst. now rewrite H. Qed.

Lemma keeps_ret {A} (x : A) : keeps a (ret x).
Proof. now apply keeps_pure. Qed.

Lemma keeps_throw {A} (e : exn) : keeps a (@throw A e).
Proof. now apply keeps_pure. Qed.

Lemma keeps_lift {A} (r : result A) : keeps a (lift r).
Proof. now apply keeps_pure. Qed.

Lemma keeps_gets {A} (f : state -> A) : keeps a (gets f).
Proof. now apply keeps_pure. Qed.

Lemma keeps_data_get k : keeps a (data_get k).
Proof. now apply keeps_pure. Qed.

Lemma keeps_bind {A B} (m : M A) (f : A -> M B) :
  keeps a m -> (forall x, keeps a (f x)) -> keeps a (bind m f).
Proof.
  intros Hm Hf st Hst. unfold bind. specialize (Hm st Hst).
  destruct (m st) as [[x|e] st1]; simpl in *; auto.
  now apply Hf.
Qed.

Lemma keeps_forEach {A} (l : list A) (f : A -> M unit) :
  (forall x, keeps a (f x)) -> keeps a (forEach l f).
Proof.
  intro Hf. induction l as [|x l IH]; simpl.
  - apply keeps_ret.
  - apply keeps_bind; auto.
Qed.

Lemma keeps_set_dom h : keeps a (Dom.set_dom h).
Proof. intros st Hst. exact Hst. Qed.

Lemma keeps_alloc n : keeps a (Dom.alloc n).
Proof. intros st Hst. exact Hst. Qed.

Lemma keeps_record ev : keeps a (record ev).
Proof. intros st Hst. exact Hst. Qed.

Lemma keeps_node i : keeps a (Dom.node i).
Proof.
  apply keeps_pure. intro st. unfold Dom.node.
  now destruct (nth_error _ _).
Qed.

End Keeps.

Create HintDb keeps.

#[local] Hint Resolve keeps_ret keeps_throw keeps_lift keeps_gets keeps_data_get
  keeps_set_dom keeps_alloc keeps_record keeps_node : keeps.

Ltac keeps_step :=
  first
    [ solve [auto with keeps]
    | apply keeps_bind; [ | intro ]
    | apply keeps_forEach; intro
    | match goal with
      | |- keeps _ (match ?x with _ => _ end) => destruct x
      end ].

Ltac keeps_tac := repeat keeps_step.

Section KeepsDom.
Variable a : list (list binding).

Lemma keeps_elem i : keeps a (Dom.elem i).
Proof. unfold Dom.elem. keeps_tac. Qed.
Hint Resolve keeps_elem : keeps.

Lemma keeps_put i n : keeps a (Dom.put i n).
Proof. unfold Dom.put. keeps_tac. Qed.
Hint Resolve keeps_put : keeps.

Lemma keeps_removeAttribute i k : keeps a (Dom.removeAttribute i k).
Proof. unfold Dom.removeAttribute. keeps_tac. Qed.

Lemma keeps_dom_setAttribute i k v : keeps a (Dom.setAttribute i k v).
Proof. unfold Dom.setAttribute. keeps_tac. Qed.

Lemma keeps_setAttributeNS i k v : keeps a (Dom.setAttributeNS i k v).
Proof. unfold Dom.setAttributeNS. keeps_tac. Qed.

Lemma keeps_set_kids i ks : keeps a (Dom.set_kids i ks).
Proof. unfold Dom.set_kids. keeps_tac. Qed.

Lemma keeps_childNodes i : keeps a (Dom.childNodes i).
Proof. unfold Dom.childNodes. keeps_tac. Qed.

Hint Resolve keeps_removeAttribute keeps_dom_setAttribute keeps_setAttributeNS
  keeps_set_kids keeps_childNodes : keeps.

Lemma keeps_children i : keeps a (Dom.children i).
Proof. unfold Dom.children. keeps_tac. Qed.

Lemma keeps_detach c : keeps a (Dom.detach c).
Proof. unfold Dom.detach. keeps_tac. Qed.
Hint Resolve keeps_children keeps_detach : keeps.

Lemma keeps_dom_appendChild i c : keeps a (Dom.appendChild i c).
Proof. unfold Dom.appendChild. keeps_tac. Qed.

Lemma keeps_prepend i c : keeps a (Dom.prepend i c).
Proof. unfold Dom.prepend. keeps_tac. Qed.

Lemma keeps_removeChild i c : keeps a (Dom.removeChild i c).
Proof. unfold Dom.removeChild. keeps_tac. Qed.

Lemma keeps_insertBefore i c r : keeps a (Dom.insertBefore i c r).
Proof. unfold Dom.insertBefore. keeps_tac. Qed.

Lemma keeps_createTextNode s : keeps a (Dom.createTextNode s).
Proof. unfold Dom.createTextNode. keeps_tac. Qed.

Lemma keeps_createElementNS ns tag : keeps a (Dom.createElementNS ns tag).
Proof. unfold Dom.createElementNS. keeps_tac. Qed.

Hint Resolve keeps_dom_appendChild keeps_prepend keeps_removeChild
  keeps_insertBefore keeps_createTextNode keeps_createElementNS : keeps.

Lemma keeps_plant : forall t, keeps a (Dom.plant t).
Proof.
  fix ind 1. intros [s|ns tag attrs kids]; simpl.
  - apply keeps_alloc.
  - apply keeps_bind; [|intro; apply keeps_alloc].
    induction kids as [|x r IH].
    + apply keeps_ret.
    + apply keeps_bind; [apply ind|intro].
      apply keeps_bind; [apply IH|intro]. apply keeps_ret.
Qed.
Hint Resolve keeps_plant : keeps.

Lemma keeps_plant_all l : keeps a (Dom.plant_all l).
Proof. induction l; simpl; keeps_tac. Qed.
Hint Resolve keeps_plant_all : keeps.

(** With nothing registered the purge has no key to visit. *)
Lemma keeps_clearChildren element : keeps a (clearChildren element).
Proof.
  unfold clearChildren. apply keeps_bind; [auto with keeps|intro children].
  apply keeps_forEach. intro child.
  intros st Hst. unfold bind at 1, gets at 1.
  destruct Hst as [Hb Ha]. rewrite Hb. cbn [List.map forEach].
  unfold bind, ret. apply keeps_removeChild. now split.
Qed.
Hint Resolve keeps_clearChildren : keeps.

Variable E : engine.
Hypothesis on_server : isServer E = true.

Lemma keeps_apply_value f arg : keeps a (apply_value E f arg).
Proof. unfold apply_value. keeps_tac. Qed.

Lemma keeps_setAttribute element key value :
  keeps a (setAttribute element key value).
Proof. unfold setAttribute. keeps_tac. Qed.

Lemma keeps_setStyle element value : keeps a (setStyle element value).
Proof. unfold setStyle. keeps_tac. Qed.

Lemma keeps_assign_innerHTML element markup :
  keeps a (assign_innerHTML E element markup).
Proof. unfold assign_innerHTML. keeps_tac. Qed.

Lemma keeps_setTextContent element value :
  keeps a (setTextContent element value).
Proof. unfold setTextContent. keeps_tac. Qed.

Lemma keeps_prepend_rendered element x : keeps a (prepend_rendered element x).
Proof. unfold prepend_rendered. keeps_tac. Qed.

Lemma keeps_append_rendered element x : keeps a (append_rendered element x).
Proof. unfold append_rendered. keeps_tac. Qed.

Lemma keeps_handleServerSideRendering T element :
  keeps a (handleServerSideRendering E T element).
Proof. unfold handleServerSideRendering. keeps_tac. Qed.

Hint Resolve keeps_apply_value keeps_setAttribute keeps_setStyle
  keeps_assign_innerHTML keeps_setTextContent keeps_prepend_rendered
  keeps_append_rendered keeps_handleServerSideRendering : keeps.

(** On the server a function value is written to the element, not
    registered. *)
Lemma keeps_processFunctionValue sea element key value depth :
  (forall el k v l d, keeps a (sea el k v l d)) ->
  keeps a (processFunctionValue E sea element key value depth).
Proof.
  intro Hsea. unfold processFunctionValue. rewrite on_server. cbn [negb].
  keeps_tac.
Qed.
Hint Resolve keeps_processFunctionValue : keeps.

Variable T : script.

Lemma Refactored_setElementAttribute_keeps (render : render_fn) :
  (forall t d, keeps a (render t VNull d)) ->
  forall el k v l d, keeps a (Refactored.setElementAttribute E render el k v l d).
Proof.
  intros Hr el k v l d.
  unfold Refactored.setElementAttribute, Refactored.setInnerHTML,
    Refactored.prependChild, Refactored.appendChild, Refactored.setChildren.
  keeps_tac.
Qed.

Lemma Refactored_render_body_keeps (self : render_fn) :
  (forall t d, keeps a (self t VNull d)) ->
  forall t d, keeps a (Refactored.render_body E T self t VNull d).
Proof.
  intros Hs t d. unfold Refactored.render_body.
  pose proof (Refactored_setElementAttribute_keeps self Hs) as Hsea.
  simpl truthy. cbv iota.
  keeps_tac.
Qed.

Lemma Refactored_render_keeps fuel :
  forall t d, keeps a (Refactored.render E T fuel t VNull d).
Proof.
  induction fuel as [|n IH]; intros t d; simpl;
    apply Refactored_render_body_keeps; auto with keeps.
Qed.

Lemma Monolithic_setElementAttribute_keeps (render : render_fn) :
  (forall t cb d, keeps a (render t cb d)) ->
  forall el k v l d, keeps a (Monolithic.setElementAttribute E render el k v l d).
Proof.
  intros Hr el k v l d. unfold Monolithic.setElementAttribute. keeps_tac.
Qed.

Lemma Monolithic_render_body_keeps (self : render_fn) :
  (forall t cb d, keeps a (self t cb d)) ->
  forall t cb d, keeps a (Monolithic.render_body E T self t cb d).
Proof.
  intros Hs t cb d. unfold Monolithic.render_body.
  pose proof (Monolithic_setElementAttribute_keeps self Hs) as Hsea.
  keeps_tac.
Qed.

Lemma Monolithic_render_keeps fuel :
  forall t cb d, keeps a (Monolithic.render E T fuel t cb d).
Proof.
  induction fuel as [|n IH]; intros t cb d; simpl;
    apply Monolithic_render_body_keeps; auto with keeps.
Qed.

End KeepsDom.

(** X20.  On the server rendering registers nothing: from a state with an
    empty registry, whatever is rendered, with whatever outcome, the
    registry is empty afterwards and no array object was made or changed.
    (On the server a function value is written into attributes of the
    element instead.) *)
Theorem server_render_registers_nothing :
  forall (E : engine) (T : script) (fuel : nat) (t cb d : val) (st : state),
    isServer E = true ->
    bindings st = [] ->
    (bindings (snd (Refactored.render E T fuel t VNull d st)) = [] /\
     arrays (snd (Refactored.render E T fuel t VNull d st)) = arrays st) /\
    (bindings (snd (Monolithic.render E T fuel t cb d st)) = [] /\
     arrays (snd (Monolithic.render E T fuel t cb d st)) = arrays st).
Proof.
  intros E T fuel t cb d st Hs Hb. split.
  - apply (Refactored_render_keeps (arrays st) E Hs T fuel t d st). now split.
  - apply (Monolithic_render_keeps (arrays st) E Hs T fuel t cb d st). now split.
Qed.

Lemma server_render_registers_nothing_witness :
  bindings (snd (Refactored.render Demo.server Demo.text 3 Demo.card_descriptor
                   VNull VUndef empty_state)) = [] /\
  arrays (snd (Refactored.render Demo.server Demo.text 3 Demo.card_descriptor
                 VNull VUndef empty_state)) = [].
Proof.
  apply (server_render_registers_nothing Demo.server Demo.text 3
           Demo.card_descriptor VNull VUndef empty_state); reflexivity.
Defined.

(** ** From the server to the page *)

Lemma push_at_here r b (arrs : list (list binding)) :
  r < List.length arrs ->
  nth r (push_at r b arrs) [] = nth r arrs [] ++ [b].
Proof.
  revert r. induction arrs as [|l arrs IH]; intros [|r] H; simpl in *;
    try lia; auto.
  apply IH. lia.
Qed.

Lemma registered_push st lid r b :
  assoc lid (bindings st) = Some r ->
  r < List.length (arrays st) ->
  registered (snd (push r b st)) lid = registered st lid ++ [b].
Proof.
  intros Hr Hlt. unfold registered, push, modify, array_of.
  cbn [snd bindings arrays]. rewrite Hr. now apply push_at_here.
Qed.

Lemma served_attributes (E : engine) sea el key f lid depth tag kids st :
  isServer E = true ->
  listenerId_of f = VStr lid ->
  is_hook lid = true ->
  call E f (slice st lid) = Ok VNull ->
  nth_error (dom st) el = Some (Elem Dom.xhtml tag [] kids) ->
  exists st',
    processFunctionValue E sea el key f depth st = (Ok tt, st') /\
    dom st'
    = Dom.update (dom st) el
        (Elem Dom.xhtml tag
           [("data-listener-id", lid);
            (Dom.attr_name Dom.xhtml
               ("data-bind-to-"
                ++ (if Str.isCamelCase key then Str.camelToHyphen key else key)),
             fn_src f)] kids).
Proof.
  intros Hs Hlid Hh Hc Hel. unfold processFunctionValue.
  rewrite Hs, Hlid. cbn [negb to_string].
  set (name := ("data-bind-to-"
                ++ (if Str.isCamelCase key then Str.camelToHyphen key else key))%string).
  erewrite bind_ok.
  2:{ erewrite bind_ok by (apply (dom_setAttribute_at _ _ _ _ _ _ _ _ Hel)).
      erewrite dom_setAttribute_at
        by (cbn [dom with_dom]; eapply nth_error_update; exact Hel).
      reflexivity. }
  erewrite bind_ok by (apply (read_hook _ lid Hh)).
  erewrite bind_ok.
  2:{ unfold apply_value. erewrite bind_ok by reflexivity. unfold lift.
      match goal with
      | |- context [call E f ?x] => change x with (slice st lid)
      end.
      rewrite Hc. reflexivity. }
  cbn [is_null]. eexists. split; [reflexivity|].
  cbn [dom with_dom]. rewrite update_update. reflexivity.
Qed.



(** ** What the server hands back *)

Lemma elem_at el ns tag attrs kids st :
  nth_error (dom st) el = Some (Elem ns tag attrs kids) ->
  Dom.elem el st = (Ok (ns, tag, attrs, kids), st).
Proof. intro H. unfold Dom.elem, Dom.node, bind. now rewrite H. Qed.

Lemma handleServerSideRendering_fragment E T el ns tag attrs kids st :
  nth_error (dom st) el = Some (Elem ns tag attrs kids) ->
  Dom.tagName ns tag <> "HTML" ->
  handleServerSideRendering E T el st
  = (Ok (RHtml ("<!DOCTYPE html>" ++ outerHTML E (dom st) el)), st).
Proof.
  intros Hel Hne. unfold handleServerSideRendering.
  erewrite bind_ok by (apply (elem_at _ _ _ _ _ _ Hel)).
  cbv beta iota.
  destruct (String.eqb_spec (Dom.tagName ns tag) "HTML"); [contradiction|].
  reflexivity.
Qed.



Lemma bind_throw {A B} (m : M A) (f : A -> M B) st e st' :
  m st = (Throw e, st') -> bind m f st = (Throw e, st').
Proof. intro H. unfold bind. now rewrite H. Qed.

Lemma is_element_update h i n :
  Dom.is_element h i = true ->
  Dom.is_element (Dom.update h i (match n with
                                  | (ns, tag, attrs, kids) => Elem ns tag attrs kids
                                  end)) i = true.
Proof.
  destruct n as [[[ns tag] attrs] kids]. unfold Dom.is_element.
  destruct (nth_error h i) eqn:Hn; [|discriminate]. intros _.
  now rewrite (nth_error_update _ _ _ _ Hn).
Qed.

Lemma set_kids_element i ks st :
  Dom.is_element (dom st) i = true ->
  exists st',
    Dom.set_kids i ks st = (Ok tt, st') /\
    Dom.is_element (dom st') i = true /\ store st' = store st.
Proof.
  intro H. pose proof H as H'. unfold Dom.is_element in H'.
  destruct (nth_error (dom st) i) as [[|ns tag attrs kids]|] eqn:Hn;
    try discriminate.
  rewrite (set_kids_at _ _ _ _ _ ks _ Hn).
  eexists. split; [reflexivity|]. split; [|reflexivity].
  cbn [dom with_dom]. apply (is_element_update _ _ (ns, tag, attrs, ks) H).
Qed.

Lemma setAttribute_element i k v st :
  Dom.is_element (dom st) i = true ->
  exists st',
    Dom.setAttribute i k v st = (Ok tt, st') /\
    Dom.is_element (dom st') i = true /\ store st' = store st.
Proof.
  intro H. pose proof H as H'. unfold Dom.is_element in H'.
  destruct (nth_error (dom st) i) as [[|ns tag attrs kids]|] eqn:Hn;
    try discriminate.
  rewrite (dom_setAttribute_at _ _ _ _ _ _ _ _ Hn).
  eexists. split; [reflexivity|]. split; [|reflexivity].
  cbn [dom with_dom].
  apply (is_element_update _ _ (ns, tag, Dom.set_attr attrs (Dom.attr_name ns k) v, kids) H).
Qed.

Lemma createTextNode_element s i st :
  Dom.is_element (dom st) i = true ->
  exists st',
    Dom.createTextNode s st = (Ok (List.length (dom st)), st') /\
    Dom.is_element (dom st') i = true /\ store st' = store st.
Proof.
  intro H. eexists. split; [reflexivity|]. split; [|reflexivity].
  cbn [dom]. unfold Dom.is_element in *.
  destruct (nth_error (dom st) i) eqn:Hn; [|discriminate].
  rewrite nth_error_app1; [now rewrite Hn|].
  apply nth_error_Some. congruence.
Qed.

(** X23.  An [html] root without a [body] cannot be served: when the
    engine finds no [body] under the root, the completion of the root ends
    in a [TypeError], after the script element has been made. *)
Theorem serve_html_without_body_throws :
  forall (E : engine) (T : script) (el : nat) (ns tag : string)
         (attrs : list (string * string)) (kids : list nat) (st : state),
    nth_error (dom st) el = Some (Elem ns tag attrs kids) ->
    Dom.tagName ns tag = "HTML" ->
    (forall h, querySelector E h (Some el) "body" = None) ->
    fst (handleServerSideRendering E T el st)
    = Throw (TypeError "Cannot read properties of null").
Proof.
  intros E T el ns tag attrs kids st Hel Htag Hbody.
  unfold handleServerSideRendering.
  erewrite bind_ok by (apply (elem_at _ _ _ _ _ _ Hel)).
  cbv beta iota. rewrite Htag. change ("HTML" =? "HTML")%string with true.
  cbv iota.
  set (script := List.length (dom st)).
  set (st1 := snd (Dom.createElementNS Dom.xhtml "script" st)).
  assert (R1 : Dom.createElementNS Dom.xhtml "script" st = (Ok script, st1))
    by reflexivity.
  assert (H1 : Dom.is_element (dom st1) script = true).
  { unfold st1, script, Dom.is_element. cbn [dom snd Dom.createElementNS Dom.alloc].
    now rewrite nth_error_app2, Nat.sub_diag. }
  destruct (createTextNode_element (script_init T) script st1 H1)
    as (st2 & R2 & H2 & _).
  destruct (set_kids_element script [List.length (dom st1)] st2 H2)
    as (st3 & R3 & H3 & _).
  assert (Hdata : exists st4,
            (match store st3 with
             | [] => ret tt
             | _ =>
                 t' <- Dom.createTextNode
                         (script_init T
                          ++ script_hydrate T (JSON_stringify E (store st3)))%string ;;
                 Dom.set_kids script [t']
             end)%js st3 = (Ok tt, st4) /\
            Dom.is_element (dom st4) script = true).
  { destruct (store st3) as [|kv rest].
    - exists st3. split; auto.
    - destruct (createTextNode_element
                  (script_init T ++ script_hydrate T (JSON_stringify E (kv :: rest)))
                  script st3 H3) as (sa & Ra & Ha & _).
      destruct (set_kids_element script [List.length (dom st3)] sa Ha)
        as (sb & Rb & Hb & _).
      exists sb. split; auto.
      erewrite bind_ok by exact Ra. exact Rb. }
  destruct Hdata as (st4 & R4 & H4).
  destruct (setAttribute_element script "type" "module" st4 H4)
    as (st5 & R5 & H5 & _).
  destruct (setAttribute_element script "defer" "true" st5 H5)
    as (st6 & R6 & H6 & _).
  erewrite bind_throw; [reflexivity|].
  erewrite bind_ok by exact R1.
  erewrite bind_ok by exact R2.
  erewrite bind_ok by exact R3.
  erewrite bind_ok by reflexivity.
  erewrite bind_ok by exact R4.
  erewrite bind_ok by exact R5.
  erewrite bind_ok by exact R6.
  erewrite bind_ok by reflexivity.
  rewrite Hbody. reflexivity.
Qed.

Lemma serve_html_without_body_throws_witness :
  fst (handleServerSideRendering Demo.server Demo.text 0
         (snd (Dom.createElementNS Dom.xhtml "html" empty_state)))
  = Throw (TypeError "Cannot read properties of null").
Proof.
  apply (serve_html_without_body_throws Demo.server Demo.text 0
           Dom.xhtml "html" [] []); reflexivity.
Defined.

(** ** A bound text, when it is first rendered *)

(** [if (!this.bindings[listenerId]) this.bindings[listenerId] = []] leaves
    the entries registered as they are, and the key with an array that
    exists. *)
Lemma ensure_array lid st :
  registry_wf st = true ->
  exists r st1,
    (forall B (k : nat -> M B),
       (r <- bindings_get lid ;;
        r <- match r with
             | Some r => ret r
             | None => r <- new_array [] ;; bindings_set lid r ;; ret r
             end ;;
        k r)%js st = k r st1) /\
    assoc lid (bindings st1) = Some r /\
    r < List.length (arrays st1) /\
    registered st1 lid = registered st lid /\
    dom st1 = dom st /\ store st1 = store st.
Proof.
  intro Hwf.
  destruct (assoc lid (bindings st)) as [r|] eqn:Hr.
  - exists r, st. split.
    { intros B k. unfold bindings_get. erewrite bind_ok by reflexivity.
      cbv beta. rewrite Hr. now erewrite bind_ok by reflexivity. }
    repeat split; auto. eapply registry_wf_assoc; eauto.
  - exists (List.length (arrays st)),
      (snd (bindings_set lid (List.length (arrays st)) (snd (new_array [] st)))).
    split.
    { intros B k. unfold bindings_get. erewrite bind_ok by reflexivity.
      cbv beta. rewrite Hr.
      erewrite bind_ok; [reflexivity|].
      erewrite bind_ok by reflexivity. erewrite bind_ok by reflexivity.
      reflexivity. }
    cbn [bindings arrays dom store snd bindings_set new_array modify].
    split; [apply assoc_obj_set_same|].
    split; [rewrite length_app; simpl; lia|].
    split; [|split; reflexivity].
    unfold registered. cbn [bindings arrays]. rewrite assoc_obj_set_same, Hr.
    unfold array_of. cbn [arrays]. rewrite app_nth2, Nat.sub_diag; auto.
Qed.

Lemma first_render_of_text E el f lid r depth st :
  isServer E = false ->
  listenerId_of f = VStr lid ->
  is_hook lid = true ->
  registry_wf st = true ->
  Dom.is_element (dom st) el = true ->
  call E f (slice st lid) = Ok r ->
  is_null r = false ->
  exists st',
    (forall sea,
       (forall el value h d st,
          is_hook h = true ->
          sea el "textContent" value (VStr h) d st = setTextContent el value st) ->
       processFunctionValue E sea el "textContent" f depth st = (Ok tt, st')) /\
    registered st' lid
    = registered st lid
      ++ [{| element := el; func := VFun f; property := "textContent" |}] /\
    dom st' = text_set (dom st) el (to_string r) /\
    store st' = store st.
Proof.
  intros on_client Hlid Hh Hwf Hel Hc Hnull.
  destruct (ensure_array lid st Hwf) as (r0 & st1 & R1 & Ha & Hlt & Hreg & Hd & Hs).
  set (b := {| element := el; func := VFun f; property := "textContent" |}).
  set (st2 := snd (push r0 b st1)).
  assert (Hsl : slice st2 lid = slice st lid)
    by (unfold slice, st2; cbn [store snd push modify]; now rewrite Hs).
  set (st3 := snd (record (Evaluated (VFun f) (slice st lid)) st2)).
  unfold Dom.is_element in Hel.
  destruct (nth_error (dom st) el) as [[|ns tag attrs kids]|] eqn:Hn;
    try discriminate.
  assert (Hn3 : nth_error (dom st3) el = Some (Elem ns tag attrs kids)).
  { unfold st3, st2. cbn [dom snd push modify record]. now rewrite Hd. }
  exists (with_dom st3 (text_set (dom st3) el (to_string r))).
  split; [|split; [|split]].
  - intros sea sea_text.
    unfold processFunctionValue. rewrite on_client, Hlid. cbn [negb to_string].
    erewrite bind_ok.
    2:{ rewrite R1. fold b. reflexivity. }
    erewrite bind_ok by (apply (read_hook _ lid Hh)).
    erewrite bind_ok.
    2:{ unfold apply_value. erewrite bind_ok by reflexivity. unfold lift.
        match goal with
        | |- context [call E f ?x] => change x with (slice st2 lid)
        end.
        rewrite Hsl, Hc. reflexivity. }
    rewrite Hnull, sea_text by exact Hh.
    now erewrite setTextContent_at by exact Hn3.
  - unfold st3, st2.
    change (registered _ lid) with (registered (snd (push r0 b st1)) lid) at 1.
    rewrite <- Hreg. now apply registered_push.
  - unfold st3, st2. cbn [dom with_dom snd push modify record]. now rewrite Hd.
  - unfold st3, st2. cbn [store with_dom snd push modify record]. exact Hs.
Qed.


